(** * feedgenerator: RSS 0.91, RSS 2.0 and Atom 1.0 feed generation

    A shallow embedding of [feedgenerator.py] (the Python 3 module) and the
    properties of its specification that are checked against it.

    Conventions of the embedding:
    - a Python [str] is the list of its code points ([str := list Z]);
      [bytes] is the list of its byte values;
    - a call that can raise returns a [result]; the exception is named;
    - the SAX handler the feed classes write to is threaded explicitly
      (type [handler], monad [M]);
    - the functions of the Python standard library that the module calls
      ([str.encode], [urllib.parse.quote], [urllib.parse.urlparse],
      [datetime.strftime], [xml.sax.saxutils]) are modelled by their
      documented behaviour, each next to its first caller. *)

From Stdlib Require Import String Ascii.
From Stdlib Require Import ZArith List Bool Lia QArith Qround Permutation Sorted.
Import ListNotations.
Open Scope list_scope.
Open Scope Z_scope.

(* ================================================================== *)
(** ** Text *)

(** A Python 3 [str]: a sequence of code points (0 .. 0x10FFFF, the
    surrogate range included, as in CPython). *)
Definition str := list Z.

(** [bytes]: a sequence of values 0 .. 255. *)
Definition bytes := list Z.

Definition is_code_point (c : Z) : bool := (0 <=? c) && (c <=? 1114111).

Definition is_surrogate (c : Z) : bool := (55296 <=? c) && (c <=? 57343).

(** A string literal of the source, as a [str]. *)
Definition lit (s : string) : str :=
  map (fun a => Z.of_N (N_of_ascii a)) (list_ascii_of_string s).

(** The double quote character, written apart from the literals. *)
Definition dq : str := [34].

Fixpoint str_eqb (a b : str) : bool :=
  match a, b with
  | [], [] => true
  | x :: a', y :: b' => Z.eqb x y && str_eqb a' b'
  | _, _ => false
  end.

(** [c in s] for a one-character [c]. *)
Definition mem_chr (c : Z) (s : str) : bool := existsb (Z.eqb c) s.

(** Python truthiness of a [str]: the empty string is false. *)
Definition truthy (s : str) : bool :=
  match s with [] => false | _ :: _ => true end.

(** Truthiness of a value that is [None] or a [str]. *)
Definition truthy_opt (o : option str) : bool :=
  match o with None => false | Some s => truthy s end.

(** ['%s' % v] for a value that is [None] or a [str]. *)
Definition pct_s (o : option str) : str :=
  match o with None => lit "None" | Some s => s end.

(* ================================================================== *)
(** ** Exceptions *)

Inductive exn : Type :=
| AttributeError
| TypeError
| ValueError
| UnicodeEncodeError
| NotImplementedError.

Inductive result (A : Type) : Type :=
| Ok (a : A)
| Raise (e : exn).
Arguments Ok {A} a.
Arguments Raise {A} e.

Definition rbind {A B} (r : result A) (k : A -> result B) : result B :=
  match r with
  | Ok a => k a
  | Raise e => Raise e
  end.

Declare Scope result_scope.
Delimit Scope result_scope with res.
Notation "'try' x <- r ; k" := (rbind r (fun x => k))
  (at level 10, x name, r at level 100, k at level 200) : result_scope.
Open Scope result_scope.

(* ================================================================== *)
(** ** Text/URI normalizer *)

(** [str.encode('utf-8', 'strict')] on one code point.  A surrogate code
    point has no UTF-8 encoding under the strict error handler:
    [UnicodeEncodeError]. *)
Definition utf8_encode_cp (c : Z) : result bytes :=
  if negb (is_code_point c) then Raise UnicodeEncodeError
  else if c <? 128 then Ok [c]
  else if c <? 2048 then
    Ok [Z.lor 192 (Z.shiftr c 6); Z.lor 128 (Z.land c 63)]
  else if is_surrogate c then Raise UnicodeEncodeError
  else if c <? 65536 then
    Ok [Z.lor 224 (Z.shiftr c 12);
        Z.lor 128 (Z.land (Z.shiftr c 6) 63);
        Z.lor 128 (Z.land c 63)]
  else
    Ok [Z.lor 240 (Z.shiftr c 18);
        Z.lor 128 (Z.land (Z.shiftr c 12) 63);
        Z.lor 128 (Z.land (Z.shiftr c 6) 63);
        Z.lor 128 (Z.land c 63)].

Fixpoint str_encode_utf8 (s : str) : result bytes :=
  match s with
  | [] => Ok []
  | c :: s' =>
      try b <- utf8_encode_cp c;
      try bs <- str_encode_utf8 s';
      Ok (b ++ bs)
  end.

(** [smart_str(s)] at a [str] argument with the default arguments
    ([encoding='utf-8'], [strings_only=False], [errors='strict']): the
    first two tests fail and the third branch,
    [elif isinstance(s, str): return s.encode(encoding, errors)], is taken;
    the result is a [bytes]. *)
Definition smart_str (s : str) : result bytes := str_encode_utf8 s.

(** [urllib.parse._ALWAYS_SAFE]: ASCII letters, digits and [_.-~]. *)
Definition always_safe (b : Z) : bool :=
  ((65 <=? b) && (b <=? 90)) || ((97 <=? b) && (b <=? 122))
  || ((48 <=? b) && (b <=? 57)) || mem_chr b (lit "_.-~").

(** The [safe] argument of the call in [iri_to_uri]. *)
Definition iri_safe : str := lit "/#%[]=:;$&()+,!?*@'~".

Definition hex_digit (n : Z) : Z :=
  if n <? 10 then 48 + n else 55 + n.

(** ['%{:02X}'.format(b)] for a byte. *)
Definition pct_hex (b : Z) : str :=
  [37; hex_digit (b / 16); hex_digit (b mod 16)].

(** The quoter of [urllib.parse.quote_from_bytes]: a byte of the safe set
    is kept as the character of the same code, any other byte becomes
    [%XX]. *)
Definition quoter (safe : str) (b : Z) : str :=
  if always_safe b || mem_chr b safe then [b] else pct_hex b.

(** [urllib.parse.quote(bs, safe=safe)] at a [bytes] argument. *)
Definition quote (bs : bytes) (safe : str) : str :=
  flat_map (quoter safe) bs.

(** The path of [iri_to_uri] after the [None] test:
    [urllib.parse.quote(smart_str(iri), safe="/#%[]=:;$&()+,!?*@'~")]. *)
Definition quote_iri (iri : str) : result str :=
  try bs <- smart_str iri;
  Ok (quote bs iri_safe).

Definition iri_to_uri (iri : option str) : result (option str) :=
  match iri with
  | None => Ok None
  | Some s => try u <- quote_iri s; Ok (Some u)
  end.

(** [force_unicode(s, strings_only)] at an argument that is [None] or a
    [str].  [None] is a protected type and is returned as it is when
    [strings_only] holds; without [strings_only] the conversion
    [str(str(s), encoding, errors)] of a non-[str] raises [TypeError]
    (decoding a [str] is not supported), which neither [except] clause
    catches.  A [str] fails both [isinstance] tests and is returned. *)
Definition force_unicode (s : option str) (strings_only : bool)
  : result (option str) :=
  match s with
  | None => if strings_only then Ok None else Raise TypeError
  | Some t => Ok (Some t)
  end.

(** [to_unicode = lambda s: force_unicode(s, strings_only=True)]. *)
Definition to_unicode (s : option str) : result (option str) :=
  force_unicode s true.

(* ================================================================== *)
(** ** Timestamps *)

(** [datetime.timedelta], normalised as Python keeps it:
    [0 <= seconds < 86400] and [0 <= microseconds < 1000000]. *)
Record timedelta : Type := mk_timedelta {
  td_days : Z;
  td_seconds : Z;
  td_microseconds : Z
}.

(** [datetime.datetime].  [tzinfo] is [None] or a fixed-offset zone (such
    as [datetime.timezone]), given by the offset its [utcoffset] returns.
    A zone object has neither [__bool__] nor [__len__]: it is true in a
    condition whatever its offset. *)
Record datetime : Type := mk_datetime {
  year : Z;
  month : Z;
  day : Z;
  hour : Z;
  minute : Z;
  second : Z;
  microsecond : Z;
  tzinfo : option timedelta
}.

Definition is_leap (y : Z) : bool :=
  (y mod 4 =? 0) && (negb (y mod 100 =? 0) || (y mod 400 =? 0)).

Definition days_before_year (y : Z) : Z :=
  let p := y - 1 in p * 365 + p / 4 - p / 100 + p / 400.

Definition days_before_month (y m : Z) : Z :=
  nth (Z.to_nat m) [0; 0; 31; 59; 90; 120; 151; 181; 212; 243; 273; 304; 334] 0
  + (if (2 <? m) && is_leap y then 1 else 0).

(** [date.toordinal()]: day 1 is 0001-01-01. *)
Definition toordinal (d : datetime) : Z :=
  days_before_year (year d) + days_before_month (year d) (month d) + day d.

(** [date.weekday()]: Monday is 0. *)
Definition weekday (d : datetime) : Z := (toordinal d + 6) mod 7.

(** Decimal digits of a natural number, most significant first. *)
Fixpoint dec_digits (fuel : nat) (n : Z) : str :=
  match fuel with
  | O => []
  | S f =>
      if n <? 10 then [48 + n]
      else dec_digits f (n / 10) ++ [48 + n mod 10]
  end.

Definition str_of_nat (n : Z) : str :=
  dec_digits (S (Z.to_nat (Z.log2 n))) n.

(** The conversion [%d] of the [%] operator with the flag [0], an optional
    flag [+] and a field width: the sign (always with [+]), then zeros to
    fill the width, then the digits. *)
Definition format_d (plus : bool) (width : nat) (v : Z) : str :=
  let sign := if v <? 0 then lit "-" else if plus then lit "+" else [] in
  let digits := str_of_nat (Z.abs v) in
  sign ++ repeat 48 (width - length sign - length digits) ++ digits.

Definition day_abbr : list string :=
  ["Mon"; "Tue"; "Wed"; "Thu"; "Fri"; "Sat"; "Sun"]%string.

Definition month_abbr : list string :=
  [""; "Jan"; "Feb"; "Mar"; "Apr"; "May"; "Jun";
   "Jul"; "Aug"; "Sep"; "Oct"; "Nov"; "Dec"]%string.

(** One directive of [strftime], in the C locale.  [%Y] is the year with
    century, four digits for the years 1000 to 9999. *)
Definition strftime_directive (c : Z) (d : datetime) : str :=
  if c =? 97 (* a *) then lit (nth (Z.to_nat (weekday d)) day_abbr ""%string)
  else if c =? 98 (* b *) then lit (nth (Z.to_nat (month d)) month_abbr ""%string)
  else if c =? 100 (* d *) then format_d false 2 (day d)
  else if c =? 109 (* m *) then format_d false 2 (month d)
  else if c =? 89 (* Y *) then format_d false 4 (year d)
  else if c =? 72 (* H *) then format_d false 2 (hour d)
  else if c =? 77 (* M *) then format_d false 2 (minute d)
  else if c =? 83 (* S *) then format_d false 2 (second d)
  else if c =? 37 (* % *) then [37]
  else [37; c].

(** [date.strftime(fmt)]: characters are copied, [%x] is a directive. *)
Fixpoint strftime (fmt : str) (d : datetime) : str :=
  match fmt with
  | [] => []
  | c :: fmt' =>
      if c =? 37 then
        match fmt' with
        | [] => [37]
        | x :: fmt'' => strftime_directive x d ++ strftime fmt'' d
        end
      else c :: strftime fmt' d
  end.

(** The number [(offset.days * 24 * 60) + (offset.seconds / 60)].  The
    division [/] is Python 3's true division and gives a float.  The float
    is modelled by the exact rational: [seconds / 60] is either an integer
    or at least 1/60 away from one, which no rounding of a double of this
    size reaches, so that [divmod] and the truncation of [%d] below give
    the same integers on the float and on the rational. *)
Definition offset_minutes (offset : timedelta) : Q :=
  (inject_Z (td_days offset * 24 * 60) + inject_Z (td_seconds offset) / inject_Z 60)%Q.

(** [divmod(x, y)] on floats, [y > 0]: the floor of the quotient and the
    remainder of the same sign as [y]. *)
Definition divmod (x y : Q) : Q * Q :=
  let q := inject_Z (Qfloor (x / y)) in
  (q, (x - q * y)%Q).

(** [int(x)] of a float, applied by [%d]: truncation towards zero. *)
Definition Qtrunc (x : Q) : Z :=
  if Qnum x <? 0 then Qceiling x else Qfloor x.

Definition rfc2822_date (date : datetime) : str :=
  match tzinfo date with
  | Some offset =>
      let time_str := strftime (lit "%a, %d %b %Y %H:%M:%S ") date in
      let timezone := offset_minutes offset in
      let '(hour, minute) := divmod timezone (inject_Z 60) in
      time_str ++ format_d true 3 (Qtrunc hour) ++ format_d false 2 (Qtrunc minute)
  | None => strftime (lit "%a, %d %b %Y %H:%M:%S -0000") date
  end.

Definition rfc3339_date (date : datetime) : str :=
  match tzinfo date with
  | Some offset =>
      let time_str := strftime (lit "%Y-%m-%dT%H:%M:%S") date in
      let timezone := offset_minutes offset in
      let '(hour, minute) := divmod timezone (inject_Z 60) in
      time_str ++ format_d true 3 (Qtrunc hour) ++ lit ":"
        ++ format_d false 2 (Qtrunc minute)
  | None => strftime (lit "%Y-%m-%dT%H:%M:%SZ") date
  end.

(** The key of the order on timestamps: microseconds since the start of
    day 0, less the UTC offset of an aware timestamp.  Python compares two
    naive timestamps field by field and two aware ones by their difference;
    on calendar dates both are the order of this key. *)
Definition timedelta_us (t : timedelta) : Z :=
  (td_days t * 86400 + td_seconds t) * 1000000 + td_microseconds t.

Definition utc_key (d : datetime) : Z :=
  ((toordinal d * 86400 + hour d * 3600 + minute d * 60 + second d) * 1000000
   + microsecond d)
  - match tzinfo d with Some offset => timedelta_us offset | None => 0 end.

(** [a < b] on timestamps: comparing a naive with an aware timestamp raises
    [TypeError]. *)
Definition datetime_lt (a b : datetime) : result bool :=
  match tzinfo a, tzinfo b with
  | None, None => Ok (utc_key a <? utc_key b)
  | Some _, Some _ => Ok (utc_key a <? utc_key b)
  | _, _ => Raise TypeError
  end.

(** [list.sort()] on timestamps: a stable sort that compares with [<] only,
    as a stable insertion sort.  Every element after the first is compared
    with an element placed before it, so that a list holding naive and
    aware timestamps raises here as it does in CPython. *)
Fixpoint insort (x : datetime) (sorted : list datetime)
  : result (list datetime) :=
  match sorted with
  | [] => Ok [x]
  | y :: rest =>
      try b <- datetime_lt x y;
      if b then Ok (x :: y :: rest)
      else try r <- insort x rest; Ok (y :: r)
  end.

Fixpoint sort_into (acc l : list datetime) : result (list datetime) :=
  match l with
  | [] => Ok acc
  | x :: l' => try acc' <- insort x acc; sort_into acc' l'
  end.

Definition list_sort (l : list datetime) : result (list datetime) :=
  sort_into [] l.

(* ================================================================== *)
(** ** Tag URI generator *)

(** [s.partition(c)] for a one-character separator: the part before the
    first [c], whether [c] was found, the part after it. *)
Fixpoint partition (c : Z) (s : str) : str * bool * str :=
  match s with
  | [] => ([], false, [])
  | x :: s' =>
      if x =? c then ([], true, s')
      else let '(a, found, b) := partition c s' in (x :: a, found, b)
  end.

(** [s.rpartition(c)]: the same at the last [c]; when [c] is absent the
    whole of [s] is the part after. *)
Definition rpartition (c : Z) (s : str) : str * bool * str :=
  let '(a, found, b) := partition c (rev s) in
  if found then (rev b, true, rev a) else ([], false, s).

Definition is_ascii_alpha (c : Z) : bool :=
  ((65 <=? c) && (c <=? 90)) || ((97 <=? c) && (c <=? 122)).

(** [urllib.parse.scheme_chars]. *)
Definition is_scheme_char (c : Z) : bool :=
  is_ascii_alpha c || ((48 <=? c) && (c <=? 57)) || mem_chr c (lit "+-.").

(** [str.lower()] on ASCII letters. *)
Definition lower (s : str) : str :=
  map (fun c => if (65 <=? c) && (c <=? 90) then c + 32 else c) s.

(** [urllib.parse.uses_params]. *)
Definition uses_params : list str :=
  map lit [""; "ftp"; "hdl"; "prospero"; "http"; "imap"; "https"; "shttp";
           "rtsp"; "rtspu"; "sip"; "sips"; "mms"; "sftp"; "tel"]%string.

(** [urllib.parse.ParseResult]. *)
Record ParseResult : Type := mk_ParseResult {
  scheme : str;
  netloc : str;
  path : str;
  params : str;
  query : str;
  fragment : str
}.

(** [urllib.parse._splitnetloc(url, 2)] on a [url] that starts with [//]:
    the network location runs to the first of [/], [?], [#]. *)
Fixpoint split_at_delim (s : str) : str * str :=
  match s with
  | [] => ([], [])
  | c :: s' =>
      if mem_chr c (lit "/?#") then ([], s)
      else let '(a, b) := split_at_delim s' in (c :: a, b)
  end.

Definition splitnetloc (url : str) : str * str := split_at_delim (skipn 2 url).

(** [urllib.parse._splitparams]: the parameters follow the first [;] of the
    last path segment. *)
Definition splitparams (url : str) : str * str :=
  if mem_chr 47 url then
    let '(dir, _, last_segment) := rpartition 47 url in
    let '(a, found, b) := partition 59 last_segment in
    if found then (dir ++ [47] ++ a, b) else (url, [])
  else
    let '(a, _, b) := partition 59 url in (a, b).

(** [urllib.parse.urlsplit(url)], as current CPython has it: the scheme
    before the first [:], the network location after [//] (an unbalanced
    square bracket in it raises [ValueError]), the fragment after the
    first [#], the query after the first [?].  Not modelled: the removal
    of control characters and the NFKC and bracketed-host checks, which
    concern URLs with control characters or with non-ASCII or bracketed
    hosts only.  (Releases before 3.10 also keep [x:123] as a path.) *)
Definition urlsplit (url : str) : result (str * str * str * str * str) :=
  let '(scheme, url) :=
    let '(before, found, after) := partition 58 url in
    match before with
    | c0 :: _ =>
        if found && is_ascii_alpha c0 && forallb is_scheme_char before
        then (lower before, after) else ([], url)
    | [] => ([], url)
    end in
  try nu <-
    (if str_eqb (firstn 2 url) (lit "//") then
       let '(netloc, rest) := splitnetloc url in
       if (mem_chr 91 netloc && negb (mem_chr 93 netloc))
          || (mem_chr 93 netloc && negb (mem_chr 91 netloc))
       then Raise ValueError
       else Ok (netloc, rest)
     else Ok ([], url));
  let '(netloc, url) := nu in
  let '(url, fragment) :=
    let '(a, _, b) := partition 35 url in (a, b) in
  let '(url, query) :=
    let '(a, _, b) := partition 63 url in (a, b) in
  Ok (scheme, netloc, url, query, fragment).

(** [urllib.parse.urlparse(url)]. *)
Definition urlparse (url : str) : result ParseResult :=
  try splitresult <- urlsplit url;
  let '(scheme, netloc, url, query, fragment) := splitresult in
  let '(url, params) :=
    if existsb (str_eqb scheme) uses_params && mem_chr 59 url
    then splitparams url else (url, []) in
  Ok (mk_ParseResult scheme netloc url params query fragment).

(** The [hostname] attribute of a parse result: the host of the network
    location, without user information and port, in lower case (a zone
    identifier after [%] is kept as it is); [None] when it is empty. *)
Definition hostname (r : ParseResult) : option str :=
  let '(_, _, hostinfo) := rpartition 64 (netloc r) in
  let '(_, have_open_br, bracketed) := partition 91 hostinfo in
  let host :=
    if have_open_br then let '(h, _, _) := partition 93 bracketed in h
    else let '(h, _, _) := partition 58 hostinfo in h in
  match host with
  | [] => None
  | _ :: _ =>
      let '(h, percent, zone) := partition 37 host in
      Some (lower h ++ (if percent then [37] else []) ++ zone)
  end.

(** [get_tag_uri(url, date)].  The parse result has a [hostname] attribute,
    so [getattr] returns it and its default is not used. *)
Definition get_tag_uri (url : str) (date : option datetime) : result str :=
  try url_split <- urlparse url;
  let hostname := hostname url_split in
  let path := path url_split in
  let fragment := fragment url_split in
  let d :=
    match date with
    | Some date => lit "," ++ strftime (lit "%Y-%m-%d") date
    | None => []
    end in
  Ok (lit "tag:" ++ pct_s hostname ++ d ++ lit ":" ++ path ++ lit "/" ++ fragment).

(* ================================================================== *)
(** ** XML emission helper *)

(** [xml.sax.saxutils.escape(data)]: [&], [>] and [<] are replaced. *)
Definition escape_chr (c : Z) : str :=
  if c =? 38 then lit "&amp;"
  else if c =? 62 then lit "&gt;"
  else if c =? 60 then lit "&lt;"
  else [c].

Definition escape (data : str) : str := flat_map escape_chr data.

(** [xml.sax.saxutils.quoteattr(data)]: escaped, with newline, carriage
    return and tab as character references, then quoted. *)
Definition quoteattr_chr (c : Z) : str :=
  if c =? 10 then lit "&#10;"
  else if c =? 13 then lit "&#13;"
  else if c =? 9 then lit "&#9;"
  else escape_chr c.

Definition quoteattr (data : str) : str :=
  let data := flat_map quoteattr_chr data in
  if mem_chr 34 data then
    if mem_chr 39 data then
      dq ++ flat_map (fun c => if c =? 34 then lit "&quot;" else [c]) data ++ dq
    else lit "'" ++ data ++ lit "'"
  else dq ++ data ++ dq.

(** A call received by the handler. *)
Inductive sax_call : Type :=
| StartDocument
| StartElement (name : str) (attrs : list (str * option str))
| Characters (content : str)
| EndElement (name : str).

(** The state of a [SimplerXMLGenerator]: the text written to the output
    file so far and the encoding named in the XML declaration.  [calls] is
    specification state: the calls received, oldest first. *)
Record handler : Type := mk_handler {
  out : str;
  encoding : str;
  calls : list sax_call
}.

(** A computation that uses the handler and may raise. *)
Definition M (A : Type) : Type := handler -> result A * handler.

Definition mret {A} (a : A) : M A := fun h => (Ok a, h).

Definition mbind {A B} (m : M A) (k : A -> M B) : M B :=
  fun h =>
    match m h with
    | (Ok a, h') => k a h'
    | (Raise e, h') => (Raise e, h')
    end.

Definition lift {A} (r : result A) : M A := fun h => (r, h).

Declare Scope handler_scope.
Delimit Scope handler_scope with M.
Notation "'do' x <- m ; k" := (mbind m (fun x => k))
  (at level 10, x name, m at level 100, k at level 200) : handler_scope.
Notation "m ;; k" := (mbind m (fun _ => k))
  (at level 100, k at level 200, right associativity) : handler_scope.
Open Scope handler_scope.

(** [for x in l: body(x)]. *)
Fixpoint for_each {A} (l : list A) (body : A -> M unit) : M unit :=
  match l with
  | [] => mret tt
  | x :: l' => body x ;; for_each l' body
  end.

(** [if c: body]. *)
Definition when (c : bool) (body : M unit) : M unit :=
  if c then body else mret tt.

Definition is_not_None {A} (o : option A) : bool :=
  match o with Some _ => true | None => false end.

Module SimplerXMLGenerator.

(** [SimplerXMLGenerator(outfile, encoding)] on a text file. *)
Definition new (outfile : str) (encoding : str) : handler :=
  mk_handler outfile encoding [].

Definition _write (text : str) : M unit :=
  fun h => (Ok tt, mk_handler (out h ++ text) (encoding h) (calls h)).

Definition called (c : sax_call) : M unit :=
  fun h => (Ok tt, mk_handler (out h) (encoding h) (calls h ++ [c])).

Definition startDocument : M unit :=
  called StartDocument ;;
  fun h =>
    _write (lit "<?xml version=" ++ dq ++ lit "1.0" ++ dq ++ lit " encoding="
            ++ dq ++ encoding h ++ dq ++ lit "?>" ++ [10]) h.

(** One attribute of a start tag.  [quoteattr(None)] raises
    [AttributeError] ([None] has no [replace]) before anything of the
    attribute is written. *)
Definition write_attr (a : str * option str) : M unit :=
  let '(name, value) := a in
  match value with
  | None => lift (Raise AttributeError)
  | Some value => _write (lit " " ++ name ++ lit "=" ++ quoteattr value)
  end.

Definition startElement (name : str) (attrs : list (str * option str))
  : M unit :=
  called (StartElement name attrs) ;;
  _write (lit "<" ++ name) ;;
  for_each attrs write_attr ;;
  _write (lit ">").

Definition characters (content : str) : M unit :=
  called (Characters content) ;;
  when (truthy content) (_write (escape content)).

Definition endElement (name : str) : M unit :=
  called (EndElement name) ;;
  _write (lit "</" ++ name ++ lit ">").

(** Convenience method for adding an element with no children. *)
Definition addQuickElement (name : str) (contents : option str)
  (attrs : list (str * option str)) : M unit :=
  startElement name attrs ;;
  match contents with
  | Some contents => characters contents
  | None => mret tt
  end ;;
  endElement name.

End SimplerXMLGenerator.
Import SimplerXMLGenerator.

(* ================================================================== *)
(** ** Feed model *)

Module Enclosure.

(** Represents an RSS enclosure. *)
Record t : Type := mk {
  url : str;
  length : str;
  mime_type : str
}.

(** [Enclosure(url, length, mime_type)]; all arguments are strings. *)
Definition init (url length mime_type : str) : result t :=
  try url <- quote_iri url;
  Ok (mk url length mime_type).

End Enclosure.

(** The dictionary [self.feed].  The values are [None] or a [str]; [link]
    is a required string. *)
Record feed_dict : Type := mk_feed_dict {
  f_title : option str;
  f_link : str;
  f_description : option str;
  f_language : option str;
  f_author_email : option str;
  f_author_name : option str;
  f_author_link : option str;
  f_subtitle : option str;
  f_categories : list (option str);
  f_feed_url : option str;
  f_feed_copyright : option str;
  f_id : option str;
  f_ttl : option str;
  f_extra : list (string * option str)
}.

(** An element of [self.items]. *)
Record item : Type := mk_item {
  i_title : option str;
  i_link : str;
  i_description : option str;
  i_author_email : option str;
  i_author_name : option str;
  i_author_link : option str;
  i_pubdate : option datetime;
  i_comments : option str;
  i_unique_id : option str;
  i_enclosure : option Enclosure.t;
  i_categories : list (option str);
  i_item_copyright : option str;
  i_ttl : option str;
  i_extra : list (string * option str)
}.

Fixpoint map_result {A B} (f : A -> result B) (l : list A) : result (list B) :=
  match l with
  | [] => Ok []
  | x :: l' => try y <- f x; try ys <- map_result f l'; Ok (y :: ys)
  end.

(** [d.get(key)] on keyword arguments. *)
Fixpoint kw_get {A} (key : string) (kwargs : list (string * A)) : option A :=
  match kwargs with
  | [] => None
  | (k, v) :: rest => if String.eqb k key then Some v else kw_get key rest
  end.

(** [ttl = force_unicode(ttl)] under [if ttl is not None]. *)
Definition force_ttl (ttl : option str) : result (option str) :=
  match ttl with
  | Some _ => force_unicode ttl false
  | None => Ok None
  end.

Module SyndicationFeed.

(** Base class for all syndication feeds. *)
Record t : Type := mk {
  feed : feed_dict;
  items : list item
}.

(** [SyndicationFeed.__init__].  The keys of [kwargs] are not parameter
    names, so that [self.feed.update(kwargs)] can replace the value of
    ['id'] only; the other keys are added. *)
Definition init (title : option str) (link : str) (description : option str)
  (language author_email author_name author_link subtitle : option str)
  (categories : option (list (option str)))
  (feed_url feed_copyright feed_guid ttl : option str)
  (kwargs : list (string * option str)) : result t :=
  try categories <-
    match categories with
    | Some ((_ :: _) as cs) =>
        try cs' <- map_result (fun c => force_unicode c false) cs; Ok (Some cs')
    | other => Ok other
    end;
  try ttl <- force_ttl ttl;
  try title' <- to_unicode title;
  try link' <- quote_iri link;
  try description' <- to_unicode description;
  try language' <- to_unicode language;
  try author_email' <- to_unicode author_email;
  try author_name' <- to_unicode author_name;
  try author_link' <- iri_to_uri author_link;
  try subtitle' <- to_unicode subtitle;
  try feed_url' <- iri_to_uri feed_url;
  try feed_copyright' <- to_unicode feed_copyright;
  let id := if truthy_opt feed_guid then feed_guid else Some link in
  Ok (mk (mk_feed_dict title' link' description' language' author_email'
            author_name' author_link' subtitle'
            (match categories with Some ((_ :: _) as cs) => cs | _ => [] end)
            feed_url' feed_copyright'
            (match kw_get "id" kwargs with Some v => v | None => id end)
            ttl kwargs)
         []).

(** Adds an item to the feed. *)
Definition add_item (self : t) (title : option str) (link : str)
  (description : option str)
  (author_email author_name author_link : option str)
  (pubdate : option datetime) (comments unique_id : option str)
  (enclosure : option Enclosure.t) (categories : list (option str))
  (item_copyright ttl : option str)
  (kwargs : list (string * option str)) : result t :=
  try categories <- map_result to_unicode categories;
  try ttl <- force_ttl ttl;
  try title' <- to_unicode title;
  try link' <- quote_iri link;
  try description' <- to_unicode description;
  try author_email' <- to_unicode author_email;
  try author_name' <- to_unicode author_name;
  try author_link' <- iri_to_uri author_link;
  try comments' <- to_unicode comments;
  try unique_id' <- to_unicode unique_id;
  try item_copyright' <- to_unicode item_copyright;
  let item :=
    mk_item title' link' description' author_email' author_name'
      author_link' pubdate comments' unique_id' enclosure categories
      item_copyright' ttl kwargs in
  Ok (mk (feed self) (items self ++ [item])).

Definition num_items (self : t) : Z := Z.of_nat (List.length (items self)).

Definition root_attributes (self : t) : list (str * option str) := [].

Definition item_attributes (self : t) (item : item)
  : list (str * option str) := [].

(** [write] of the base class. *)
Definition write (self : t) (outfile encoding : str) : result unit :=
  Raise NotImplementedError.

(** Returns the latest item's pubdate.  If none of them have a pubdate,
    this returns the current date/time, [now]. *)
Definition latest_post_date (now : datetime) (self : t) : result datetime :=
  let updates :=
    flat_map (fun i => match i_pubdate i with Some d => [d] | None => [] end)
             (items self) in
  if (0 <? Z.of_nat (List.length updates)) then
    try updates <- list_sort updates;
    Ok (last updates now)
  else Ok now.

End SyndicationFeed.

(** [s.decode('utf-8')] on a [str]: a Python 3 [str] has no [decode]
    method, the attribute lookup raises [AttributeError]. *)
Definition str_decode (s : str) (encoding : str) : result str :=
  Raise AttributeError.

(* ================================================================== *)
(** ** RSS variants *)

Module RssUserland091Feed.

Definition _version : str := lit "0.91".

Definition add_item_elements (item : item) : M unit :=
  addQuickElement (lit "title") (i_title item) [] ;;
  addQuickElement (lit "link") (Some (i_link item)) [] ;;
  when (is_not_None (i_description item))
    (addQuickElement (lit "description") (i_description item) []).

End RssUserland091Feed.

Module Rss201rev2Feed.

Definition _version : str := lit "2.0".

Definition add_item_elements (item : item) : M unit :=
  addQuickElement (lit "title") (i_title item) [] ;;
  addQuickElement (lit "link") (Some (i_link item)) [] ;;
  when (is_not_None (i_description item))
    (addQuickElement (lit "description") (i_description item) []) ;;

  (* Author information. *)
  (if truthy_opt (i_author_name item) && truthy_opt (i_author_email item) then
     addQuickElement (lit "author")
       (Some (pct_s (i_author_email item) ++ lit " (" ++ pct_s (i_author_name item)
              ++ lit ")")) []
   else if truthy_opt (i_author_email item) then
     addQuickElement (lit "author") (i_author_email item) []
   else if truthy_opt (i_author_name item) then
     addQuickElement (lit "dc:creator") (i_author_name item)
       [(lit "xmlns:dc", Some (lit "http://purl.org/dc/elements/1.1/"))]
   else mret tt) ;;

  match i_pubdate item with
  | Some pubdate =>
      do text <- lift (str_decode (rfc2822_date pubdate) (lit "utf-8"));
      addQuickElement (lit "pubDate") (Some text) []
  | None => mret tt
  end ;;
  when (is_not_None (i_comments item))
    (addQuickElement (lit "comments") (i_comments item) []) ;;
  when (is_not_None (i_unique_id item))
    (addQuickElement (lit "guid") (i_unique_id item) []) ;;
  when (is_not_None (i_ttl item))
    (addQuickElement (lit "ttl") (i_ttl item) []) ;;

  (* Enclosure. *)
  match i_enclosure item with
  | Some enclosure =>
      addQuickElement (lit "enclosure") (Some [])
        [(lit "url", Some (Enclosure.url enclosure));
         (lit "length", Some (Enclosure.length enclosure));
         (lit "type", Some (Enclosure.mime_type enclosure))]
  | None => mret tt
  end ;;

  (* Categories. *)
  for_each (i_categories item) (fun cat =>
    addQuickElement (lit "category") cat []).

End Rss201rev2Feed.

(** The concrete subclasses of [RssFeed]. *)
Inductive rss_class : Type :=
| RssUserland091
| Rss201rev2.

Module RssFeed.

Definition mime_type : str := lit "application/rss+xml".

Definition _version (cls : rss_class) : str :=
  match cls with
  | RssUserland091 => RssUserland091Feed._version
  | Rss201rev2 => Rss201rev2Feed._version
  end.

Definition add_item_elements (cls : rss_class) (item : item) : M unit :=
  match cls with
  | RssUserland091 => RssUserland091Feed.add_item_elements item
  | Rss201rev2 => Rss201rev2Feed.add_item_elements item
  end.

Definition rss_attributes (cls : rss_class) : list (str * option str) :=
  [(lit "version", Some (_version cls));
   (lit "xmlns:atom", Some (lit "http://www.w3.org/2005/Atom"))].

Definition write_items (cls : rss_class) (self : SyndicationFeed.t) : M unit :=
  for_each (SyndicationFeed.items self) (fun item =>
    startElement (lit "item") (SyndicationFeed.item_attributes self item) ;;
    add_item_elements cls item ;;
    endElement (lit "item")).

Definition add_root_elements (now : datetime) (self : SyndicationFeed.t)
  : M unit :=
  let feed := SyndicationFeed.feed self in
  addQuickElement (lit "title") (f_title feed) [] ;;
  addQuickElement (lit "link") (Some (f_link feed)) [] ;;
  addQuickElement (lit "description") (f_description feed) [] ;;
  addQuickElement (lit "atom:link") None
    [(lit "rel", Some (lit "self")); (lit "href", f_feed_url feed)] ;;
  when (is_not_None (f_language feed))
    (addQuickElement (lit "language") (f_language feed) []) ;;
  for_each (f_categories feed) (fun cat =>
    addQuickElement (lit "category") cat []) ;;
  when (is_not_None (f_feed_copyright feed))
    (addQuickElement (lit "copyright") (f_feed_copyright feed) []) ;;
  do text <- lift (try latest <- SyndicationFeed.latest_post_date now self;
                   str_decode (rfc2822_date latest) (lit "utf-8"));
  addQuickElement (lit "lastBuildDate") (Some text) [] ;;
  when (is_not_None (f_ttl feed))
    (addQuickElement (lit "ttl") (f_ttl feed) []).

Definition endChannelElement : M unit := endElement (lit "channel").

(** [write(outfile, encoding)]: the result of the call and the handler
    it wrote to; [out] of the handler is the content of [outfile]. *)
Definition write (cls : rss_class) (now : datetime) (self : SyndicationFeed.t)
  (outfile encoding : str) : result unit * handler :=
  (startDocument ;;
   startElement (lit "rss") (rss_attributes cls) ;;
   startElement (lit "channel") (SyndicationFeed.root_attributes self) ;;
   add_root_elements now self ;;
   write_items cls self ;;
   endChannelElement ;;
   endElement (lit "rss"))
  (SimplerXMLGenerator.new outfile encoding).

End RssFeed.

(* ================================================================== *)
(** ** Atom variant *)

Module Atom1Feed.

Definition mime_type : str := lit "application/atom+xml".
Definition ns : str := lit "http://www.w3.org/2005/Atom".

Definition root_attributes (self : SyndicationFeed.t)
  : list (str * option str) :=
  let feed := SyndicationFeed.feed self in
  if is_not_None (f_language feed) then
    [(lit "xmlns", Some ns); (lit "xml:lang", f_language feed)]
  else [(lit "xmlns", Some ns)].

Definition add_root_elements (now : datetime) (self : SyndicationFeed.t)
  : M unit :=
  let feed := SyndicationFeed.feed self in
  addQuickElement (lit "title") (f_title feed) [] ;;
  addQuickElement (lit "link") (Some [])
    [(lit "rel", Some (lit "alternate")); (lit "href", Some (f_link feed))] ;;
  when (is_not_None (f_feed_url feed))
    (addQuickElement (lit "link") (Some [])
       [(lit "rel", Some (lit "self")); (lit "href", f_feed_url feed)]) ;;
  addQuickElement (lit "id") (f_id feed) [] ;;
  do latest <- lift (SyndicationFeed.latest_post_date now self);
  addQuickElement (lit "updated") (Some (rfc3339_date latest)) [] ;;
  when (is_not_None (f_author_name feed))
    (startElement (lit "author") [] ;;
     addQuickElement (lit "name") (f_author_name feed) [] ;;
     when (is_not_None (f_author_email feed))
       (addQuickElement (lit "email") (f_author_email feed) []) ;;
     when (is_not_None (f_author_link feed))
       (addQuickElement (lit "uri") (f_author_link feed) []) ;;
     endElement (lit "author")) ;;
  when (is_not_None (f_subtitle feed))
    (addQuickElement (lit "subtitle") (f_subtitle feed) []) ;;
  for_each (f_categories feed) (fun cat =>
    addQuickElement (lit "category") (Some []) [(lit "term", cat)]) ;;
  when (is_not_None (f_feed_copyright feed))
    (addQuickElement (lit "rights") (f_feed_copyright feed) []).

Definition add_item_elements (item : item) : M unit :=
  addQuickElement (lit "title") (i_title item) [] ;;
  addQuickElement (lit "link") (Some [])
    [(lit "href", Some (i_link item)); (lit "rel", Some (lit "alternate"))] ;;
  match i_pubdate item with
  | Some pubdate =>
      addQuickElement (lit "updated") (Some (rfc3339_date pubdate)) []
  | None => mret tt
  end ;;

  (* Author information. *)
  when (is_not_None (i_author_name item))
    (startElement (lit "author") [] ;;
     addQuickElement (lit "name") (i_author_name item) [] ;;
     when (is_not_None (i_author_email item))
       (addQuickElement (lit "email") (i_author_email item) []) ;;
     when (is_not_None (i_author_link item))
       (addQuickElement (lit "uri") (i_author_link item) []) ;;
     endElement (lit "author")) ;;

  (* Unique ID. *)
  do unique_id <-
    match i_unique_id item with
    | Some unique_id => mret unique_id
    | None => lift (get_tag_uri (i_link item) (i_pubdate item))
    end;
  addQuickElement (lit "id") (Some unique_id) [] ;;

  (* Summary. *)
  when (is_not_None (i_description item))
    (addQuickElement (lit "summary") (i_description item)
       [(lit "type", Some (lit "html"))]) ;;

  (* Enclosure. *)
  match i_enclosure item with
  | Some enclosure =>
      addQuickElement (lit "link") (Some [])
        [(lit "rel", Some (lit "enclosure"));
         (lit "href", Some (Enclosure.url enclosure));
         (lit "length", Some (Enclosure.length enclosure));
         (lit "type", Some (Enclosure.mime_type enclosure))]
  | None => mret tt
  end ;;

  (* Categories. *)
  for_each (i_categories item) (fun cat =>
    addQuickElement (lit "category") (Some []) [(lit "term", cat)]) ;;

  (* Rights. *)
  when (is_not_None (i_item_copyright item))
    (addQuickElement (lit "rights") (i_item_copyright item) []).

Definition write_items (self : SyndicationFeed.t) : M unit :=
  for_each (SyndicationFeed.items self) (fun item =>
    startElement (lit "entry") (SyndicationFeed.item_attributes self item) ;;
    add_item_elements item ;;
    endElement (lit "entry")).

Definition write (now : datetime) (self : SyndicationFeed.t)
  (outfile encoding : str) : result unit * handler :=
  (startDocument ;;
   startElement (lit "feed") (root_attributes self) ;;
   add_root_elements now self ;;
   write_items self ;;
   endElement (lit "feed"))
  (SimplerXMLGenerator.new outfile encoding).

End Atom1Feed.

(** The system default. *)
Definition DefaultFeed : rss_class := Rss201rev2.


(* ================================================================== *)
(** ** Vocabulary of the properties *)

(** The integers [lo], ..., [lo + n - 1]. *)
Definition Z_range (lo : Z) (n : nat) : list Z :=
  map (fun i => lo + Z.of_nat i) (seq 0 n).

(** The characters that [iri_to_uri] leaves as they are. *)
Definition uri_char (c : Z) : bool := always_safe c || mem_chr c iri_safe.

(** A percent-encoded value: nothing is left to escape. *)
Definition percent_encoded (s : str) : bool := forallb uri_char s.

(** A [str] that UTF-8 can encode: code points, none of them a surrogate. *)
Definition encodable (s : str) : Prop :=
  Forall (fun c => is_code_point c = true /\ is_surrogate c = false) s.

Definition is_byte (b : Z) : Prop := 0 <= b < 256.

(** The whole minutes of a UTC offset: [days * 1440 + seconds // 60]. *)
Definition offset_whole_minutes (offset : timedelta) : Z :=
  td_days offset * 1440 + td_seconds offset / 60.

(** A UTC offset that a zone may return: a normalised [timedelta] strictly
    between minus and plus 24 hours. *)
Definition utcoffset_in_range (offset : timedelta) : Prop :=
  -1 <= td_days offset <= 0 /\ 0 <= td_seconds offset < 86400.

Definition sign_chr (h : Z) : Z := if h <? 0 then 45 (* - *) else 43 (* + *).

Definition two_digits (n : Z) : str := [48 + n / 10; 48 + n mod 10].

(** The list [updates] of [latest_post_date]: the pubdates that are set,
    in the order of the items. *)
Definition pubdates (items : list item) : list datetime :=
  flat_map (fun i => match i_pubdate i with Some d => [d] | None => [] end) items.

(** Timestamps that [<] can compare: both naive or both aware. *)
Definition same_kind (a b : datetime) : Prop :=
  is_not_None (tzinfo a) = is_not_None (tzinfo b).

Definition comparable (l : list datetime) : Prop :=
  forall a b, In a l -> In b l -> same_kind a b.

Definition key_le (a b : datetime) : Prop := utc_key a <= utc_key b.

(** *** Example data *)

(** Noon of 2009-01-01: without a zone, in UTC, and at UTC-8. *)
Definition noon_naive : datetime := mk_datetime 2009 1 1 12 0 0 0 None.
Definition noon_utc : datetime :=
  mk_datetime 2009 1 1 12 0 0 0 (Some (mk_timedelta 0 0 0)).
Definition noon_pst : datetime :=
  mk_datetime 2009 1 1 12 0 0 0 (Some (mk_timedelta (-1) 57600 0)).

Definition empty_feed_dict : feed_dict :=
  mk_feed_dict None [] None None None None None None [] None None None None [].

(** A feed with three items: the second has no pubdate, the first and the
    third have pubdates in two zones. *)
Definition three_items (d1 d3 : datetime) : list item :=
  [mk_item (Some (lit "a")) (lit "http://x/a") None None None None (Some d1)
     None None None [] None None [];
   mk_item (Some (lit "b")) (lit "http://x/b") None None None None None
     None None None [] None None [];
   mk_item (Some (lit "c")) (lit "http://x/c") None None None None (Some d3)
     None None None [] None None []].


(** *** What a computation writes *)

(** The handler after more text and more calls. *)
Definition push (h : handler) (text : str) (cs : list sax_call) : handler :=
  mk_handler (out h ++ text) (encoding h) (calls h ++ cs).

(** [m] returns [a], having written [text] through the calls [cs]. *)
Definition runs {A} (m : M A) (a : A) (text : str) (cs : list sax_call) : Prop :=
  forall h, m h = (Ok a, push h text cs).

(** The names of the elements opened by a sequence of calls. *)
Definition start_names (cs : list sax_call) : list str :=
  flat_map (fun c => match c with StartElement n _ => [n] | _ => [] end) cs.

(** Whatever [m] returns or raises, it only adds to the output and to the
    calls, and opens only elements whose name satisfies [ok]. *)
Definition appends {A} (ok : str -> bool) (m : M A) : Prop :=
  forall h, exists text cs,
    snd (m h) = push h text cs /\ forallb ok (start_names cs) = true.

(** The text of a leaf element whose attributes are all strings. *)
Definition attr_text (a : str * str) : str :=
  lit " " ++ fst a ++ lit "=" ++ quoteattr (snd a).

Definition some_attrs (attrs : list (str * str)) : list (str * option str) :=
  map (fun a => (fst a, Some (snd a))) attrs.

Definition contents_text (contents : option str) : str :=
  match contents with Some c => escape c | None => [] end.

Definition quick_text (name : str) (contents : option str)
  (attrs : list (str * str)) : str :=
  lit "<" ++ name ++ flat_map attr_text attrs ++ lit ">"
  ++ contents_text contents ++ lit "</" ++ name ++ lit ">".

Definition quick_calls (name : str) (contents : option str)
  (attrs : list (str * option str)) : list sax_call :=
  StartElement name attrs
  :: match contents with Some c => [Characters c] | None => [] end
  ++ [EndElement name].

(** [m] returns [a] and opens no element called [name]. *)
Definition silent {A} (name : str) (m : M A) (a : A) : Prop :=
  exists text cs, runs m a text cs /\ ~ In name (start_names cs).

(** Whatever [m] returns or raises, it writes exactly one element called
    [name]: a leaf without attributes whose text is [content]. *)
Definition writes_one {A} (m : M A) (name content : str) : Prop :=
  forall h, exists pre post cpre cpost,
    snd (m h)
    = push h (pre ++ quick_text name (Some content) [] ++ post)
             (cpre ++ quick_calls name (Some content) [] ++ cpost)
    /\ ~ In name (start_names cpre) /\ ~ In name (start_names cpost).

Definition other_than (name : str) (n : str) : bool := negb (str_eqb n name).

(** A stored URI value: [None], or a percent-encoded string. *)
Definition stored_encoded (o : option str) : Prop :=
  match o with
  | Some u => percent_encoded u = true
  | None => True
  end.

(** [m] fails with [e] and has opened no element called [name]. *)
Definition fails_without {A} (name : str) (m : M A) (e : exn) : Prop :=
  forall h, exists text cs,
    m h = (Raise e, push h text cs) /\ ~ In name (start_names cs).

(** Whatever [m] returns or raises, it first writes [text] through the
    calls [cs]. *)
Definition begins {A} (m : M A) (text : str) (cs : list sax_call) : Prop :=
  forall h, exists t c, snd (m h) = push h (text ++ t) (cs ++ c).

Definition any_name (n : str) : bool := true.

(** The XML declaration written by [startDocument]. *)
Definition xml_declaration (encoding : str) : str :=
  lit "<?xml version=" ++ dq ++ lit "1.0" ++ dq ++ lit " encoding=" ++ dq
  ++ encoding ++ dq ++ lit "?>" ++ [10].

(** The start of every RSS document after the declaration: the [rss] and
    [channel] start tags and the [title], [link] and [description] of the
    feed. *)
Definition rss_body_text (cls : rss_class) (feed : feed_dict) : str :=
  lit "<rss version=" ++ dq ++ RssFeed._version cls ++ dq
  ++ lit " xmlns:atom=" ++ dq ++ lit "http://www.w3.org/2005/Atom" ++ dq ++ lit ">"
  ++ lit "<channel>"
  ++ quick_text (lit "title") (f_title feed) []
  ++ quick_text (lit "link") (Some (f_link feed)) []
  ++ quick_text (lit "description") (f_description feed) [].

Definition rss_head_text (cls : rss_class) (feed : feed_dict) (encoding : str)
  : str :=
  xml_declaration encoding ++ rss_body_text cls feed.

Definition rss_head_calls (cls : rss_class) (feed : feed_dict) : list sax_call :=
  [StartDocument;
   StartElement (lit "rss") (RssFeed.rss_attributes cls);
   StartElement (lit "channel") []]
  ++ quick_calls (lit "title") (f_title feed) []
  ++ quick_calls (lit "link") (Some (f_link feed)) []
  ++ quick_calls (lit "description") (f_description feed) [].

(** The call that opens the self-referencing [atom:link] of a feed. *)
Definition atom_link_call (feed : feed_dict) : sax_call :=
  StartElement (lit "atom:link")
    [(lit "rel", Some (lit "self")); (lit "href", f_feed_url feed)].

(** The feed and the item of the RSS 2.0 scenario. *)
Definition scenario_feed (feed_url : option str) : result SyndicationFeed.t :=
  try feed <- SyndicationFeed.init (Some (lit "T")) (lit "http://x/") (Some (lit "D"))
                None None None None None None feed_url None None None [];
  SyndicationFeed.add_item feed (Some (lit "I")) (lit "http://x/i") (Some (lit "ID"))
    None None None None None None None [] None None [].

(** [m] fails with [e], having written [text] through the calls [cs]. *)
Definition fails_with {A} (m : M A) (e : exn) (text : str) (cs : list sax_call)
  : Prop :=
  forall h, m h = (Raise e, push h text cs).

(** An RSS document after the declaration. *)
Definition rss_document (cls : rss_class) (now : datetime)
  (self : SyndicationFeed.t) : M unit :=
  startElement (lit "rss") (RssFeed.rss_attributes cls) ;;
  startElement (lit "channel") (SyndicationFeed.root_attributes self) ;;
  RssFeed.add_root_elements now self ;;
  RssFeed.write_items cls self ;;
  RssFeed.endChannelElement ;;
  endElement (lit "rss").


(** [m] never returns. *)
Definition never_returns {A} (m : M A) : Prop :=
  forall h, exists e, fst (m h) = Raise e.

(** The text of the output file when [write] raises in the scenario. *)
Definition scenario_output : str :=
  xml_declaration (lit "utf-8")
  ++ lit "<rss version=" ++ dq ++ lit "2.0" ++ dq ++ lit " xmlns:atom=" ++ dq
  ++ lit "http://www.w3.org/2005/Atom" ++ dq ++ lit ">"
  ++ lit "<channel><title>T</title><link>http://x/</link>"
  ++ lit "<description>D</description><atom:link rel=" ++ dq ++ lit "self" ++ dq.

(** The feed of the scenario, as [__init__] and [add_item] store it. *)
Definition scenario_stored : SyndicationFeed.t :=
  SyndicationFeed.mk
    (mk_feed_dict (Some (lit "T")) (lit "http://x/") (Some (lit "D"))
       None None None None None [] None None (Some (lit "http://x/")) None [])
    [mk_item (Some (lit "I")) (lit "http://x/i") (Some (lit "ID"))
       None None None None None None None [] None None []].

(** An item with a unique id and one without, both with a category that is
    [None]. *)
Definition item_with_id : item :=
  mk_item (Some (lit "I")) (lit "http://x/i") (Some (lit "ID"))
    None (Some (lit "A")) None (Some noon_utc) None (Some (lit "urn:i<1>"))
    None [Some (lit "c1"); None] None None [].

Definition item_without_id : item :=
  mk_item (Some (lit "I")) (lit "http://x/i") (Some (lit "ID"))
    None (Some (lit "A")) None (Some noon_utc) None None
    None [Some (lit "c1"); None] None None [].

(* ================================================================== *)
(** ** Vocabulary of the further properties *)

(** A code point that UTF-8 cannot encode under the strict handler. *)
Definition unencodable_cp (c : Z) : bool :=
  negb (is_code_point c) || is_surrogate c.

(** A timestamp of the calendar with a four-digit year. *)
Definition calendar_date (d : datetime) : Prop :=
  1000 <= year d <= 9999 /\ 1 <= month d <= 12 /\ 1 <= day d <= 31
  /\ 0 <= hour d <= 23 /\ 0 <= minute d <= 59 /\ 0 <= second d <= 59.


(** A list of pubdates with a naive and an aware timestamp. *)
Definition mixed (l : list datetime) : Prop :=
  exists a b, In a l /\ In b l /\ tzinfo a = None /\ tzinfo b <> None.

(** Whether a timestamp is aware (has a zone). *)
Definition awareb (d : datetime) : bool := is_not_None (tzinfo d).

Definition mixedb (l : list datetime) : bool :=
  existsb (fun d => negb (awareb d)) l && existsb awareb l.

(** [s] without the prefix [p], when [s] starts with [p]. *)
Fixpoint strip_prefix (p s : str) : option str :=
  match p, s with
  | [], _ => Some s
  | x :: p', y :: s' => if x =? y then strip_prefix p' s' else None
  | _ :: _, [] => None
  end.

(** Reads escaped text back: the entities [&amp;], [&lt;] and [&gt;] stand
    for [&], [<] and [>]. *)
Fixpoint unescape_fuel (fuel : nat) (s : str) : str :=
  match fuel, s with
  | S f, c :: s' =>
      match strip_prefix (lit "&amp;") s with
      | Some r => 38 :: unescape_fuel f r
      | None =>
          match strip_prefix (lit "&lt;") s with
          | Some r => 60 :: unescape_fuel f r
          | None =>
              match strip_prefix (lit "&gt;") s with
              | Some r => 62 :: unescape_fuel f r
              | None => c :: unescape_fuel f s'
              end
          end
      end
  | _, _ => []
  end.

Definition unescape (s : str) : str := unescape_fuel (List.length s) s.

(** What [m] returns or raises, writes and calls depends on the encoding
    of the handler only, not on what was written before. *)
Definition uniform {A} (m : M A) : Prop :=
  forall enc, exists r text cs,
    forall h, encoding h = enc -> m h = (r, push h text cs).

(** [writeString(encoding)]: [write] on a new [StringIO], whose value is
    returned.  [write] is the method of the class of the feed. *)
Definition writeString (write : str -> str -> result unit * handler)
  (encoding : str) : result str :=
  let '(r, s) := write [] encoding in
  try _ <- r; Ok (out s).

(** A leaf element: its name, its text and its attributes. *)
Definition leaf : Type := (str * option str * list (str * str))%type.

Definition leaf_text (l : leaf) : str :=
  let '(name, contents, attrs) := l in quick_text name contents attrs.

Definition leaf_calls (l : leaf) : list sax_call :=
  let '(name, contents, attrs) := l in
  quick_calls name contents (some_attrs attrs).

(** The leaf of an optional value: none when the value is [None]. *)
Definition opt_leaf (name : str) (contents : option str) : list leaf :=
  match contents with
  | Some _ => [(name, contents, [])]
  | None => []
  end.

(** The author of an RSS 2.0 item: [email (name)] in [author] when both
    are set, the email alone in [author], the name alone in [dc:creator],
    nothing when both are empty or [None]. *)
Definition rss2_author_leaves (item : item) : list leaf :=
  match truthy_opt (i_author_email item), truthy_opt (i_author_name item) with
  | true, true =>
      [(lit "author",
        Some (pct_s (i_author_email item) ++ lit " ("
              ++ pct_s (i_author_name item) ++ lit ")"), [])]
  | true, false => [(lit "author", i_author_email item, [])]
  | false, true =>
      [(lit "dc:creator", i_author_name item,
        [(lit "xmlns:dc", lit "http://purl.org/dc/elements/1.1/")])]
  | false, false => []
  end.

Definition enclosure_leaves (name : str) (first : list (str * str))
  (href : str) (enclosure : option Enclosure.t) : list leaf :=
  match enclosure with
  | Some e =>
      [(name, Some [],
        first ++ [(href, Enclosure.url e); (lit "length", Enclosure.length e);
                  (lit "type", Enclosure.mime_type e)])]
  | None => []
  end.

(** The leaves of an RSS 2.0 item that has no pubdate, in order. *)
Definition rss2_item_leaves (item : item) : list leaf :=
  [(lit "title", i_title item, []); (lit "link", Some (i_link item), [])]
  ++ opt_leaf (lit "description") (i_description item)
  ++ rss2_author_leaves item
  ++ opt_leaf (lit "comments") (i_comments item)
  ++ opt_leaf (lit "guid") (i_unique_id item)
  ++ opt_leaf (lit "ttl") (i_ttl item)
  ++ enclosure_leaves (lit "enclosure") [] (lit "url") (i_enclosure item)
  ++ map (fun cat => (lit "category", cat, [])) (i_categories item).

(** The leaves that the RSS 0.91 class writes for an item. *)
Definition rss091_item_leaves (item : item) : list leaf :=
  [(lit "title", i_title item, []); (lit "link", Some (i_link item), [])]
  ++ opt_leaf (lit "description") (i_description item).

(** [m] returns, having written the leaves [ls] one after the other. *)
Definition writes_leaves (m : M unit) (ls : list leaf) : Prop :=
  runs m tt (flat_map leaf_text ls) (flat_map leaf_calls ls).

(** An item with author, identifier, enclosure and two categories, one of
    them [None], and without pubdate. *)
Definition item_with_enclosure : item :=
  mk_item (Some (lit "I")) (lit "http://x/i") None
    (Some (lit "e@x")) (Some (lit "N")) None None None (Some (lit "g<1>"))
    (Some (Enclosure.mk (lit "http://x/a.mp3") (lit "123") (lit "audio/mpeg")))
    [Some (lit "c"); None] None None [].

(** The open elements after the calls [cs], starting from the open
    elements [stack] (innermost first); [None] when an element is closed
    that is not the innermost open one. *)
Fixpoint nesting (stack : list str) (cs : list sax_call) : option (list str) :=
  match cs with
  | [] => Some stack
  | StartElement n _ :: cs' => nesting (n :: stack) cs'
  | EndElement n :: cs' =>
      match stack with
      | top :: rest => if str_eqb top n then nesting rest cs' else None
      | [] => None
      end
  | _ :: cs' => nesting stack cs'
  end.

(** The calls of a complete document: every element is closed, innermost
    first. *)
Definition well_nested (cs : list sax_call) : Prop := nesting [] cs = Some [].

(** Calls that close what they open and nothing else. *)
Definition balanced (cs : list sax_call) : Prop :=
  forall stack, nesting stack cs = Some stack.

(** [m] returns, and its calls are balanced. *)
Definition renders (m : M unit) : Prop :=
  exists text cs, runs m tt text cs /\ balanced cs.

(** The value of [unique_id] in [Atom1Feed.add_item_elements]. *)
Definition atom_entry_uid (item : item) : result str :=
  match i_unique_id item with
  | Some unique_id => Ok unique_id
  | None => get_tag_uri (i_link item) (i_pubdate item)
  end.

(** An item that the Atom class can write. *)
Definition atom_item_ok (item : item) : Prop :=
  (exists uid, atom_entry_uid item = Ok uid) /\ ~ In None (i_categories item).

(** A feed that the Atom class can write. *)
Definition atom_feed_ok (self : SyndicationFeed.t) : Prop :=
  ~ mixed (pubdates (SyndicationFeed.items self))
  /\ ~ In None (f_categories (SyndicationFeed.feed self))
  /\ Forall atom_item_ok (SyndicationFeed.items self).

(** The start tag of the root of an Atom document. *)
Definition atom_root_tag (feed : feed_dict) : str :=
  lit "<feed xmlns=" ++ dq ++ Atom1Feed.ns ++ dq
  ++ match f_language feed with
     | Some language => lit " xml:lang=" ++ quoteattr language
     | None => []
     end
  ++ lit ">".

(** [m] raises [e], whatever was written before. *)
Definition raises (m : M unit) (e : exn) : Prop :=
  exists text cs, fails_with m e text cs.

(** An item with two categories and an enclosure, and the same item with a
    category that is [None]. *)
Definition item_two_categories : item :=
  mk_item (Some (lit "I")) (lit "http://x/i") (Some (lit "ID"))
    (Some (lit "e@x")) (Some (lit "N")) None (Some noon_utc) None None
    (Some (Enclosure.mk (lit "http://x/a.mp3") (lit "123") (lit "audio/mpeg")))
    [Some (lit "c"); Some (lit "d")] None None [].

Definition item_none_category : item :=
  mk_item (Some (lit "I")) (lit "http://x/i") (Some (lit "ID"))
    (Some (lit "e@x")) (Some (lit "N")) None (Some noon_utc) None None
    (Some (Enclosure.mk (lit "http://x/a.mp3") (lit "123") (lit "audio/mpeg")))
    [Some (lit "c"); None] None None [].

(** The first elements of an Atom document: the [title], the alternate
    [link], the self [link] when the feed has a [feed_url], and the [id]. *)
Definition atom_head_leaves (feed : feed_dict) : list leaf :=
  [(lit "title", f_title feed, []);
   (lit "link", Some [], [(lit "rel", lit "alternate"); (lit "href", f_link feed)])]
  ++ match f_feed_url feed with
     | Some u =>
         [(lit "link", Some [], [(lit "rel", lit "self"); (lit "href", u)])]
     | None => []
     end
  ++ [(lit "id", f_id feed, [])].

(** An Atom document after the declaration. *)
Definition atom_document (now : datetime) (self : SyndicationFeed.t) : M unit :=
  startElement (lit "feed") (Atom1Feed.root_attributes self) ;;
  Atom1Feed.add_root_elements now self ;;
  Atom1Feed.write_items self ;;
  endElement (lit "feed").

(* ================================================================== *)
(** * Properties *)

(** ** Generic facts *)

Lemma rbind_ok {A B} (r : result A) (k : A -> result B) (a : A) :
  r = Ok a -> rbind r k = k a.
Proof. intros ->; reflexivity. Qed.

Lemma Z_range_In (lo : Z) (n : nat) (z : Z) :
  lo <= z < lo + Z.of_nat n -> In z (Z_range lo n).
Proof.
  intros Hz. unfold Z_range. apply in_map_iff.
  exists (Z.to_nat (z - lo)). split; [lia |].
  apply in_seq. lia.
Qed.

(** A property checked on every integer of a range holds on the range. *)
Lemma Z_range_forallb (P : Z -> bool) (lo : Z) (n : nat) :
  forallb P (Z_range lo n) = true ->
  forall z, lo <= z < lo + Z.of_nat n -> P z = true.
Proof.
  intros Hall z Hz. rewrite forallb_forall in Hall.
  apply Hall, Z_range_In, Hz.
Qed.

(** ** Text/URI normalizer *)

Lemma lor_byte (a b : Z) : is_byte a -> is_byte b -> is_byte (Z.lor a b).
Proof.
  unfold is_byte. intros Ha Hb.
  assert (H0 : 0 <= Z.lor a b) by (apply Z.lor_nonneg; lia).
  split; [exact H0 |].
  destruct (Z.eq_dec (Z.lor a b) 0) as [-> | Hnz]; [lia |].
  change 256 with (2 ^ 8). apply Z.log2_lt_pow2; [lia |].
  rewrite Z.log2_lor by lia.
  assert (La : Z.log2 a < 8).
  { destruct (Z.eq_dec a 0) as [-> | ?]; [cbn; lia |].
    apply Z.log2_lt_pow2; [lia | change (2 ^ 8) with 256; lia]. }
  assert (Lb : Z.log2 b < 8).
  { destruct (Z.eq_dec b 0) as [-> | ?]; [cbn; lia |].
    apply Z.log2_lt_pow2; [lia | change (2 ^ 8) with 256; lia]. }
  lia.
Qed.

Lemma land63_byte (a : Z) : 0 <= a -> is_byte (Z.lor 128 (Z.land a 63)).
Proof.
  intros Ha. apply lor_byte; [unfold is_byte; lia |].
  change 63 with (Z.ones 6). rewrite Z.land_ones by lia.
  unfold is_byte. pose proof (Z.mod_pos_bound a (2 ^ 6) eq_refl). 
  change (2 ^ 6) with 64 in *. lia.
Qed.

Lemma shiftr_bound (c n k : Z) :
  0 <= n -> 0 <= c < k * 2 ^ n -> 0 <= Z.shiftr c n < k.
Proof.
  intros Hn Hc. rewrite Z.shiftr_div_pow2 by lia.
  assert (0 < 2 ^ n) by (apply Z.pow_pos_nonneg; lia).
  split; [apply Z.div_pos; lia |].
  apply Z.div_lt_upper_bound; lia.
Qed.

Lemma first_byte (m c n k : Z) :
  is_byte m -> 0 <= n -> 0 <= k <= 256 -> 0 <= c < k * 2 ^ n ->
  is_byte (Z.lor m (Z.shiftr c n)).
Proof.
  intros Hm Hn Hk Hc. apply lor_byte; [exact Hm |].
  pose proof (shiftr_bound c n k Hn Hc). unfold is_byte; lia.
Qed.

Lemma utf8_encode_cp_bytes (c : Z) :
  is_code_point c = true -> is_surrogate c = false ->
  exists bs, utf8_encode_cp c = Ok bs /\ Forall is_byte bs.
Proof.
  intros Hcp Hs. unfold utf8_encode_cp. rewrite Hcp, Hs. cbn [negb].
  unfold is_code_point in Hcp. apply andb_prop in Hcp as [H0 H1].
  apply Z.leb_le in H0, H1.
  assert (Hsh : forall n, 0 <= Z.shiftr c n)
    by (intros n; apply Z.shiftr_nonneg; lia).
  destruct (c <? 128) eqn:E1; [apply Z.ltb_lt in E1 | apply Z.ltb_ge in E1].
  { eexists; split; [reflexivity |].
    apply Forall_cons; [unfold is_byte; lia | apply Forall_nil]. }
  destruct (c <? 2048) eqn:E2; [apply Z.ltb_lt in E2 | apply Z.ltb_ge in E2].
  { eexists; split; [reflexivity |].
    repeat apply Forall_cons; try apply Forall_nil;
      try (apply land63_byte; auto; lia).
    apply (first_byte 192 c 6 32); [unfold is_byte; lia | lia | lia | lia]. }
  destruct (c <? 65536) eqn:E3; [apply Z.ltb_lt in E3 | apply Z.ltb_ge in E3].
  { eexists; split; [reflexivity |].
    repeat apply Forall_cons; try apply Forall_nil;
      try (apply land63_byte; auto; lia).
    apply (first_byte 224 c 12 16); [unfold is_byte; lia | lia | lia | lia]. }
  eexists; split; [reflexivity |].
  repeat apply Forall_cons; try apply Forall_nil;
    try (apply land63_byte; auto; lia).
  apply (first_byte 240 c 18 5); [unfold is_byte; lia | lia | lia | lia].
Qed.

Lemma str_encode_utf8_total (s : str) :
  encodable s -> exists bs, str_encode_utf8 s = Ok bs /\ Forall is_byte bs.
Proof.
  induction 1 as [| c s [Hcp Hs] _ IH]; cbn.
  - exists []. split; [reflexivity | constructor].
  - destruct (utf8_encode_cp_bytes c Hcp Hs) as (b & -> & Hb).
    destruct IH as (bs & -> & Hbs). cbn.
    exists (b ++ bs). split; [reflexivity | apply Forall_app; auto].
Qed.

Lemma str_encode_utf8_app (a b : str) (xa xb : bytes) :
  str_encode_utf8 a = Ok xa -> str_encode_utf8 b = Ok xb ->
  str_encode_utf8 (a ++ b) = Ok (xa ++ xb).
Proof.
  revert xa. induction a as [| c a IH]; cbn; intros xa Ha Hb.
  - inversion Ha; subst. exact Hb.
  - destruct (utf8_encode_cp c) as [bc |]; cbn in *; [| discriminate].
    destruct (str_encode_utf8 a) as [ba |]; cbn in *; [| discriminate].
    inversion Ha; subst. rewrite (IH ba eq_refl Hb). cbn.
    now rewrite app_assoc.
Qed.

Lemma hex_digit_always_safe (n : Z) :
  0 <= n < 16 -> always_safe (hex_digit n) = true.
Proof.
  intros Hn. apply (Z_range_forallb (fun n => always_safe (hex_digit n)) 0 16);
    [vm_compute; reflexivity | lia].
Qed.

Lemma uri_char_ascii (c : Z) : uri_char c = true -> 0 <= c < 128.
Proof.
  unfold uri_char, always_safe, iri_safe, mem_chr. cbn.
  rewrite !orb_true_iff, !andb_true_iff, !Z.leb_le, !Z.eqb_eq. lia.
Qed.

Lemma quoter_uri_chars (b : Z) :
  is_byte b -> Forall (fun c => uri_char c = true) (quoter iri_safe b).
Proof.
  intros Hb. unfold quoter.
  destruct (always_safe b || mem_chr b iri_safe) eqn:E.
  - constructor; [exact E | constructor].
  - unfold pct_hex. unfold is_byte in Hb.
    repeat apply Forall_cons; try apply Forall_nil.
    + reflexivity.
    + unfold uri_char. rewrite hex_digit_always_safe; [reflexivity |].
      split; [apply Z.div_pos; lia | apply Z.div_lt_upper_bound; lia].
    + unfold uri_char. rewrite hex_digit_always_safe; [reflexivity |].
      apply Z.mod_pos_bound; lia.
Qed.

Lemma quote_uri_chars (bs : bytes) :
  Forall is_byte bs -> Forall (fun c => uri_char c = true) (quote bs iri_safe).
Proof.
  induction 1 as [| b bs Hb _ IH]; cbn; [constructor |].
  apply Forall_app; split; [apply quoter_uri_chars, Hb | exact IH].
Qed.

(** A character that is kept is its own UTF-8 encoding and its own quoted
    form. *)
Lemma quote_iri_uri_char (c : Z) :
  uri_char c = true -> quote_iri [c] = Ok [c].
Proof.
  intros Hc. pose proof (uri_char_ascii c Hc) as Hr.
  unfold quote_iri, smart_str. cbn -[iri_safe]. unfold utf8_encode_cp.
  replace (is_code_point c) with true
    by (symmetry; unfold is_code_point; apply andb_true_intro; split;
        apply Z.leb_le; lia).
  replace (c <? 128) with true by (symmetry; apply Z.ltb_lt; lia).
  cbn -[iri_safe]. unfold quoter. unfold uri_char in Hc. rewrite Hc. reflexivity.
Qed.

Lemma quote_iri_app (a b u v : str) :
  quote_iri a = Ok u -> quote_iri b = Ok v -> quote_iri (a ++ b) = Ok (u ++ v).
Proof.
  unfold quote_iri, smart_str. intros Ha Hb.
  destruct (str_encode_utf8 a) as [xa |] eqn:Ea; cbn in Ha; [| discriminate].
  destruct (str_encode_utf8 b) as [xb |] eqn:Eb; cbn in Hb; [| discriminate].
  rewrite (str_encode_utf8_app a b xa xb Ea Eb). cbn.
  inversion Ha; inversion Hb; subst. unfold quote. now rewrite flat_map_app.
Qed.

Lemma quote_iri_total (s : str) :
  encodable s ->
  exists u, quote_iri s = Ok u /\ percent_encoded u = true.
Proof.
  intros Hs. destruct (str_encode_utf8_total s Hs) as (bs & Hbs & Hb).
  exists (quote bs iri_safe). split.
  - unfold quote_iri, smart_str. rewrite Hbs. reflexivity.
  - unfold percent_encoded. apply forallb_forall.
    apply Forall_forall, quote_uri_chars, Hb.
Qed.

(** A percent-encoded value is encoded to itself: encoding it again
    changes nothing. *)
Lemma quote_iri_percent_encoded (s : str) :
  percent_encoded s = true -> quote_iri s = Ok s.
Proof.
  induction s as [| c s IH]; cbn; intros H; [reflexivity |].
  apply andb_prop in H as [Hc Hs].
  change (c :: s) with ([c] ++ s).
  apply (quote_iri_app [c] s [c] s); [apply quote_iri_uri_char, Hc | apply IH, Hs].
Qed.

(** ** Date formatters *)

Lemma str_eqb_eq (a b : str) : str_eqb a b = true -> a = b.
Proof.
  revert b. induction a as [| x a IH]; destruct b as [| y b]; cbn;
    try discriminate; [reflexivity |].
  intros H. apply andb_prop in H as [Hx Hab].
  apply Z.eqb_eq in Hx. subst. f_equal. apply IH, Hab.
Qed.

Lemma str_eqb_refl (a : str) : str_eqb a a = true.
Proof. induction a as [| x a IH]; cbn; [| rewrite Z.eqb_refl]; auto. Qed.

(** The hour of the zone: the rational [divmod] agrees with the integer
    one on the whole minutes of the offset. *)
Lemma offset_hour (off : timedelta) :
  Qtrunc (fst (divmod (offset_minutes off) (inject_Z 60)))
  = offset_whole_minutes off / 60.
Proof.
  destruct off as [d s us]. unfold divmod, offset_minutes, offset_whole_minutes.
  cbn [fst td_days td_seconds].
  unfold Qtrunc, Qceiling, Qfloor, Qopp.
  unfold Qdiv, Qmult, Qplus, Qinv, inject_Z. cbn.
  set (h := (d * 24 * 60 * 60 + s * 1 * 1) * 1 / 3600).
  assert (E : h = (d * 1440 + s / 60) / 60)
    by (subst h; Z.div_mod_to_equations; lia).
  rewrite <- E. rewrite !Z.div_1_r. destruct (h <? 0); lia.
Qed.

(** The minute of the zone: the fraction of a minute is cut off. *)
Lemma offset_minute (off : timedelta) :
  Qtrunc (snd (divmod (offset_minutes off) (inject_Z 60)))
  = offset_whole_minutes off mod 60.
Proof.
  destruct off as [d s us]. unfold divmod, offset_minutes, offset_whole_minutes.
  cbn [snd td_days td_seconds].
  unfold Qtrunc, Qceiling, Qfloor, Qopp, Qminus.
  unfold Qdiv, Qmult, Qplus, Qinv, Qopp, inject_Z. cbn.
  set (X := (d * 24 * 60 * 60 + s * 1 * 1) * 1).
  set (N := X + - (X / 3600 * 60) * 60).
  assert (HN : 0 <= N < 3600) by (subst N; Z.div_mod_to_equations; lia).
  replace (N <? 0) with false by (symmetry; apply Z.ltb_ge; lia).
  subst N X. Z.div_mod_to_equations; lia.
Qed.

Lemma format_d_hour (h : Z) :
  -24 <= h <= 23 -> format_d true 3 h = sign_chr h :: two_digits (Z.abs h).
Proof.
  intros Hh. apply str_eqb_eq.
  apply (Z_range_forallb
           (fun h => str_eqb (format_d true 3 h) (sign_chr h :: two_digits (Z.abs h)))
           (-24) 48); [vm_compute; reflexivity | lia].
Qed.

Lemma format_d_minute (m : Z) :
  0 <= m <= 59 -> format_d false 2 m = two_digits m.
Proof.
  intros Hm. apply str_eqb_eq.
  apply (Z_range_forallb (fun m => str_eqb (format_d false 2 m) (two_digits m)) 0 60);
    [vm_compute; reflexivity | lia].
Qed.

Lemma offset_hour_range (off : timedelta) :
  utcoffset_in_range off -> -24 <= offset_whole_minutes off / 60 <= 23.
Proof.
  unfold utcoffset_in_range, offset_whole_minutes. intros [Hd Hs].
  Z.div_mod_to_equations; lia.
Qed.

(** The zone of an aware timestamp, as both formatters compute it. *)
Lemma zone_digits (off : timedelta) :
  utcoffset_in_range off ->
  let '(hour, minute) := divmod (offset_minutes off) (inject_Z 60) in
  format_d true 3 (Qtrunc hour)
    = sign_chr (offset_whole_minutes off / 60)
      :: two_digits (Z.abs (offset_whole_minutes off / 60))
  /\ format_d false 2 (Qtrunc minute) = two_digits (offset_whole_minutes off mod 60).
Proof.
  intros Hr. pose proof (offset_hour off) as Hh. pose proof (offset_minute off) as Hm.
  destruct (divmod (offset_minutes off) (inject_Z 60)) as [hour minute].
  cbn [fst snd] in Hh, Hm. rewrite Hh, Hm. split.
  - apply format_d_hour, offset_hour_range, Hr.
  - apply format_d_minute.
    pose proof (Z.mod_pos_bound (offset_whole_minutes off) 60 eq_refl). lia.
Qed.

Ltac list_eq :=
  cbn; repeat (rewrite <- ?app_assoc, <- ?app_comm_cons; cbn); reflexivity.

Lemma strftime_rfc2822_naive (date : datetime) :
  strftime (lit "%a, %d %b %Y %H:%M:%S -0000") date
  = strftime (lit "%a, %d %b %Y %H:%M:%S ") date ++ lit "-0000".
Proof. list_eq. Qed.

Lemma strftime_rfc3339_naive (date : datetime) :
  strftime (lit "%Y-%m-%dT%H:%M:%SZ") date
  = strftime (lit "%Y-%m-%dT%H:%M:%S") date ++ lit "Z".
Proof. list_eq. Qed.

Lemma rfc2822_date_aware (date : datetime) (offset : timedelta) :
  tzinfo date = Some offset -> utcoffset_in_range offset ->
  rfc2822_date date
  = strftime (lit "%a, %d %b %Y %H:%M:%S ") date
    ++ sign_chr (offset_whole_minutes offset / 60)
       :: two_digits (Z.abs (offset_whole_minutes offset / 60))
    ++ two_digits (offset_whole_minutes offset mod 60).
Proof.
  intros Htz Hr. unfold rfc2822_date. rewrite Htz.
  pose proof (zone_digits offset Hr) as Hz.
  destruct (divmod (offset_minutes offset) (inject_Z 60)) as [h m].
  destruct Hz as [-> ->]. reflexivity.
Qed.

Lemma rfc3339_date_aware (date : datetime) (offset : timedelta) :
  tzinfo date = Some offset -> utcoffset_in_range offset ->
  rfc3339_date date
  = strftime (lit "%Y-%m-%dT%H:%M:%S") date
    ++ sign_chr (offset_whole_minutes offset / 60)
       :: two_digits (Z.abs (offset_whole_minutes offset / 60))
    ++ lit ":" ++ two_digits (offset_whole_minutes offset mod 60).
Proof.
  intros Htz Hr. unfold rfc3339_date. rewrite Htz.
  pose proof (zone_digits offset Hr) as Hz.
  destruct (divmod (offset_minutes offset) (inject_Z 60)) as [h m].
  destruct Hz as [-> ->]. now rewrite <- app_comm_cons.
Qed.

(** ** Latest post date *)

Lemma datetime_lt_same_kind (a b : datetime) :
  same_kind a b -> datetime_lt a b = Ok (utc_key a <? utc_key b).
Proof.
  unfold same_kind, datetime_lt.
  destruct (tzinfo a), (tzinfo b); cbn; intros H; try discriminate; reflexivity.
Qed.

Lemma insort_sorted (x : datetime) (sorted : list datetime) :
  (forall y, In y sorted -> same_kind x y) ->
  StronglySorted key_le sorted ->
  exists r, insort x sorted = Ok r
            /\ Permutation (x :: sorted) r /\ StronglySorted key_le r.
Proof.
  induction sorted as [| y rest IH]; intros Hk Hs; cbn.
  - exists [x]. repeat split; auto. repeat constructor.
  - rewrite (datetime_lt_same_kind x y) by (apply Hk; left; reflexivity). cbn.
    inversion Hs as [| ? ? Hrest Hy]; subst.
    destruct (utc_key x <? utc_key y) eqn:E.
    + apply Z.ltb_lt in E. exists (x :: y :: rest). repeat split; auto.
      constructor; [exact Hs |].
      constructor; [unfold key_le; lia |].
      eapply Forall_impl; [| exact Hy]. unfold key_le. intros; lia.
    + apply Z.ltb_ge in E.
      destruct IH as (r & -> & Hp & Hr); [intros; apply Hk; right; auto | exact Hrest |].
      cbn. exists (y :: r). repeat split.
      * eapply perm_trans; [apply perm_swap | apply perm_skip, Hp].
      * constructor; [exact Hr |].
        apply Forall_forall. intros z Hz.
        apply (Permutation_in _ (Permutation_sym Hp)) in Hz.
        destruct Hz as [<- | Hz]; [exact E |].
        rewrite Forall_forall in Hy. apply Hy, Hz.
Qed.

Lemma sort_into_sorted (l acc : list datetime) :
  comparable (acc ++ l) -> StronglySorted key_le acc ->
  exists r, sort_into acc l = Ok r
            /\ Permutation (acc ++ l) r /\ StronglySorted key_le r.
Proof.
  revert acc. induction l as [| x l IH]; intros acc Hc Hs; cbn.
  - exists acc. rewrite app_nil_r. auto.
  - destruct (insort_sorted x acc) as (acc' & -> & Hp & Hs'); auto.
    { intros y Hy. apply Hc; apply in_or_app; [right; left | left]; auto. }
    cbn. destruct (IH acc') as (r & Hr & Hp' & Hsr); auto.
    { intros a b Ha Hb. apply Hc.
      - apply in_app_or in Ha as [Ha | Ha].
        + apply (Permutation_in _ (Permutation_sym Hp)) in Ha.
          destruct Ha as [<- | Ha]; apply in_or_app; [right; left | left]; auto.
        + apply in_or_app; right; right; exact Ha.
      - apply in_app_or in Hb as [Hb | Hb].
        + apply (Permutation_in _ (Permutation_sym Hp)) in Hb.
          destruct Hb as [<- | Hb]; apply in_or_app; [right; left | left]; auto.
        + apply in_or_app; right; right; exact Hb. }
    exists r. repeat split; auto.
    eapply perm_trans; [| exact Hp'].
    eapply perm_trans; [apply Permutation_sym, Permutation_middle |].
    change (x :: acc ++ l) with ((x :: acc) ++ l).
    apply Permutation_app_tail, Hp.
Qed.

Lemma list_sort_sorted (l : list datetime) :
  comparable l ->
  exists r, list_sort l = Ok r /\ Permutation l r /\ StronglySorted key_le r.
Proof.
  intros Hc. apply (sort_into_sorted l []); [exact Hc | constructor].
Qed.

(** The last element of a sorted list is a greatest one. *)
Lemma last_sorted_max (l : list datetime) (d : datetime) :
  StronglySorted key_le l -> l <> [] ->
  In (last l d) l /\ forall p, In p l -> key_le p (last l d).
Proof.
  induction 1 as [| x l Hs IH Hx]; intros Hne; [congruence |].
  destruct l as [| y l'].
  - cbn. split; [auto |]. intros p [<- | []]. unfold key_le; lia.
  - destruct IH as [Hin Hmax]; [discriminate |].
    change (last (x :: y :: l') d) with (last (y :: l') d).
    split; [right; exact Hin |].
    intros p [<- | Hp]; [| apply Hmax, Hp].
    rewrite Forall_forall in Hx. apply Hx, Hin.
Qed.

Lemma pubdates_Permutation (items items' : list item) :
  Permutation items items' -> Permutation (pubdates items) (pubdates items').
Proof.
  induction 1; cbn.
  - constructor.
  - apply Permutation_app_head; assumption.
  - rewrite !app_assoc. apply Permutation_app_tail, Permutation_app_comm.
  - eapply perm_trans; eassumption.
Qed.

(** [latest_post_date] on a feed whose pubdates can be compared with each
    other: it returns one of them, and none is later. *)
Lemma latest_post_date_greatest (now : datetime) (self : SyndicationFeed.t) :
  pubdates (SyndicationFeed.items self) <> [] ->
  comparable (pubdates (SyndicationFeed.items self)) ->
  exists r, SyndicationFeed.latest_post_date now self = Ok r
            /\ In r (pubdates (SyndicationFeed.items self))
            /\ forall p, In p (pubdates (SyndicationFeed.items self)) -> key_le p r.
Proof.
  intros Hne Hc. unfold SyndicationFeed.latest_post_date.
  fold (pubdates (SyndicationFeed.items self)).
  set (updates := pubdates (SyndicationFeed.items self)) in *.
  destruct updates as [| u us] eqn:Eu; [congruence |].
  replace (0 <? Z.of_nat (List.length (u :: us))) with true
    by (symmetry; apply Z.ltb_lt; cbn [List.length]; lia).
  destruct (list_sort_sorted (u :: us) Hc) as (r & -> & Hp & Hs). cbn [rbind].
  assert (Hr : r <> []).
  { intros ->. apply Permutation_sym, Permutation_nil in Hp. discriminate. }
  destruct (last_sorted_max r now Hs Hr) as [Hin Hmax].
  exists (last r now). repeat split.
  - apply (Permutation_in _ (Permutation_sym Hp)), Hin.
  - intros p Hp'. apply Hmax, (Permutation_in _ Hp), Hp'.
Qed.

Lemma In_pubdates (items : list item) (d : datetime) :
  In d (pubdates items) <-> exists i, In i items /\ i_pubdate i = Some d.
Proof.
  unfold pubdates. rewrite in_flat_map. split.
  - intros (i & Hi & Hd). exists i. split; [exact Hi |].
    destruct (i_pubdate i) as [d' |]; [| contradiction].
    destruct Hd as [-> | []]. reflexivity.
  - intros (i & Hi & Hd). exists i. split; [exact Hi |].
    rewrite Hd. left. reflexivity.
Qed.

Lemma comparable_Permutation (l l' : list datetime) :
  Permutation l l' -> comparable l -> comparable l'.
Proof.
  intros Hp Hc a b Ha Hb.
  apply Hc; eapply Permutation_in; try eassumption; apply Permutation_sym, Hp.
Qed.

(** ** The handler *)

Lemma push_nil (h : handler) : push h [] [] = h.
Proof. destruct h. unfold push. cbn. now rewrite !app_nil_r. Qed.

Lemma push_push (h : handler) (t1 t2 : str) (c1 c2 : list sax_call) :
  push (push h t1 c1) t2 c2 = push h (t1 ++ t2) (c1 ++ c2).
Proof. unfold push. cbn. now rewrite !app_assoc. Qed.

Lemma runs_ret {A} (a : A) : runs (mret a) a [] [].
Proof. intros h. unfold mret. now rewrite push_nil. Qed.

Lemma runs_bind {A B} (m : M A) (k : A -> M B) a b t1 t2 c1 c2 :
  runs m a t1 c1 -> runs (k a) b t2 c2 ->
  runs (mbind m k) b (t1 ++ t2) (c1 ++ c2).
Proof.
  intros Hm Hk h. unfold mbind. rewrite Hm, Hk. now rewrite push_push.
Qed.

Lemma runs_write (text : str) : runs (_write text) tt text [].
Proof. intros h. unfold _write, push. now rewrite app_nil_r. Qed.

Lemma runs_called (c : sax_call) : runs (called c) tt [] [c].
Proof. intros h. unfold called, push. now rewrite app_nil_r. Qed.

Lemma runs_for_each {A} (l : list A) (body : A -> M unit)
  (text : A -> str) (cs : A -> list sax_call) :
  (forall x, In x l -> runs (body x) tt (text x) (cs x)) ->
  runs (for_each l body) tt (flat_map text l) (flat_map cs l).
Proof.
  induction l as [| x l IH]; intros H; cbn.
  - apply runs_ret.
  - apply (runs_bind _ _ tt); [apply H; left; reflexivity |].
    apply IH. intros y Hy. apply H; right; exact Hy.
Qed.

Lemma runs_eq {A} (m : M A) a t c t' c' :
  runs m a t c -> t = t' -> c = c' -> runs m a t' c'.
Proof. intros H <- <-. exact H. Qed.

Lemma runs_startElement (name : str) (attrs : list (str * str)) :
  runs (startElement name (some_attrs attrs)) tt
       (lit "<" ++ name ++ flat_map attr_text attrs ++ lit ">")
       [StartElement name (some_attrs attrs)].
Proof.
  unfold startElement.
  eapply runs_eq.
  - apply (runs_bind _ _ tt); [apply runs_called |].
    apply (runs_bind _ _ tt); [apply runs_write |].
    apply (runs_bind _ _ tt); [| apply runs_write].
    apply (runs_for_each (some_attrs attrs) write_attr
             (fun a => lit " " ++ fst a ++ lit "=" ++ quoteattr (match snd a with Some v => v | None => [] end))
             (fun _ => [])).
    intros [n v] Hin. unfold some_attrs in Hin. apply in_map_iff in Hin.
    destruct Hin as ([n' v'] & E & _). inversion E; subst. cbn.
    apply runs_write.
  - cbn. do 3 f_equal.
    induction attrs as [| a attrs IH]; [reflexivity |].
    cbn [some_attrs map flat_map]. fold (some_attrs attrs). rewrite IH.
    unfold attr_text. cbn. now rewrite <- !app_assoc.
  - cbn. f_equal. rewrite app_nil_r.
    induction (some_attrs attrs); cbn; auto.
Qed.

Lemma runs_characters (content : str) :
  runs (characters content) tt (escape content) [Characters content].
Proof.
  unfold characters. eapply runs_eq.
  - apply (runs_bind _ _ tt); [apply runs_called |].
    instantiate (1 := []). instantiate (1 := escape content).
    destruct content; cbn; [apply runs_ret | apply runs_write].
  - reflexivity.
  - reflexivity.
Qed.

Lemma runs_endElement (name : str) :
  runs (endElement name) tt (lit "</" ++ name ++ lit ">") [EndElement name].
Proof.
  unfold endElement. eapply runs_eq.
  - apply (runs_bind _ _ tt); [apply runs_called | apply runs_write].
  - reflexivity.
  - reflexivity.
Qed.

(** A leaf element whose attributes are all strings is written in full. *)
Lemma runs_addQuickElement (name : str) (contents : option str)
  (attrs : list (str * str)) :
  runs (addQuickElement name contents (some_attrs attrs)) tt
       (quick_text name contents attrs)
       (quick_calls name contents (some_attrs attrs)).
Proof.
  unfold addQuickElement. eapply runs_eq.
  - apply (runs_bind _ _ tt); [apply runs_startElement |].
    apply (runs_bind _ _ tt); [| apply runs_endElement].
    instantiate (1 := match contents with Some c => [Characters c] | None => [] end).
    instantiate (1 := contents_text contents).
    destruct contents; [apply runs_characters | apply runs_ret].
  - unfold quick_text. now rewrite <- !app_assoc.
  - reflexivity.
Qed.

Lemma start_names_app (a b : list sax_call) :
  start_names (a ++ b) = start_names a ++ start_names b.
Proof. unfold start_names. apply flat_map_app. Qed.

Lemma runs_appends {A} (ok : str -> bool) (m : M A) a text cs :
  runs m a text cs -> forallb ok (start_names cs) = true -> appends ok m.
Proof. intros Hm Hok h. exists text, cs. rewrite Hm. auto. Qed.

Lemma appends_bind {A B} (ok : str -> bool) (m : M A) (k : A -> M B) :
  appends ok m -> (forall a, appends ok (k a)) -> appends ok (mbind m k).
Proof.
  intros Hm Hk h. unfold mbind.
  destruct (Hm h) as (t1 & c1 & E1 & O1).
  destruct (m h) as [[a | e] h1]; cbn in E1; subst h1.
  - destruct (Hk a (push h t1 c1)) as (t2 & c2 & E2 & O2).
    exists (t1 ++ t2), (c1 ++ c2). rewrite E2, push_push. split; [reflexivity |].
    rewrite start_names_app, forallb_app, O1, O2. reflexivity.
  - exists t1, c1. auto.
Qed.

Lemma appends_ret {A} (ok : str -> bool) (a : A) : appends ok (mret a).
Proof. apply (runs_appends ok _ a [] []); [apply runs_ret | reflexivity]. Qed.

Lemma appends_lift {A} (ok : str -> bool) (r : result A) : appends ok (lift r).
Proof. intros h. exists [], []. unfold lift. cbn. now rewrite push_nil. Qed.

Lemma appends_write (ok : str -> bool) (text : str) : appends ok (_write text).
Proof. apply (runs_appends ok _ tt text []); [apply runs_write | reflexivity]. Qed.

Lemma appends_for_each {A} (ok : str -> bool) (l : list A) (body : A -> M unit) :
  (forall x, appends ok (body x)) -> appends ok (for_each l body).
Proof.
  intros H. induction l as [| x l IH]; cbn.
  - apply appends_ret.
  - apply appends_bind; [apply H | intros _; exact IH].
Qed.

Lemma appends_when (ok : str -> bool) (c : bool) (body : M unit) :
  appends ok body -> appends ok (when c body).
Proof. intros H. destruct c; cbn; [exact H | apply appends_ret]. Qed.

Lemma appends_write_attr (ok : str -> bool) (a : str * option str) :
  appends ok (write_attr a).
Proof.
  destruct a as [n [v |]]; cbn; [apply appends_write | apply appends_lift].
Qed.

Lemma appends_startElement (ok : str -> bool) name attrs :
  ok name = true -> appends ok (startElement name attrs).
Proof.
  intros Hok. unfold startElement.
  apply appends_bind.
  { apply (runs_appends ok _ tt [] [StartElement name attrs]);
      [apply runs_called | cbn; now rewrite Hok]. }
  intros _. apply appends_bind; [apply appends_write | intros _].
  apply appends_bind; [| intros _; apply appends_write].
  apply appends_for_each. intros a. apply appends_write_attr.
Qed.

Lemma appends_characters (ok : str -> bool) content :
  appends ok (characters content).
Proof.
  apply (runs_appends ok _ tt (escape content) [Characters content]);
    [apply runs_characters | reflexivity].
Qed.

Lemma appends_endElement (ok : str -> bool) name : appends ok (endElement name).
Proof.
  apply (runs_appends ok _ tt (lit "</" ++ name ++ lit ">") [EndElement name]);
    [apply runs_endElement | reflexivity].
Qed.

Lemma appends_addQuickElement (ok : str -> bool) name contents attrs :
  ok name = true -> appends ok (addQuickElement name contents attrs).
Proof.
  intros Hok. unfold addQuickElement.
  apply appends_bind; [apply appends_startElement, Hok | intros _].
  apply appends_bind; [| intros _; apply appends_endElement].
  destruct contents; [apply appends_characters | apply appends_ret].
Qed.

(** Decomposes a computation of the feed classes into its handler calls. *)
Ltac appends_step :=
  match goal with
  | |- appends _ (mbind _ _) => apply appends_bind; [| intros ?]
  | |- appends _ (when _ _) => apply appends_when
  | |- appends _ (for_each _ _) => apply appends_for_each; intros ?
  | |- appends _ (addQuickElement _ _ _) =>
      apply appends_addQuickElement; reflexivity
  | |- appends _ (startElement _ _) => apply appends_startElement; reflexivity
  | |- appends _ (endElement _) => apply appends_endElement
  | |- appends _ (characters _) => apply appends_characters
  | |- appends _ (_write _) => apply appends_write
  | |- appends _ (write_attr _) => apply appends_write_attr
  | |- appends _ (mret _) => apply appends_ret
  | |- appends _ (lift _) => apply appends_lift
  | |- appends _ (match ?o with Some _ => _ | None => _ end) => destruct o
  | |- appends _ (if ?b then _ else _) => destruct b
  end.

Ltac appends_tac := repeat appends_step.

Lemma silent_bind {A B} name (m : M A) (k : A -> M B) a b :
  silent name m a -> silent name (k a) b -> silent name (mbind m k) b.
Proof.
  intros (t1 & c1 & R1 & N1) (t2 & c2 & R2 & N2).
  exists (t1 ++ t2), (c1 ++ c2). split; [eapply runs_bind; eassumption |].
  rewrite start_names_app, in_app_iff. tauto.
Qed.

Lemma silent_ret {A} name (a : A) : silent name (mret a) a.
Proof. exists [], []. split; [apply runs_ret | auto]. Qed.

Lemma silent_lift {A} name (a : A) : silent name (lift (Ok a)) a.
Proof. exact (silent_ret name a). Qed.

Lemma silent_when name (c : bool) (body : M unit) :
  silent name body tt -> silent name (when c body) tt.
Proof. intros H. destruct c; [exact H | apply silent_ret]. Qed.

Lemma silent_addQuickElement name n contents attrs :
  str_eqb n name = false ->
  silent name (addQuickElement n contents (some_attrs attrs)) tt.
Proof.
  intros Hn. eexists; eexists. split; [apply runs_addQuickElement |].
  assert (n <> name) by (intros ->; rewrite str_eqb_refl in Hn; discriminate).
  destruct contents; cbn; intuition congruence.
Qed.

Lemma silent_startElement name n attrs :
  str_eqb n name = false -> silent name (startElement n (some_attrs attrs)) tt.
Proof.
  intros Hn. eexists; eexists. split; [apply runs_startElement |].
  assert (n <> name) by (intros ->; rewrite str_eqb_refl in Hn; discriminate).
  cbn; intuition congruence.
Qed.

Lemma silent_endElement name n : silent name (endElement n) tt.
Proof.
  eexists; eexists. split; [apply runs_endElement | cbn; tauto].
Qed.

Lemma writes_one_after {A B} (m : M A) (k : A -> M B) a name content :
  silent name m a -> writes_one (k a) name content ->
  writes_one (mbind m k) name content.
Proof.
  intros (t & c & R & N) Hk h. unfold mbind. rewrite R.
  destruct (Hk (push h t c)) as (pre & post & cpre & cpost & E & N1 & N2).
  exists (t ++ pre), post, (c ++ cpre), cpost.
  rewrite E, push_push, <- !app_assoc. split; [reflexivity |]. split; [| exact N2].
  rewrite start_names_app, in_app_iff. tauto.
Qed.

Lemma writes_one_here {B} (k : M B) name content :
  appends (other_than name) k ->
  writes_one (mbind (addQuickElement name (Some content) []) (fun _ => k))
             name content.
Proof.
  intros Hk h. unfold mbind.
  pose proof (runs_addQuickElement name (Some content) [] h) as R.
  cbn [some_attrs map] in R. rewrite R.
  destruct (Hk (push h (quick_text name (Some content) [])
                       (quick_calls name (Some content) [])))
    as (t & c & E & O).
  exists [], t, [], c. rewrite E, push_push. cbn [app].
  split; [reflexivity |]. split; [auto |].
  intros Hin. rewrite forallb_forall in O. apply O in Hin.
  unfold other_than in Hin. rewrite str_eqb_refl in Hin. discriminate.
Qed.

(** Decomposes a computation that is known not to raise. *)
Ltac silent_step :=
  match goal with
  | |- silent _ (mbind _ _) _ => eapply silent_bind
  | |- silent _ (when _ _) _ => apply silent_when
  | |- silent _ (addQuickElement _ _ []) _ =>
      apply (silent_addQuickElement _ _ _ []); reflexivity
  | |- silent _ (addQuickElement _ _ [(?k1, Some ?v1); (?k2, Some ?v2)]) _ =>
      apply (silent_addQuickElement _ _ _ [(k1, v1); (k2, v2)]); reflexivity
  | |- silent _ (startElement _ []) _ =>
      apply (silent_startElement _ _ []); reflexivity
  | |- silent _ (endElement _) _ => apply silent_endElement
  | |- silent _ (mret _) _ => apply silent_ret
  | |- silent _ (match ?o with Some _ => _ | None => _ end) _ => destruct o
  end.

Ltac silent_tac := repeat silent_step.

(** The entry of an item has one [id] element, with the text [uid], once
    the value of [unique_id] in [add_item_elements] is known to be [uid]. *)
Lemma atom_entry_id (item : item) (uid : str) :
  match i_unique_id item with
  | Some unique_id => Ok unique_id
  | None => get_tag_uri (i_link item) (i_pubdate item)
  end = Ok uid ->
  writes_one (Atom1Feed.add_item_elements item) (lit "id") uid.
Proof.
  intros Huid. unfold Atom1Feed.add_item_elements.
  eapply writes_one_after; [silent_tac |].
  eapply writes_one_after; [silent_tac |].
  eapply writes_one_after; [silent_tac |].
  eapply writes_one_after; [silent_tac |].
  eapply (writes_one_after _ _ uid).
  { destruct (i_unique_id item) as [u |].
    - inversion Huid; subst. apply silent_ret.
    - rewrite Huid. apply silent_lift. }
  apply writes_one_here. appends_tac.
Qed.

Lemma utf8_encode_cp_ok (c : Z) (b : bytes) :
  utf8_encode_cp c = Ok b -> is_code_point c = true /\ is_surrogate c = false.
Proof.
  unfold utf8_encode_cp.
  destruct (is_code_point c) eqn:Ecp; cbn [negb]; [| discriminate].
  destruct (c <? 128) eqn:E1.
  { intros _. split; [reflexivity |]. apply Z.ltb_lt in E1.
    unfold is_surrogate. apply andb_false_intro1, Z.leb_gt. lia. }
  destruct (c <? 2048) eqn:E2.
  { intros _. split; [reflexivity |]. apply Z.ltb_lt in E2.
    unfold is_surrogate. apply andb_false_intro1, Z.leb_gt. lia. }
  destruct (is_surrogate c); [discriminate | auto].
Qed.

Lemma str_encode_utf8_ok (s : str) (bs : bytes) :
  str_encode_utf8 s = Ok bs -> encodable s.
Proof.
  revert bs. induction s as [| c s IH]; cbn; intros bs H; [constructor |].
  destruct (utf8_encode_cp c) as [b |] eqn:Ec; cbn in H; [| discriminate].
  destruct (str_encode_utf8 s) as [bs' |] eqn:Es; cbn in H; [| discriminate].
  constructor; [eapply utf8_encode_cp_ok, Ec | eapply IH; reflexivity].
Qed.

(** What [iri_to_uri] returns is percent-encoded. *)
Lemma quote_iri_encoded (s u : str) :
  quote_iri s = Ok u -> percent_encoded u = true.
Proof.
  intros H. assert (Hs : encodable s).
  { unfold quote_iri, smart_str in H.
    destruct (str_encode_utf8 s) as [bs |] eqn:E; [| discriminate].
    eapply str_encode_utf8_ok, E. }
  destruct (quote_iri_total s Hs) as (u' & Hu & Hp). congruence.
Qed.

Lemma iri_to_uri_encoded (iri o : option str) :
  iri_to_uri iri = Ok o -> stored_encoded o.
Proof.
  destruct iri as [s |]; cbn.
  - destruct (quote_iri s) as [u |] eqn:E; cbn; [| discriminate].
    intros H; inversion H; subst. cbn. eapply quote_iri_encoded, E.
  - intros H; inversion H; subst. exact I.
Qed.

Lemma fails_without_after {A B} name (m : M A) (k : A -> M B) a e :
  silent name m a -> fails_without name (k a) e ->
  fails_without name (mbind m k) e.
Proof.
  intros (t & c & R & N) Hk h. unfold mbind. rewrite R.
  destruct (Hk (push h t c)) as (t' & c' & E & N').
  exists (t ++ t'), (c ++ c'). rewrite E, push_push. split; [reflexivity |].
  rewrite start_names_app, in_app_iff. tauto.
Qed.

Lemma fails_without_raise {A B} name (k : A -> M B) e :
  fails_without name (mbind (lift (Raise e)) k) e.
Proof.
  intros h. exists [], []. unfold mbind, lift. rewrite push_nil. auto.
Qed.

Lemma begins_runs {A B} (m : M A) (k : A -> M B) a t1 c1 t2 c2 :
  runs m a t1 c1 -> begins (k a) t2 c2 ->
  begins (mbind m k) (t1 ++ t2) (c1 ++ c2).
Proof.
  intros R Hk h. unfold mbind. rewrite R.
  destruct (Hk (push h t1 c1)) as (t & c & E).
  exists t, c. rewrite E, push_push. now rewrite <- !app_assoc.
Qed.

Lemma begins_then {A B} (m : M A) (k : A -> M B) text cs :
  begins m text cs -> (forall a, appends any_name (k a)) ->
  begins (mbind m k) text cs.
Proof.
  intros Hm Hk h. unfold mbind.
  destruct (Hm h) as (t & c & E).
  destruct (m h) as [[a | e] h1]; cbn in E; subst h1.
  - destruct (Hk a (push h (text ++ t) (cs ++ c))) as (t' & c' & E' & _).
    exists (t ++ t'), (c ++ c'). rewrite E', push_push.
    now rewrite <- !app_assoc.
  - exists t, c. reflexivity.
Qed.

Lemma begins_appends {A} (m : M A) : appends any_name m -> begins m [] [].
Proof.
  intros H h. destruct (H h) as (t & c & E & _). exists t, c. exact E.
Qed.

Lemma begins_eq {A} (m : M A) t c t' c' :
  begins m t c -> t = t' -> c = c' -> begins m t' c'.
Proof. intros H <- <-. exact H. Qed.

(** A start tag is announced and opened whatever its attributes are. *)
Lemma begins_startElement name attrs :
  begins (startElement name attrs) (lit "<" ++ name) [StartElement name attrs].
Proof.
  unfold startElement. eapply begins_eq.
  - eapply begins_runs; [apply runs_called |].
    eapply begins_runs; [apply runs_write |].
    apply begins_appends. appends_tac.
  - cbn. now rewrite app_nil_r.
  - reflexivity.
Qed.

Lemma begins_addQuickElement name contents attrs :
  begins (addQuickElement name contents attrs)
         (lit "<" ++ name) [StartElement name attrs].
Proof.
  unfold addQuickElement. apply begins_then; [apply begins_startElement |].
  intros _. appends_tac.
Qed.

(** ** RSS documents *)

Lemma fails_with_after {A B} (m : M A) (k : A -> M B) a e t1 c1 t2 c2 :
  runs m a t1 c1 -> fails_with (k a) e t2 c2 ->
  fails_with (mbind m k) e (t1 ++ t2) (c1 ++ c2).
Proof.
  intros R F h. unfold mbind. rewrite R, F. now rewrite push_push.
Qed.

Lemma fails_with_then {A B} (m : M A) (k : A -> M B) e t c :
  fails_with m e t c -> fails_with (mbind m k) e t c.
Proof. intros F h. unfold mbind. now rewrite F. Qed.

Lemma fails_with_eq {A} (m : M A) e t c t' c' :
  fails_with m e t c -> t = t' -> c = c' -> fails_with m e t' c'.
Proof. intros H <- <-. exact H. Qed.

(** The [atom:link] element of a feed without [feed_url]: the start tag is
    announced, [<atom:link rel="self"] is written, and the [href] attribute
    raises. *)
Lemma atom_link_None_fails :
  fails_with
    (addQuickElement (lit "atom:link") None
       [(lit "rel", Some (lit "self")); (lit "href", None)])
    AttributeError
    (lit "<atom:link rel=" ++ dq ++ lit "self" ++ dq)
    [StartElement (lit "atom:link")
       [(lit "rel", Some (lit "self")); (lit "href", None)]].
Proof.
  intros h. destruct h as [o e c]. unfold push. cbn.
  now rewrite <- !app_assoc.
Qed.

Lemma rss_add_root_elements_begins (now : datetime) (self : SyndicationFeed.t) :
  let feed := SyndicationFeed.feed self in
  begins (RssFeed.add_root_elements now self)
    (quick_text (lit "title") (f_title feed) []
     ++ quick_text (lit "link") (Some (f_link feed)) []
     ++ quick_text (lit "description") (f_description feed) []
     ++ lit "<atom:link")
    (quick_calls (lit "title") (f_title feed) []
     ++ quick_calls (lit "link") (Some (f_link feed)) []
     ++ quick_calls (lit "description") (f_description feed) []
     ++ [atom_link_call feed]).
Proof.
  cbv zeta. unfold RssFeed.add_root_elements.
  eapply begins_runs; [apply (runs_addQuickElement _ _ []) |].
  eapply begins_runs; [apply (runs_addQuickElement _ _ []) |].
  eapply begins_runs; [apply (runs_addQuickElement _ _ []) |].
  apply begins_then; [apply begins_addQuickElement |].
  intros _. appends_tac.
Qed.

Lemma rss_add_root_elements_feed_url (now : datetime) (self : SyndicationFeed.t)
  (u : str) :
  let feed := SyndicationFeed.feed self in
  f_feed_url feed = Some u ->
  begins (RssFeed.add_root_elements now self)
    (quick_text (lit "title") (f_title feed) []
     ++ quick_text (lit "link") (Some (f_link feed)) []
     ++ quick_text (lit "description") (f_description feed) []
     ++ quick_text (lit "atom:link") None [(lit "rel", lit "self"); (lit "href", u)])
    (quick_calls (lit "title") (f_title feed) []
     ++ quick_calls (lit "link") (Some (f_link feed)) []
     ++ quick_calls (lit "description") (f_description feed) []
     ++ quick_calls (lit "atom:link") None
          [(lit "rel", Some (lit "self")); (lit "href", Some u)]).
Proof.
  cbv zeta. intros Hu. unfold RssFeed.add_root_elements. rewrite Hu.
  eapply begins_runs; [apply (runs_addQuickElement _ _ []) |].
  eapply begins_runs; [apply (runs_addQuickElement _ _ []) |].
  eapply begins_runs; [apply (runs_addQuickElement _ _ []) |].
  eapply begins_eq.
  - eapply begins_runs;
      [apply (runs_addQuickElement _ _ [(lit "rel", lit "self"); (lit "href", u)]) |].
    apply begins_appends. appends_tac.
  - now rewrite app_nil_r.
  - now rewrite app_nil_r.
Qed.

Lemma rss_add_root_elements_no_feed_url (now : datetime) (self : SyndicationFeed.t) :
  let feed := SyndicationFeed.feed self in
  f_feed_url feed = None ->
  fails_with (RssFeed.add_root_elements now self) AttributeError
    (quick_text (lit "title") (f_title feed) []
     ++ quick_text (lit "link") (Some (f_link feed)) []
     ++ quick_text (lit "description") (f_description feed) []
     ++ lit "<atom:link rel=" ++ dq ++ lit "self" ++ dq)
    (quick_calls (lit "title") (f_title feed) []
     ++ quick_calls (lit "link") (Some (f_link feed)) []
     ++ quick_calls (lit "description") (f_description feed) []
     ++ [atom_link_call feed]).
Proof.
  cbv zeta. intros Hu. unfold RssFeed.add_root_elements, atom_link_call.
  rewrite Hu.
  eapply fails_with_after; [apply (runs_addQuickElement _ _ []) |].
  eapply fails_with_after; [apply (runs_addQuickElement _ _ []) |].
  eapply fails_with_after; [apply (runs_addQuickElement _ _ []) |].
  apply fails_with_then, atom_link_None_fails.
Qed.

Lemma rss_item_elements_appends (cls : rss_class) (item : item) :
  appends any_name (RssFeed.add_item_elements cls item).
Proof.
  destruct cls; cbn [RssFeed.add_item_elements].
  - unfold RssUserland091Feed.add_item_elements. appends_tac.
  - unfold Rss201rev2Feed.add_item_elements. appends_tac.
Qed.

Lemma rss_tail_appends (cls : rss_class) (self : SyndicationFeed.t) :
  appends any_name
    (RssFeed.write_items cls self ;; RssFeed.endChannelElement ;;
     endElement (lit "rss")).
Proof.
  unfold RssFeed.write_items, RssFeed.endChannelElement.
  appends_tac. apply rss_item_elements_appends.
Qed.

Lemma rss_open_runs (cls : rss_class) :
  runs (startElement (lit "rss") (RssFeed.rss_attributes cls)) tt
    (lit "<rss version=" ++ dq ++ RssFeed._version cls ++ dq
     ++ lit " xmlns:atom=" ++ dq ++ lit "http://www.w3.org/2005/Atom" ++ dq
     ++ lit ">")
    [StartElement (lit "rss") (RssFeed.rss_attributes cls)].
Proof.
  eapply runs_eq.
  - apply (runs_startElement (lit "rss")
             [(lit "version", RssFeed._version cls);
              (lit "xmlns:atom", lit "http://www.w3.org/2005/Atom")]).
  - destruct cls; reflexivity.
  - reflexivity.
Qed.

Lemma rss_write_unfold cls now self outfile enc :
  RssFeed.write cls now self outfile enc
  = rss_document cls now self
      (push (SimplerXMLGenerator.new outfile enc) (xml_declaration enc)
            [StartDocument]).
Proof.
  unfold RssFeed.write, rss_document.
  unfold mbind at 1. unfold startDocument. unfold mbind at 1.
  unfold called at 1, _write at 1.
  cbn [encoding out calls SimplerXMLGenerator.new].
  reflexivity.
Qed.

Lemma rss_document_begins cls now self :
  let feed := SyndicationFeed.feed self in
  begins (rss_document cls now self)
    (rss_body_text cls feed ++ lit "<atom:link")
    ([StartElement (lit "rss") (RssFeed.rss_attributes cls);
      StartElement (lit "channel") []]
     ++ quick_calls (lit "title") (f_title feed) []
     ++ quick_calls (lit "link") (Some (f_link feed)) []
     ++ quick_calls (lit "description") (f_description feed) []
     ++ [atom_link_call feed]).
Proof.
  cbv zeta. unfold rss_document. eapply begins_eq.
  - eapply begins_runs; [apply rss_open_runs |].
    eapply begins_runs; [apply (runs_startElement (lit "channel") []) |].
    apply begins_then; [apply rss_add_root_elements_begins |].
    intros _. apply rss_tail_appends.
  - unfold rss_body_text. cbn [flat_map]. now rewrite <- !app_assoc.
  - reflexivity.
Qed.

Lemma rss_document_feed_url cls now self u :
  let feed := SyndicationFeed.feed self in
  f_feed_url feed = Some u ->
  begins (rss_document cls now self)
    (rss_body_text cls feed
     ++ quick_text (lit "atom:link") None [(lit "rel", lit "self"); (lit "href", u)])
    ([StartElement (lit "rss") (RssFeed.rss_attributes cls);
      StartElement (lit "channel") []]
     ++ quick_calls (lit "title") (f_title feed) []
     ++ quick_calls (lit "link") (Some (f_link feed)) []
     ++ quick_calls (lit "description") (f_description feed) []
     ++ quick_calls (lit "atom:link") None
          [(lit "rel", Some (lit "self")); (lit "href", Some u)]).
Proof.
  cbv zeta. intros Hu. unfold rss_document. eapply begins_eq.
  - eapply begins_runs; [apply rss_open_runs |].
    eapply begins_runs; [apply (runs_startElement (lit "channel") []) |].
    apply begins_then; [apply (rss_add_root_elements_feed_url now self u Hu) |].
    intros _. apply rss_tail_appends.
  - unfold rss_body_text. cbn [flat_map]. now rewrite <- !app_assoc.
  - reflexivity.
Qed.

Lemma rss_document_no_feed_url cls now self :
  let feed := SyndicationFeed.feed self in
  f_feed_url feed = None ->
  fails_with (rss_document cls now self) AttributeError
    (rss_body_text cls feed ++ lit "<atom:link rel=" ++ dq ++ lit "self" ++ dq)
    ([StartElement (lit "rss") (RssFeed.rss_attributes cls);
      StartElement (lit "channel") []]
     ++ quick_calls (lit "title") (f_title feed) []
     ++ quick_calls (lit "link") (Some (f_link feed)) []
     ++ quick_calls (lit "description") (f_description feed) []
     ++ [atom_link_call feed]).
Proof.
  cbv zeta. intros Hu. unfold rss_document. eapply fails_with_eq.
  - eapply fails_with_after; [apply rss_open_runs |].
    eapply fails_with_after; [apply (runs_startElement (lit "channel") []) |].
    apply fails_with_then. apply (rss_add_root_elements_no_feed_url now self Hu).
  - unfold rss_body_text. cbn [flat_map]. now rewrite <- !app_assoc.
  - reflexivity.
Qed.

Lemma never_returns_first {A B} (m : M A) (k : A -> M B) :
  never_returns m -> never_returns (mbind m k).
Proof.
  intros H h. destruct (H h) as (e & He). exists e. unfold mbind.
  destruct (m h) as [[a | e'] h1]; cbn in *; [discriminate | congruence].
Qed.

Lemma never_returns_rest {A B} (m : M A) (k : A -> M B) :
  (forall a, never_returns (k a)) -> never_returns (mbind m k).
Proof.
  intros H h. unfold mbind. destruct (m h) as [[a | e] h1].
  - apply H.
  - exists e. reflexivity.
Qed.

(** The [lastBuildDate] of an RSS feed is never written: decoding the
    formatted date raises. *)
Lemma rss_add_root_elements_never_returns now self :
  never_returns (RssFeed.add_root_elements now self).
Proof.
  unfold RssFeed.add_root_elements.
  do 7 (apply never_returns_rest; intros _).
  apply never_returns_first. intros h. unfold lift. cbn [fst].
  destruct (SyndicationFeed.latest_post_date now self) as [d | e]; cbn;
    eexists; reflexivity.
Qed.

Lemma rss_write_never_returns cls now self outfile enc :
  exists e, fst (RssFeed.write cls now self outfile enc) = Raise e.
Proof.
  rewrite rss_write_unfold. unfold rss_document.
  revert cls now self.
  assert (H : forall cls now self, never_returns (rss_document cls now self)).
  { intros cls now self. unfold rss_document.
    do 2 (apply never_returns_rest; intros _).
    apply never_returns_first, rss_add_root_elements_never_returns. }
  intros cls now self. apply H.
Qed.

(** Decides that a name is not among the names of a computed list. *)
Ltac not_in_names :=
  let H := fresh "H" in
  intros H; vm_compute in H;
  repeat (destruct H as [H | H]; [discriminate H |]);
  contradiction.

Lemma to_unicode_ok (s : option str) : to_unicode s = Ok s.
Proof. destruct s; reflexivity. Qed.

(* ================================================================== *)
(** * The claims of the specification *)

(** C2.  The RFC 2822 formatter ends a naive timestamp in the literal
    [-0000].  For a timestamp with a zone it writes the same
    ["Dow, DD Mon YYYY HH:MM:SS "] prefix and then the sign and four
    digits of the offset, hour and minute being [divmod] by 60 of the
    whole minutes [days * 1440 + seconds // 60]: an offset of +5:30 ends
    in [+0530], and a zone of offset zero in [+0000], not in the naive
    [-0000]. *)
Theorem rfc2822_date_zone (date : datetime) :
  (tzinfo date = None ->
   rfc2822_date date
   = strftime (lit "%a, %d %b %Y %H:%M:%S ") date ++ lit "-0000")
  /\ (forall offset,
        tzinfo date = Some offset -> utcoffset_in_range offset ->
        let h := offset_whole_minutes offset / 60 in
        let m := offset_whole_minutes offset mod 60 in
        rfc2822_date date
        = strftime (lit "%a, %d %b %Y %H:%M:%S ") date
          ++ sign_chr h :: two_digits (Z.abs h) ++ two_digits m)
  /\ (forall us,
        tzinfo date = Some (mk_timedelta 0 19800 us) ->
        rfc2822_date date
        = strftime (lit "%a, %d %b %Y %H:%M:%S ") date ++ lit "+0530")
  /\ (forall us,
        tzinfo date = Some (mk_timedelta 0 0 us) ->
        rfc2822_date date
        = strftime (lit "%a, %d %b %Y %H:%M:%S ") date ++ lit "+0000").
Proof.
  split; [| split; [| split]].
  - intros Htz. unfold rfc2822_date. rewrite Htz.
    apply strftime_rfc2822_naive.
  - intros offset Htz Hr. cbv zeta. apply rfc2822_date_aware; assumption.
  - intros us Htz.
    rewrite (rfc2822_date_aware date _ Htz); [reflexivity |].
    unfold utcoffset_in_range; cbn; lia.
  - intros us Htz.
    rewrite (rfc2822_date_aware date _ Htz); [reflexivity |].
    unfold utcoffset_in_range; cbn; lia.
Qed.

Lemma rfc2822_date_zone_witness :
  rfc2822_date (mk_datetime 2009 1 1 12 30 5 0 None)
    = lit "Thu, 01 Jan 2009 12:30:05 -0000"
  /\ rfc2822_date (mk_datetime 2009 1 1 12 30 5 0 (Some (mk_timedelta (-1) 57600 0)))
    = lit "Thu, 01 Jan 2009 12:30:05 -0800"
  /\ rfc2822_date (mk_datetime 2009 1 1 12 30 5 0 (Some (mk_timedelta 0 19800 0)))
    = lit "Thu, 01 Jan 2009 12:30:05 +0530"
  /\ rfc2822_date (mk_datetime 2009 1 1 12 30 5 0 (Some (mk_timedelta 0 0 0)))
    = lit "Thu, 01 Jan 2009 12:30:05 +0000".
Proof.
  split; [| split; [| split]].
  - exact (proj1 (rfc2822_date_zone (mk_datetime 2009 1 1 12 30 5 0 None)) eq_refl).
  - refine (proj1 (proj2 (rfc2822_date_zone
        (mk_datetime 2009 1 1 12 30 5 0 (Some (mk_timedelta (-1) 57600 0)))))
        (mk_timedelta (-1) 57600 0) eq_refl _).
    unfold utcoffset_in_range; cbn; lia.
  - exact (proj1 (proj2 (proj2 (rfc2822_date_zone
        (mk_datetime 2009 1 1 12 30 5 0 (Some (mk_timedelta 0 19800 0)))))) 0 eq_refl).
  - exact (proj2 (proj2 (proj2 (rfc2822_date_zone
        (mk_datetime 2009 1 1 12 30 5 0 (Some (mk_timedelta 0 0 0)))))) 0 eq_refl).
Defined.

(** C3.  The RFC 3339 formatter ends a naive timestamp in the literal
    [Z].  For a timestamp with a zone it writes
    ["YYYY-MM-DDTHH:MM:SS"] and then the sign, two digits of the hour, a
    colon and two digits of the minute, computed as in the RFC 2822
    formatter: an offset of -8:00 ends in [-08:00], and a zone of offset
    zero in [+00:00], not in the naive [Z]. *)
Theorem rfc3339_date_zone (date : datetime) :
  (tzinfo date = None ->
   rfc3339_date date = strftime (lit "%Y-%m-%dT%H:%M:%S") date ++ lit "Z")
  /\ (forall offset,
        tzinfo date = Some offset -> utcoffset_in_range offset ->
        let h := offset_whole_minutes offset / 60 in
        let m := offset_whole_minutes offset mod 60 in
        rfc3339_date date
        = strftime (lit "%Y-%m-%dT%H:%M:%S") date
          ++ sign_chr h :: two_digits (Z.abs h) ++ lit ":" ++ two_digits m)
  /\ (forall us,
        tzinfo date = Some (mk_timedelta (-1) 57600 us) ->
        rfc3339_date date
        = strftime (lit "%Y-%m-%dT%H:%M:%S") date ++ lit "-08:00")
  /\ (forall us,
        tzinfo date = Some (mk_timedelta 0 0 us) ->
        rfc3339_date date
        = strftime (lit "%Y-%m-%dT%H:%M:%S") date ++ lit "+00:00").
Proof.
  split; [| split; [| split]].
  - intros Htz. unfold rfc3339_date. rewrite Htz.
    apply strftime_rfc3339_naive.
  - intros offset Htz Hr. cbv zeta. apply rfc3339_date_aware; assumption.
  - intros us Htz.
    rewrite (rfc3339_date_aware date _ Htz); [reflexivity |].
    unfold utcoffset_in_range; cbn; lia.
  - intros us Htz.
    rewrite (rfc3339_date_aware date _ Htz); [reflexivity |].
    unfold utcoffset_in_range; cbn; lia.
Qed.

Lemma rfc3339_date_zone_witness :
  rfc3339_date (mk_datetime 2009 1 1 12 30 5 0 None)
    = lit "2009-01-01T12:30:05Z"
  /\ rfc3339_date (mk_datetime 2009 1 1 12 30 5 0 (Some (mk_timedelta 0 19800 0)))
    = lit "2009-01-01T12:30:05+05:30"
  /\ rfc3339_date (mk_datetime 2009 1 1 12 30 5 0 (Some (mk_timedelta (-1) 57600 0)))
    = lit "2009-01-01T12:30:05-08:00"
  /\ rfc3339_date (mk_datetime 2009 1 1 12 30 5 0 (Some (mk_timedelta 0 0 0)))
    = lit "2009-01-01T12:30:05+00:00".
Proof.
  split; [| split; [| split]].
  - exact (proj1 (rfc3339_date_zone (mk_datetime 2009 1 1 12 30 5 0 None)) eq_refl).
  - refine (proj1 (proj2 (rfc3339_date_zone
        (mk_datetime 2009 1 1 12 30 5 0 (Some (mk_timedelta 0 19800 0)))))
        (mk_timedelta 0 19800 0) eq_refl _).
    unfold utcoffset_in_range; cbn; lia.
  - exact (proj1 (proj2 (proj2 (rfc3339_date_zone
        (mk_datetime 2009 1 1 12 30 5 0 (Some (mk_timedelta (-1) 57600 0)))))) 0 eq_refl).
  - exact (proj2 (proj2 (proj2 (rfc3339_date_zone
        (mk_datetime 2009 1 1 12 30 5 0 (Some (mk_timedelta 0 0 0)))))) 0 eq_refl).
Defined.

(** C5.  The tag URI of [http://example.com/path#frag] with the date
    2009-01-01 is [tag:example.com,2009-01-01:/path/frag], and without a
    date [tag:example.com:/path/frag].  In general the result is [tag:],
    the host, then [,YYYY-MM-DD] exactly when a date is given, then [:],
    the path, [/] and the fragment, where host, path and fragment are those
    of the parsed URI. *)
Theorem get_tag_uri_form :
  (forall h mi s us tz,
     get_tag_uri (lit "http://example.com/path#frag")
                 (Some (mk_datetime 2009 1 1 h mi s us tz))
     = Ok (lit "tag:example.com,2009-01-01:/path/frag"))
  /\ get_tag_uri (lit "http://example.com/path#frag") None
     = Ok (lit "tag:example.com:/path/frag")
  /\ (forall url date r,
        urlparse url = Ok r ->
        get_tag_uri url date
        = Ok (lit "tag:" ++ pct_s (hostname r)
              ++ match date with
                 | Some d =>
                     lit "," ++ format_d false 4 (year d) ++ lit "-"
                     ++ format_d false 2 (month d) ++ lit "-"
                     ++ format_d false 2 (day d)
                 | None => []
                 end
              ++ lit ":" ++ path r ++ lit "/" ++ fragment r))
  /\ (exists r,
        urlparse (lit "http://example.com/path#frag") = Ok r
        /\ hostname r = Some (lit "example.com")
        /\ path r = lit "/path" /\ fragment r = lit "frag").
Proof.
  split; [| split; [| split]].
  - intros. vm_compute. reflexivity.
  - vm_compute. reflexivity.
  - intros url date r Hr. unfold get_tag_uri. rewrite Hr. cbn [rbind].
    destruct date as [d |]; [| reflexivity].
    do 2 f_equal. list_eq.
  - eexists. split; [vm_compute; reflexivity |]. vm_compute. auto.
Qed.

Lemma get_tag_uri_form_witness :
  get_tag_uri (lit "http://Example.com:8080/a/b?q#top")
              (Some (mk_datetime 2010 12 31 0 0 0 0 None))
  = Ok (lit "tag:example.com,2010-12-31:/a/b/top").
Proof.
  refine (eq_trans
    (proj1 (proj2 (proj2 get_tag_uri_form))
       (lit "http://Example.com:8080/a/b?q#top")
       (Some (mk_datetime 2010 12 31 0 0 0 0 None))
       (mk_ParseResult (lit "http") (lit "Example.com:8080") (lit "/a/b") []
          (lit "q") (lit "top")) _) _).
  - vm_compute. reflexivity.
  - vm_compute. reflexivity.
Defined.

(** C8, as the code has it.  [iri_to_uri] leaves [None] unchanged.  For
    every string that UTF-8 can encode (no surrogate code point) it returns
    a percent-encoded string: ASCII, made of letters, digits, [_.-~] and
    the characters [/#%[]=:;$&()+,!?*@'~] only; each of these characters
    passes unescaped at its place in the input. *)
Theorem iri_to_uri_encodes :
  iri_to_uri None = Ok None
  /\ (forall s, encodable s ->
        exists u, iri_to_uri (Some s) = Ok (Some u)
                  /\ percent_encoded u = true
                  /\ Forall (fun c => 0 <= c < 128) u)
  /\ (forall s1 s2 c u1 u2,
        In c iri_safe ->
        iri_to_uri (Some s1) = Ok (Some u1) ->
        iri_to_uri (Some s2) = Ok (Some u2) ->
        iri_to_uri (Some (s1 ++ c :: s2)) = Ok (Some (u1 ++ c :: u2))).
Proof.
  split; [reflexivity | split].
  - intros s Hs. destruct (quote_iri_total s Hs) as (u & Hu & Hp).
    exists u. cbn. rewrite Hu. split; [reflexivity | split; [exact Hp |]].
    apply Forall_forall. intros c Hc. apply uri_char_ascii.
    unfold percent_encoded in Hp. rewrite forallb_forall in Hp. auto.
  - intros s1 s2 c u1 u2 Hc H1 H2. cbn in *.
    destruct (quote_iri s1) as [v1 |] eqn:E1; cbn in H1; [| discriminate].
    destruct (quote_iri s2) as [v2 |] eqn:E2; cbn in H2; [| discriminate].
    inversion H1; inversion H2; subst.
    assert (Hcc : quote_iri [c] = Ok [c]).
    { apply quote_iri_uri_char. unfold uri_char.
      replace (mem_chr c iri_safe) with true; [apply orb_true_r |].
      symmetry. apply existsb_exists. exists c. split; [exact Hc | apply Z.eqb_refl]. }
    rewrite (quote_iri_app s1 (c :: s2) u1 (c :: u2) E1
               (quote_iri_app [c] s2 [c] u2 Hcc E2)).
    reflexivity.
Qed.

Lemma iri_to_uri_encodes_witness :
  (exists u, iri_to_uri (Some (lit "http://x/a b" ++ [233; 8364])) = Ok (Some u)
             /\ percent_encoded u = true
             /\ Forall (fun c => 0 <= c < 128) u)
  /\ iri_to_uri (Some (lit "a b" ++ 47 :: lit "c d"))
     = Ok (Some (lit "a%20b" ++ 47 :: lit "c%20d")).
Proof.
  split.
  - apply (proj1 (proj2 iri_to_uri_encodes)).
    unfold encodable. repeat (apply Forall_cons; [split; reflexivity |]).
    apply Forall_nil.
  - apply (proj2 (proj2 iri_to_uri_encodes) (lit "a b") (lit "c d") 47).
    + vm_compute. tauto.
    + reflexivity.
    + reflexivity.
Defined.

(** C8, counterexample to the claim as stated: the one-character string of
    the surrogate code point U+D800 is a string, and [iri_to_uri] raises
    [UnicodeEncodeError] on it. *)
Lemma iri_to_uri_raises_on_surrogate :
  is_code_point 55296 = true
  /\ iri_to_uri (Some [55296]) = Raise UnicodeEncodeError.
Proof. split; reflexivity. Qed.

(** C4, as the code has it.  When at least one item has a pubdate and the
    pubdates can be compared with each other (all naive or all aware),
    [latest_post_date] returns the pubdate of an item such that no pubdate
    is later; on the same items added in another order it returns a
    timestamp that compares equal to it (the same instant). *)
Theorem latest_post_date_is_latest (now : datetime) (self self' : SyndicationFeed.t) :
  (exists i d, In i (SyndicationFeed.items self) /\ i_pubdate i = Some d) ->
  comparable (pubdates (SyndicationFeed.items self)) ->
  Permutation (SyndicationFeed.items self) (SyndicationFeed.items self') ->
  exists r r',
    SyndicationFeed.latest_post_date now self = Ok r
    /\ (exists i, In i (SyndicationFeed.items self) /\ i_pubdate i = Some r)
    /\ (forall i d, In i (SyndicationFeed.items self) -> i_pubdate i = Some d ->
        datetime_lt r d = Ok false)
    /\ SyndicationFeed.latest_post_date now self' = Ok r'
    /\ datetime_lt r r' = Ok false /\ datetime_lt r' r = Ok false
    /\ utc_key r' = utc_key r.
Proof.
  intros (i0 & d0 & Hi0 & Hd0) Hc Hperm.
  assert (Hne : pubdates (SyndicationFeed.items self) <> []).
  { intros E. assert (H : In d0 (pubdates (SyndicationFeed.items self)))
      by (apply In_pubdates; eauto).
    rewrite E in H. exact H. }
  pose proof (pubdates_Permutation _ _ Hperm) as Hpp.
  assert (Hc' : comparable (pubdates (SyndicationFeed.items self')))
    by (eapply comparable_Permutation; eassumption).
  assert (Hne' : pubdates (SyndicationFeed.items self') <> []).
  { intros E. rewrite E in Hpp. apply Permutation_sym, Permutation_nil in Hpp.
    contradiction. }
  destruct (latest_post_date_greatest now self Hne Hc) as (r & Hr & Hin & Hmax).
  destruct (latest_post_date_greatest now self' Hne' Hc') as (r' & Hr' & Hin' & Hmax').
  assert (Hin'r : In r' (pubdates (SyndicationFeed.items self)))
    by (eapply Permutation_in; [apply Permutation_sym, Hpp | exact Hin']).
  assert (Hinr' : In r (pubdates (SyndicationFeed.items self')))
    by (eapply Permutation_in; [exact Hpp | exact Hin]).
  pose proof (Hmax r' Hin'r) as H1. pose proof (Hmax' r Hinr') as H2.
  unfold key_le in H1, H2.
  exists r, r'. split; [exact Hr |]. split; [apply In_pubdates, Hin |].
  split.
  { intros i d Hi Hd.
    assert (Hdin : In d (pubdates (SyndicationFeed.items self)))
      by (apply In_pubdates; eauto).
    rewrite (datetime_lt_same_kind r d (Hc r d Hin Hdin)).
    f_equal. apply Z.ltb_ge. apply (Hmax d Hdin). }
  split; [exact Hr' |].
  rewrite (datetime_lt_same_kind r r' (Hc r r' Hin Hin'r)).
  rewrite (datetime_lt_same_kind r' r (Hc r' r Hin'r Hin)).
  repeat split; try (f_equal; apply Z.ltb_ge; lia); lia.
Qed.

Lemma latest_post_date_is_latest_witness :
  exists r r',
    SyndicationFeed.latest_post_date noon_utc
      (SyndicationFeed.mk empty_feed_dict (three_items noon_pst noon_utc)) = Ok r
    /\ (exists i, In i (three_items noon_pst noon_utc) /\ i_pubdate i = Some r)
    /\ (forall i d, In i (three_items noon_pst noon_utc) -> i_pubdate i = Some d ->
        datetime_lt r d = Ok false)
    /\ SyndicationFeed.latest_post_date noon_utc
         (SyndicationFeed.mk empty_feed_dict (rev (three_items noon_pst noon_utc)))
       = Ok r'
    /\ datetime_lt r r' = Ok false /\ datetime_lt r' r = Ok false
    /\ utc_key r' = utc_key r.
Proof.
  apply (latest_post_date_is_latest noon_utc
           (SyndicationFeed.mk empty_feed_dict (three_items noon_pst noon_utc))
           (SyndicationFeed.mk empty_feed_dict (rev (three_items noon_pst noon_utc)))).
  - eexists; exists noon_pst. split; [left; reflexivity | reflexivity].
  - intros a b Ha Hb. cbn in Ha, Hb.
    destruct Ha as [<- | [<- | []]]; destruct Hb as [<- | [<- | []]]; reflexivity.
  - apply Permutation_rev.
Defined.

(** C4, counterexample to the claim as stated: a feed in which one item
    has a naive pubdate and another an aware one.  An item has a pubdate,
    and [latest_post_date] raises [TypeError] instead of returning. *)
Lemma latest_post_date_raises_on_mixed_pubdates :
  exists self,
    (try f0 <- SyndicationFeed.init (Some (lit "T")) (lit "http://x/") (Some (lit "D"))
                 None None None None None None None None None None [];
     try f1 <- SyndicationFeed.add_item f0 (Some (lit "a")) (lit "http://x/a") None
                 None None None (Some noon_naive) None None None [] None None [];
     SyndicationFeed.add_item f1 (Some (lit "b")) (lit "http://x/b") None
       None None None (Some noon_utc) None None None [] None None []) = Ok self
    /\ (exists i d, In i (SyndicationFeed.items self) /\ i_pubdate i = Some d)
    /\ forall now, SyndicationFeed.latest_post_date now self = Raise TypeError.
Proof.
  eexists. split; [vm_compute; reflexivity |]. split.
  - eexists; eexists. split; [left; reflexivity | reflexivity].
  - intros now. vm_compute. reflexivity.
Qed.

(** C7.  The RSS 0.91 rendering of an item writes a [title] element, a
    [link] element and, when the description is not [None], a
    [description] element, and nothing else: what it writes is determined
    by these three fields, and no [author], [dc:creator], [pubDate],
    [comments], [guid], [ttl], [enclosure] or [category] element is opened
    whatever the other fields hold. *)
Theorem rss091_item_elements (item : item) :
  let text :=
    quick_text (lit "title") (i_title item) []
    ++ quick_text (lit "link") (Some (i_link item)) []
    ++ match i_description item with
       | Some d => quick_text (lit "description") (Some d) []
       | None => []
       end in
  let cs :=
    quick_calls (lit "title") (i_title item) []
    ++ quick_calls (lit "link") (Some (i_link item)) []
    ++ match i_description item with
       | Some d => quick_calls (lit "description") (Some d) []
       | None => []
       end in
  runs (RssFeed.add_item_elements RssUserland091 item) tt text cs
  /\ start_names cs
     = lit "title" :: lit "link"
       :: match i_description item with
          | Some _ => [lit "description"]
          | None => []
          end
  /\ forall name,
       In name (map lit ["author"; "dc:creator"; "pubDate"; "comments"; "guid";
                         "ttl"; "enclosure"; "category"]%string) ->
       ~ In name (start_names cs).
Proof.
  cbv zeta. split; [| split].
  - unfold RssFeed.add_item_elements, RssUserland091Feed.add_item_elements.
    apply (runs_bind _ _ tt); [apply (runs_addQuickElement _ _ []) |].
    apply (runs_bind _ _ tt); [apply (runs_addQuickElement _ _ []) |].
    destruct (i_description item) as [d |]; cbn [is_not_None when].
    + apply (runs_addQuickElement _ _ []).
    + apply runs_ret.
  - destruct (i_title item), (i_description item); reflexivity.
  - intros name Hname Hin.
    assert (Hs : In name [lit "title"; lit "link"; lit "description"]).
    { destruct (i_title item), (i_description item); cbn in Hin;
        intuition (subst; cbn; auto). }
    cbn in Hname, Hs.
    intuition (subst; discriminate).
Qed.

(** C10.  For every RSS feed, 0.91 or 2.0, [write] opens the [atom:link]
    element right after the [description] of the feed, whether or not the
    feed has a [feed_url], and passes the stored [feed_url] as its [href].
    With a [feed_url] the element is written in full.  Without one the
    value of [href] is [None]: [write] raises [AttributeError] after
    [<atom:link rel="self"], so that it cannot complete unless a
    [feed_url] was supplied. *)
Theorem rss_write_atom_link (cls : rss_class) (now : datetime)
  (self : SyndicationFeed.t) (outfile enc : str) :
  let feed := SyndicationFeed.feed self in
  let h0 := SimplerXMLGenerator.new outfile enc in
  let res := RssFeed.write cls now self outfile enc in
  (exists t c,
     snd res = push h0 (rss_head_text cls feed enc ++ lit "<atom:link" ++ t)
                       (rss_head_calls cls feed ++ atom_link_call feed :: c))
  /\ (forall u, f_feed_url feed = Some u ->
      exists t c,
        snd res
        = push h0
            (rss_head_text cls feed enc
             ++ quick_text (lit "atom:link") None
                  [(lit "rel", lit "self"); (lit "href", u)] ++ t)
            (rss_head_calls cls feed
             ++ quick_calls (lit "atom:link") None
                  [(lit "rel", Some (lit "self")); (lit "href", Some u)] ++ c))
  /\ (f_feed_url feed = None ->
      res = (Raise AttributeError,
             push h0
               (rss_head_text cls feed enc
                ++ lit "<atom:link rel=" ++ dq ++ lit "self" ++ dq)
               (rss_head_calls cls feed ++ [atom_link_call feed]))).
Proof.
  cbv zeta. rewrite rss_write_unfold. split; [| split].
  - destruct (rss_document_begins cls now self
                (push (new outfile enc) (xml_declaration enc) [StartDocument]))
      as (t & c & E).
    exists t, c. rewrite E, push_push. unfold rss_head_text, rss_head_calls.
    f_equal.
    + now rewrite <- !app_assoc.
    + cbn [app]. now rewrite <- !app_assoc.
  - intros u Hu.
    destruct (rss_document_feed_url cls now self u Hu
                (push (new outfile enc) (xml_declaration enc) [StartDocument]))
      as (t & c & E).
    exists t, c. rewrite E, push_push. unfold rss_head_text, rss_head_calls.
    f_equal.
    + now rewrite <- !app_assoc.
    + cbn [app]. now rewrite <- !app_assoc.
  - intros Hu. rewrite (rss_document_no_feed_url cls now self Hu).
    rewrite push_push. unfold rss_head_text, rss_head_calls.
    f_equal. f_equal.
    + now rewrite <- !app_assoc.
    + cbn [app]. now rewrite <- !app_assoc.
Qed.

Lemma rss_write_atom_link_witness :
  RssFeed.write Rss201rev2 noon_naive scenario_stored [] (lit "utf-8")
  = (Raise AttributeError,
     push (SimplerXMLGenerator.new [] (lit "utf-8"))
       (rss_head_text Rss201rev2 (SyndicationFeed.feed scenario_stored) (lit "utf-8")
        ++ lit "<atom:link rel=" ++ dq ++ lit "self" ++ dq)
       (rss_head_calls Rss201rev2 (SyndicationFeed.feed scenario_stored)
        ++ [atom_link_call (SyndicationFeed.feed scenario_stored)])).
Proof.
  exact (proj2 (proj2 (rss_write_atom_link Rss201rev2 noon_naive scenario_stored
                         [] (lit "utf-8"))) eq_refl).
Defined.

(** C1, on the code.  The scenario builds its feed, and [write] on it does
    not produce the document: it raises [AttributeError] when it reaches
    the [href] of [atom:link], the output file ends in
    [<atom:link rel="self"] and no [item] element is opened.  With a
    [feed_url] the same scenario raises as well, as every RSS [write] does:
    the formatted [lastBuildDate] is a [str] and has no [decode]. *)
Theorem rss2_scenario_write_raises (now : datetime) :
  scenario_feed None = Ok scenario_stored
  /\ RssFeed.write Rss201rev2 now scenario_stored [] (lit "utf-8")
     = (Raise AttributeError,
        mk_handler scenario_output (lit "utf-8")
          (rss_head_calls Rss201rev2 (SyndicationFeed.feed scenario_stored)
           ++ [atom_link_call (SyndicationFeed.feed scenario_stored)]))
  /\ ~ In (lit "item")
          (start_names
             (calls (snd (RssFeed.write Rss201rev2 now scenario_stored []
                            (lit "utf-8")))))
  /\ (exists self,
        scenario_feed (Some (lit "http://x/feed")) = Ok self
        /\ fst (RssFeed.write Rss201rev2 now self [] (lit "utf-8"))
           = Raise AttributeError
        /\ ~ In (lit "item")
                (start_names
                   (calls (snd (RssFeed.write Rss201rev2 now self []
                                  (lit "utf-8"))))))
  /\ (forall cls self outfile enc,
        exists e, fst (RssFeed.write cls now self outfile enc) = Raise e).
Proof.
  split; [vm_compute; reflexivity |].
  split; [vm_compute; reflexivity |].
  split.
  { not_in_names. }
  split.
  - eexists. split; [vm_compute; reflexivity |].
    split; [vm_compute; reflexivity |].
    not_in_names.
  - intros. apply rss_write_never_returns.
Qed.

(** C6.  In the entry that the Atom variant writes for an item there is
    exactly one [id] element.  Its text is the [unique_id] of the item when
    the item has one, and otherwise the tag URI of the stored link and the
    pubdate of the item; when no tag URI can be made of the link, the
    entry fails with the error of the tag URI generator and has no [id].
    The link stored by [add_item] is the percent-encoded one. *)
Theorem atom_entry_id_element (item : item) :
  (forall uid, i_unique_id item = Some uid ->
     writes_one (Atom1Feed.add_item_elements item) (lit "id") uid)
  /\ (forall tag,
        i_unique_id item = None ->
        get_tag_uri (i_link item) (i_pubdate item) = Ok tag ->
        writes_one (Atom1Feed.add_item_elements item) (lit "id") tag)
  /\ (forall e,
        i_unique_id item = None ->
        get_tag_uri (i_link item) (i_pubdate item) = Raise e ->
        fails_without (lit "id") (Atom1Feed.add_item_elements item) e)
  /\ (forall self title link description author_email author_name author_link
             pubdate comments unique_id enclosure categories item_copyright ttl
             kwargs self',
        SyndicationFeed.add_item self title link description author_email
          author_name author_link pubdate comments unique_id enclosure
          categories item_copyright ttl kwargs = Ok self' ->
        exists stored,
          SyndicationFeed.items self' = SyndicationFeed.items self ++ [stored]
          /\ quote_iri link = Ok (i_link stored)
          /\ percent_encoded (i_link stored) = true
          /\ i_pubdate stored = pubdate
          /\ i_unique_id stored = unique_id).
Proof.
  split; [| split; [| split]].
  - intros uid Hu. apply atom_entry_id. now rewrite Hu.
  - intros tag Hu Ht. apply atom_entry_id. now rewrite Hu.
  - intros e Hu Ht. unfold Atom1Feed.add_item_elements. rewrite Hu, Ht.
    eapply fails_without_after; [silent_tac |].
    eapply fails_without_after; [silent_tac |].
    eapply fails_without_after; [silent_tac |].
    eapply fails_without_after; [silent_tac |].
    apply fails_without_raise.
  - intros self title link description author_email author_name author_link
      pubdate comments unique_id enclosure categories item_copyright ttl
      kwargs self' H.
    unfold SyndicationFeed.add_item in H. rewrite !to_unicode_ok in H.
    destruct (map_result to_unicode categories) as [cs |]; cbn in H; [| discriminate].
    destruct (force_ttl ttl) as [ttl' |]; cbn in H; [| discriminate].
    destruct (quote_iri link) as [u |] eqn:El; cbn in H; [| discriminate].
    destruct (iri_to_uri author_link) as [al |]; cbn in H; [| discriminate].
    inversion H; subst. cbn. eexists. split; [reflexivity |]. cbn.
    split; [reflexivity |]. split; [eapply quote_iri_encoded; eassumption |].
    auto.
Qed.

Lemma atom_entry_id_element_witness :
  writes_one (Atom1Feed.add_item_elements item_with_id) (lit "id") (lit "urn:i<1>")
  /\ writes_one (Atom1Feed.add_item_elements item_without_id) (lit "id")
       (lit "tag:x,2009-01-01:/i/").
Proof.
  split.
  - exact (proj1 (atom_entry_id_element item_with_id) (lit "urn:i<1>") eq_refl).
  - exact (proj1 (proj2 (atom_entry_id_element item_without_id))
             (lit "tag:x,2009-01-01:/i/") eq_refl eq_refl).
Defined.

(** C9, as the code has it.  After construction the [link], the
    [author_link] and the [feed_url] of the feed hold what [iri_to_uri]
    returned for the arguments: [None] or a percent-encoded string, which
    encoding again would not change.  The identifier of the feed is stored
    as it was given: [feed_guid] when it is not empty, otherwise the [link]
    argument itself, not its percent-encoded form. *)
Theorem feed_uris_stored_encoded
  (title : option str) (link : str) (description : option str)
  (language author_email author_name author_link subtitle : option str)
  (categories : option (list (option str)))
  (feed_url feed_copyright feed_guid ttl : option str)
  (kwargs : list (string * option str)) (self : SyndicationFeed.t) :
  SyndicationFeed.init title link description language author_email author_name
    author_link subtitle categories feed_url feed_copyright feed_guid ttl kwargs
  = Ok self ->
  let feed := SyndicationFeed.feed self in
  quote_iri link = Ok (f_link feed)
  /\ percent_encoded (f_link feed) = true
  /\ quote_iri (f_link feed) = Ok (f_link feed)
  /\ iri_to_uri author_link = Ok (f_author_link feed)
  /\ stored_encoded (f_author_link feed)
  /\ iri_to_uri feed_url = Ok (f_feed_url feed)
  /\ stored_encoded (f_feed_url feed)
  /\ (kw_get "id" kwargs = None ->
      f_id feed = if truthy_opt feed_guid then feed_guid else Some link).
Proof.
  intros H. cbv zeta. unfold SyndicationFeed.init in H.
  rewrite !to_unicode_ok in H.
  match type of H with
  | rbind ?c _ = _ => destruct c as [cats |]; cbn [rbind] in H; [| discriminate]
  end.
  destruct (force_ttl ttl) as [ttl' |]; cbn [rbind] in H; [| discriminate].
  destruct (quote_iri link) as [l |] eqn:El; cbn [rbind] in H; [| discriminate].
  destruct (iri_to_uri author_link) as [al |] eqn:Ea; cbn [rbind] in H;
    [| discriminate].
  destruct (iri_to_uri feed_url) as [fu |] eqn:Ef; cbn [rbind] in H;
    [| discriminate].
  inversion H; subst; clear H. cbn.
  pose proof (quote_iri_encoded link l El) as Hl.
  repeat split; auto.
  - apply quote_iri_percent_encoded, Hl.
  - eapply iri_to_uri_encoded, Ea.
  - eapply iri_to_uri_encoded, Ef.
  - intros ->. reflexivity.
Qed.

Lemma feed_uris_stored_encoded_witness :
  exists self,
    SyndicationFeed.init (Some (lit "T")) (lit "http://x/a b") (Some (lit "D"))
      None None None (Some (lit "http://x/me?")) None None
      (Some ([233] ++ lit "/feed")) None (Some (lit "urn:feed")) None [] = Ok self
    /\ f_link (SyndicationFeed.feed self) = lit "http://x/a%20b"
    /\ percent_encoded (f_link (SyndicationFeed.feed self)) = true
    /\ f_feed_url (SyndicationFeed.feed self) = Some (lit "%C3%A9/feed")
    /\ f_id (SyndicationFeed.feed self) = Some (lit "urn:feed").
Proof.
  eexists. split; [vm_compute; reflexivity |].
  pose proof (feed_uris_stored_encoded (Some (lit "T")) (lit "http://x/a b")
                (Some (lit "D")) None None None (Some (lit "http://x/me?")) None
                None (Some ([233] ++ lit "/feed")) None (Some (lit "urn:feed"))
                None [] _ eq_refl) as (Hl & Hp & _ & _ & _ & Hf & _ & Hid).
  split; [reflexivity |]. split; [exact Hp |].
  split; [reflexivity |]. exact (Hid eq_refl).
Defined.

(** C9, counterexample to the claim as stated: a feed built without
    [feed_guid] from a link with a space.  The stored [link] is
    percent-encoded; the stored identifier is the link as it was given, and
    it is not. *)
Lemma feed_id_stored_unencoded :
  exists self,
    SyndicationFeed.init (Some (lit "T")) (lit "http://x/a b") (Some (lit "D"))
      None None None None None None None None None None [] = Ok self
    /\ f_link (SyndicationFeed.feed self) = lit "http://x/a%20b"
    /\ f_id (SyndicationFeed.feed self) = Some (lit "http://x/a b")
    /\ percent_encoded (lit "http://x/a b") = false.
Proof.
  eexists. split; [vm_compute; reflexivity |].
  repeat split; reflexivity.
Qed.

Lemma rss091_item_elements_witness :
  ~ In (lit "author")
       (start_names
          (quick_calls (lit "title") (i_title item_with_id) []
           ++ quick_calls (lit "link") (Some (i_link item_with_id)) []
           ++ match i_description item_with_id with
              | Some d => quick_calls (lit "description") (Some d) []
              | None => []
              end)).
Proof.
  apply (proj2 (proj2 (rss091_item_elements item_with_id)) (lit "author")).
  left. reflexivity.
Defined.

(* ================================================================== *)
(** * Further properties of the code *)

(** ** Text/URI normalizer *)

Lemma utf8_encode_cp_raise (c : Z) (e : exn) :
  utf8_encode_cp c = Raise e -> e = UnicodeEncodeError /\ unencodable_cp c = true.
Proof.
  unfold utf8_encode_cp, unencodable_cp.
  destruct (is_code_point c); cbn [negb orb].
  - destruct (c <? 128); [discriminate |].
    destruct (c <? 2048); [discriminate |].
    destruct (is_surrogate c); [| destruct (c <? 65536); discriminate].
    intros H; inversion H; auto.
  - intros H; inversion H; auto.
Qed.

Lemma utf8_encode_cp_unencodable (c : Z) :
  unencodable_cp c = true -> utf8_encode_cp c = Raise UnicodeEncodeError.
Proof.
  intros H. destruct (utf8_encode_cp c) as [b |] eqn:E.
  - apply utf8_encode_cp_ok in E as [E1 E2].
    unfold unencodable_cp in H. rewrite E1, E2 in H. discriminate.
  - apply utf8_encode_cp_raise in E as [-> _]. reflexivity.
Qed.

Lemma str_encode_utf8_raise_iff (s : str) :
  str_encode_utf8 s = Raise UnicodeEncodeError <-> existsb unencodable_cp s = true.
Proof.
  induction s as [| c s IH]; cbn.
  - split; discriminate.
  - destruct (utf8_encode_cp c) as [b |] eqn:Ec; cbn.
    + apply utf8_encode_cp_ok in Ec as [E1 E2].
      unfold unencodable_cp at 1. rewrite E1, E2. cbn.
      destruct (str_encode_utf8 s) as [bs |]; cbn.
      * split; [discriminate |]. intros H. apply IH in H. discriminate.
      * rewrite <- IH. destruct e; split; intros H; try discriminate; auto.
    + apply utf8_encode_cp_raise in Ec as [-> Hc]. rewrite Hc. cbn. tauto.
Qed.

Lemma str_encode_utf8_raise (s : str) (e : exn) :
  str_encode_utf8 s = Raise e -> e = UnicodeEncodeError.
Proof.
  induction s as [| c s IH]; cbn; [discriminate |].
  destruct (utf8_encode_cp c) as [b |] eqn:Ec; cbn.
  - destruct (str_encode_utf8 s) as [bs |]; cbn; [discriminate |].
    intros H; inversion H; subst. apply IH. reflexivity.
  - intros H; inversion H; subst. eapply utf8_encode_cp_raise, Ec.
Qed.

Lemma quote_iri_raise (s : str) (e : exn) :
  quote_iri s = Raise e -> e = UnicodeEncodeError.
Proof.
  unfold quote_iri, smart_str.
  destruct (str_encode_utf8 s) as [bs |] eqn:E; cbn; [discriminate |].
  intros H; inversion H; subst. eapply str_encode_utf8_raise, E.
Qed.

Lemma quote_iri_raise_iff (s : str) :
  quote_iri s = Raise UnicodeEncodeError <-> existsb unencodable_cp s = true.
Proof.
  rewrite <- str_encode_utf8_raise_iff. unfold quote_iri, smart_str.
  destruct (str_encode_utf8 s); cbn; split; intros H; try discriminate; auto.
Qed.

(** X1.  [iri_to_uri] is idempotent: applied to what it returned, it
    returns the same value.  A percent sign is kept, so that a value that
    is already encoded is not encoded twice. *)
Theorem iri_to_uri_idempotent (iri u : option str) :
  iri_to_uri iri = Ok u -> iri_to_uri u = Ok u.
Proof.
  intros H. pose proof (iri_to_uri_encoded iri u H) as Hu.
  destruct u as [u |]; [| reflexivity].
  cbn in Hu |- *. now rewrite (quote_iri_percent_encoded u Hu).
Qed.

Lemma iri_to_uri_idempotent_witness :
  iri_to_uri (Some (lit "http://x/a b%20c" ++ [233]))
    = Ok (Some (lit "http://x/a%20b%20c%C3%A9"))
  /\ iri_to_uri (Some (lit "http://x/a%20b%20c%C3%A9"))
     = Ok (Some (lit "http://x/a%20b%20c%C3%A9")).
Proof.
  split; [reflexivity |].
  exact (iri_to_uri_idempotent (Some (lit "http://x/a b%20c" ++ [233])) _ eq_refl).
Defined.

(** X2.  [iri_to_uri] raises on a string exactly when the string holds a
    code point that strict UTF-8 cannot encode (a surrogate), and the
    exception is then [UnicodeEncodeError]; on every other string it
    returns a string. *)
Theorem iri_to_uri_raises_iff (s : str) :
  (iri_to_uri (Some s) = Raise UnicodeEncodeError
   <-> exists c, In c s /\ unencodable_cp c = true)
  /\ (forall e, iri_to_uri (Some s) = Raise e -> e = UnicodeEncodeError)
  /\ ((forall c, In c s -> unencodable_cp c = false) ->
      exists u, iri_to_uri (Some s) = Ok (Some u)).
Proof.
  assert (Hq : forall r, iri_to_uri (Some s) = Raise r <-> quote_iri s = Raise r).
  { intros r. cbn. destruct (quote_iri s); cbn; split; intros H;
      try discriminate; inversion H; reflexivity. }
  split; [| split].
  - rewrite Hq, quote_iri_raise_iff, existsb_exists. tauto.
  - intros e He. apply Hq in He. eapply quote_iri_raise, He.
  - intros Hall. cbn. destruct (quote_iri s) as [u |] eqn:E; cbn; [eauto |].
    pose proof (quote_iri_raise s e E); subst.
    apply quote_iri_raise_iff, existsb_exists in E as (c & Hc & Hu).
    rewrite (Hall c Hc) in Hu. discriminate.
Qed.

Lemma iri_to_uri_raises_iff_witness :
  iri_to_uri (Some (lit "a" ++ [56320] ++ lit "b")) = Raise UnicodeEncodeError
  /\ exists u, iri_to_uri (Some (lit "a b")) = Ok (Some u).
Proof.
  split.
  - apply (proj1 (iri_to_uri_raises_iff (lit "a" ++ [56320] ++ lit "b"))).
    exists 56320. split; [right; left; reflexivity | reflexivity].
  - apply (proj2 (proj2 (iri_to_uri_raises_iff (lit "a b")))).
    intros c Hc. cbn in Hc. destruct Hc as [<- | [<- | [<- | []]]]; reflexivity.
Defined.

(** X3.  [iri_to_uri] goes through concatenation: the encoding of [a + b]
    is the encoding of [a] followed by the encoding of [b], and it raises
    when one of the two does. *)
Theorem iri_to_uri_concat (a b : str) :
  quote_iri (a ++ b)
  = (try u <- quote_iri a; try v <- quote_iri b; Ok (u ++ v)).
Proof.
  destruct (quote_iri a) as [u | ea] eqn:Ea; cbn.
  - destruct (quote_iri b) as [v | eb] eqn:Eb; cbn.
    + apply quote_iri_app; assumption.
    + pose proof (quote_iri_raise b eb Eb); subst.
      apply quote_iri_raise_iff. rewrite existsb_app.
      apply quote_iri_raise_iff in Eb. rewrite Eb. apply orb_true_r.
  - pose proof (quote_iri_raise a ea Ea); subst.
    apply quote_iri_raise_iff. rewrite existsb_app.
    apply quote_iri_raise_iff in Ea. rewrite Ea. reflexivity.
Qed.

Lemma utf8_encode_cp_length (c : Z) (b : bytes) :
  utf8_encode_cp c = Ok b -> (1 <= List.length b <= 4)%nat.
Proof.
  unfold utf8_encode_cp.
  destruct (negb (is_code_point c)); [discriminate |].
  destruct (c <? 128); [intros H; inversion H; cbn; lia |].
  destruct (c <? 2048); [intros H; inversion H; cbn; lia |].
  destruct (is_surrogate c); [discriminate |].
  destruct (c <? 65536); intros H; inversion H; cbn; lia.
Qed.

Lemma str_encode_utf8_length (s : str) (bs : bytes) :
  str_encode_utf8 s = Ok bs ->
  (List.length s <= List.length bs <= 4 * List.length s)%nat.
Proof.
  revert bs. induction s as [| c s IH]; cbn; intros bs H.
  - inversion H; cbn; lia.
  - destruct (utf8_encode_cp c) as [b |] eqn:Ec; cbn in H; [| discriminate].
    destruct (str_encode_utf8 s) as [bs' |]; cbn in H; [| discriminate].
    inversion H; subst. rewrite length_app.
    pose proof (utf8_encode_cp_length c b Ec). specialize (IH bs' eq_refl). lia.
Qed.

Lemma quote_length (bs : bytes) (safe : str) :
  (List.length bs <= List.length (quote bs safe) <= 3 * List.length bs)%nat.
Proof.
  induction bs as [| b bs IH]; [cbn; lia |].
  unfold quote in *. cbn [flat_map]. rewrite length_app.
  assert (Hb : (1 <= List.length (quoter safe b) <= 3)%nat).
  { unfold quoter. destruct (always_safe b || mem_chr b safe); cbn; lia. }
  cbn [List.length]. lia.
Qed.

(** X4.  The URI that [iri_to_uri] returns is never shorter than the
    string it was given and at most twelve times as long: a code point is
    one to four bytes in UTF-8 and a byte is one character or [%XX]. *)
Theorem iri_to_uri_length (s u : str) :
  iri_to_uri (Some s) = Ok (Some u) ->
  (List.length s <= List.length u <= 12 * List.length s)%nat.
Proof.
  unfold iri_to_uri, quote_iri, smart_str.
  destruct (str_encode_utf8 s) as [bs |] eqn:E; cbn [rbind]; [| discriminate].
  intros H; inversion H; subst.
  pose proof (str_encode_utf8_length s bs E).
  pose proof (quote_length bs iri_safe). lia.
Qed.

Lemma iri_to_uri_length_witness :
  (List.length [128512; 97]%Z <= List.length (lit "%F0%9F%98%80a")
   <= 12 * List.length [128512; 97]%Z)%nat.
Proof.
  exact (iri_to_uri_length [128512; 97] (lit "%F0%9F%98%80a") eq_refl).
Defined.

(** ** Date formatters *)

Lemma format_d_2_length (n : Z) :
  0 <= n <= 99 -> List.length (format_d false 2 n) = 2%nat.
Proof.
  intros Hn. apply Nat.eqb_eq.
  apply (Z_range_forallb
           (fun n => Nat.eqb (List.length (format_d false 2 n)) 2) 0 100);
    [vm_compute; reflexivity | lia].
Qed.

Lemma format_d_4_length (n : Z) :
  1000 <= n <= 9999 -> List.length (format_d false 4 n) = 4%nat.
Proof.
  intros Hn. apply Nat.eqb_eq.
  apply (Z_range_forallb
           (fun n => Nat.eqb (List.length (format_d false 4 n)) 4) 1000
           (Z.to_nat 9000));
    [vm_compute; reflexivity | rewrite Z2Nat.id; lia].
Qed.

Lemma day_abbr_length (w : Z) :
  0 <= w <= 6 -> List.length (lit (nth (Z.to_nat w) day_abbr ""%string)) = 3%nat.
Proof.
  intros Hw. apply Nat.eqb_eq.
  apply (Z_range_forallb
           (fun w => Nat.eqb (List.length (lit (nth (Z.to_nat w) day_abbr ""%string))) 3)
           0 7); [vm_compute; reflexivity | lia].
Qed.

Lemma month_abbr_length (m : Z) :
  1 <= m <= 12 ->
  List.length (lit (nth (Z.to_nat m) month_abbr ""%string)) = 3%nat.
Proof.
  intros Hm. apply Nat.eqb_eq.
  apply (Z_range_forallb
           (fun m => Nat.eqb (List.length (lit (nth (Z.to_nat m) month_abbr ""%string))) 3)
           1 12); [vm_compute; reflexivity | lia].
Qed.

Lemma strftime_rfc3339_parts (date : datetime) :
  strftime (lit "%Y-%m-%dT%H:%M:%S") date
  = format_d false 4 (year date) ++ lit "-" ++ format_d false 2 (month date)
    ++ lit "-" ++ format_d false 2 (day date) ++ lit "T"
    ++ format_d false 2 (hour date) ++ lit ":" ++ format_d false 2 (minute date)
    ++ lit ":" ++ format_d false 2 (second date).
Proof. cbn. now rewrite app_nil_r. Qed.

Lemma strftime_rfc2822_parts (date : datetime) :
  strftime (lit "%a, %d %b %Y %H:%M:%S ") date
  = lit (nth (Z.to_nat (weekday date)) day_abbr ""%string) ++ lit ", "
    ++ format_d false 2 (day date) ++ lit " "
    ++ lit (nth (Z.to_nat (month date)) month_abbr ""%string) ++ lit " "
    ++ format_d false 4 (year date) ++ lit " "
    ++ format_d false 2 (hour date) ++ lit ":" ++ format_d false 2 (minute date)
    ++ lit ":" ++ format_d false 2 (second date) ++ lit " ".
Proof. reflexivity. Qed.

Lemma strftime_rfc3339_length (date : datetime) :
  calendar_date date ->
  List.length (strftime (lit "%Y-%m-%dT%H:%M:%S") date) = 19%nat.
Proof.
  intros (Hy & Hm & Hd & Hh & Hmi & Hs). rewrite strftime_rfc3339_parts.
  rewrite !length_app.
  rewrite format_d_4_length by lia. rewrite !format_d_2_length by lia.
  reflexivity.
Qed.

Lemma strftime_rfc2822_length (date : datetime) :
  calendar_date date ->
  List.length (strftime (lit "%a, %d %b %Y %H:%M:%S ") date) = 26%nat.
Proof.
  intros (Hy & Hm & Hd & Hh & Hmi & Hs). rewrite strftime_rfc2822_parts.
  rewrite !length_app.
  rewrite day_abbr_length
    by (unfold weekday; pose proof (Z.mod_pos_bound (toordinal date + 6) 7 eq_refl); lia).
  rewrite month_abbr_length by lia.
  rewrite format_d_4_length by lia. rewrite !format_d_2_length by lia.
  reflexivity.
Qed.

(** X5.  On a timestamp of the calendar (four-digit year) both formatters
    have a fixed width: RFC 3339 gives 20 characters for a naive timestamp
    and 25 for an aware one, RFC 2822 gives 31 characters in both cases. *)
Theorem date_formats_fixed_width (date : datetime) :
  calendar_date date ->
  (tzinfo date = None ->
   List.length (rfc3339_date date) = 20%nat
   /\ List.length (rfc2822_date date) = 31%nat)
  /\ (forall offset,
        tzinfo date = Some offset -> utcoffset_in_range offset ->
        List.length (rfc3339_date date) = 25%nat
        /\ List.length (rfc2822_date date) = 31%nat).
Proof.
  intros Hc. pose proof (strftime_rfc3339_length date Hc) as H3.
  pose proof (strftime_rfc2822_length date Hc) as H2. split.
  - intros Htz. unfold rfc3339_date, rfc2822_date. rewrite Htz.
    rewrite strftime_rfc3339_naive, strftime_rfc2822_naive, !length_app, H3, H2.
    split; reflexivity.
  - intros offset Htz Hr.
    rewrite (rfc3339_date_aware date offset Htz Hr).
    rewrite (rfc2822_date_aware date offset Htz Hr).
    rewrite !length_app, H3, H2. split; reflexivity.
Qed.

Lemma date_formats_fixed_width_witness :
  List.length (rfc3339_date noon_pst) = 25%nat
  /\ List.length (rfc2822_date noon_pst) = 31%nat.
Proof.
  refine (proj2 (date_formats_fixed_width noon_pst _)
            (mk_timedelta (-1) 57600 0) eq_refl _).
  - unfold calendar_date; cbn; lia.
  - unfold utcoffset_in_range; cbn; lia.
Defined.

(** X6.  The zone that both formatters write has the sign of the offset,
    an hour [HH] of at most 24 and a minute [MM] of at most 59.  For an
    offset of zero or more, [60 * HH + MM] is the offset in whole minutes.
    For a negative offset the hour is rounded away from zero and the
    minutes count back towards zero, the offset being [-(60 * HH - MM)]
    minutes: an offset of minus thirty minutes is written [-0130]. *)
Theorem zone_of_offset (date : datetime) (offset : timedelta) :
  tzinfo date = Some offset -> utcoffset_in_range offset ->
  let tm := offset_whole_minutes offset in
  exists HH MM,
    0 <= HH <= 24 /\ 0 <= MM <= 59
    /\ rfc2822_date date
       = strftime (lit "%a, %d %b %Y %H:%M:%S ") date
         ++ (if tm <? 0 then 45 else 43) :: two_digits HH ++ two_digits MM
    /\ rfc3339_date date
       = strftime (lit "%Y-%m-%dT%H:%M:%S") date
         ++ (if tm <? 0 then 45 else 43) :: two_digits HH ++ lit ":"
         ++ two_digits MM
    /\ (0 <= tm -> tm = 60 * HH + MM)
    /\ (tm < 0 -> - tm = 60 * HH - MM).
Proof.
  intros Htz Hr. cbv zeta.
  exists (Z.abs (offset_whole_minutes offset / 60)),
         (offset_whole_minutes offset mod 60).
  pose proof (offset_hour_range offset Hr) as Hh.
  pose proof (Z.mod_pos_bound (offset_whole_minutes offset) 60 eq_refl) as Hm.
  pose proof (Z.div_mod (offset_whole_minutes offset) 60 ltac:(lia)) as Hdm.
  assert (Hs : sign_chr (offset_whole_minutes offset / 60)
               = if offset_whole_minutes offset <? 0 then 45 else 43).
  { unfold sign_chr.
    destruct (offset_whole_minutes offset / 60 <? 0) eqn:E1;
      destruct (offset_whole_minutes offset <? 0) eqn:E2; try reflexivity;
      [apply Z.ltb_lt in E1; apply Z.ltb_ge in E2
      | apply Z.ltb_ge in E1; apply Z.ltb_lt in E2]; lia. }
  split; [lia |]. split; [lia |].
  split; [rewrite <- Hs; apply rfc2822_date_aware; assumption |].
  split; [rewrite <- Hs; apply rfc3339_date_aware; assumption |].
  split; intros; lia.
Qed.

Lemma zone_of_offset_witness :
  rfc2822_date (mk_datetime 2009 1 1 12 0 0 0 (Some (mk_timedelta (-1) 84600 0)))
    = lit "Thu, 01 Jan 2009 12:00:00 -0130"
  /\ rfc3339_date (mk_datetime 2009 1 1 12 0 0 0 (Some (mk_timedelta (-1) 84600 0)))
    = lit "2009-01-01T12:00:00-01:30".
Proof.
  destruct (zone_of_offset
              (mk_datetime 2009 1 1 12 0 0 0 (Some (mk_timedelta (-1) 84600 0)))
              (mk_timedelta (-1) 84600 0) eq_refl
              ltac:(unfold utcoffset_in_range; cbn; lia))
    as (HH & MM & H1 & H2 & E2 & E3 & _ & Hneg).
  change (offset_whole_minutes (mk_timedelta (-1) 84600 0)) with (-30) in *.
  assert (HH = 1) by lia. assert (MM = 30) by lia. subst.
  split; [exact E2 | exact E3].
Defined.

(** ** Tag URI generator *)

Lemma mem_chr_app (c : Z) (a b : str) :
  mem_chr c (a ++ b) = mem_chr c a || mem_chr c b.
Proof. unfold mem_chr. apply existsb_app. Qed.









(** X8.  When the URL has no network location (a path such as [/a/b], or
    [mailto:x@y]), the host of the tag is the text [None]: the host name
    of the parse result is [None] and is formatted with [%s]. *)
Theorem get_tag_uri_without_host (url : str) (date : option datetime)
  (r : ParseResult) :
  urlparse url = Ok r -> netloc r = [] ->
  hostname r = None
  /\ get_tag_uri url date
     = Ok (lit "tag:None"
           ++ match date with
              | Some d => lit "," ++ strftime (lit "%Y-%m-%d") d
              | None => []
              end
           ++ lit ":" ++ path r ++ lit "/" ++ fragment r).
Proof.
  intros Hr Hn.
  assert (Hh : hostname r = None) by (unfold hostname; rewrite Hn; reflexivity).
  split; [exact Hh |].
  unfold get_tag_uri. rewrite Hr. cbn [rbind]. rewrite Hh.
  destruct date; list_eq.
Qed.

Lemma get_tag_uri_without_host_witness :
  get_tag_uri (lit "/a/b#c") None = Ok (lit "tag:None:/a/b/c")
  /\ get_tag_uri (lit "mailto:x@y") None = Ok (lit "tag:None:x@y/").
Proof.
  split.
  - exact (proj2 (get_tag_uri_without_host (lit "/a/b#c") None
                    (mk_ParseResult [] [] (lit "/a/b") [] [] (lit "c"))
                    eq_refl eq_refl)).
  - exact (proj2 (get_tag_uri_without_host (lit "mailto:x@y") None
                    (mk_ParseResult (lit "mailto") [] (lit "x@y") [] [] [])
                    eq_refl eq_refl)).
Defined.

(** ** Feed model *)



Lemma map_result_to_unicode (l : list (option str)) :
  map_result to_unicode l = Ok l.
Proof.
  induction l as [| x l IH]; cbn; [reflexivity |].
  rewrite to_unicode_ok, IH. reflexivity.
Qed.

Lemma force_ttl_ok (ttl : option str) : force_ttl ttl = Ok ttl.
Proof. destruct ttl; reflexivity. Qed.

(** X9.  [add_item] appends one item and changes nothing else: the feed
    metadata and the items already there are kept, [num_items] grows by
    one.  The new item holds the [link] and the [author_link]
    percent-encoded and every other argument as it was given, the
    [comments] URI included. *)
Theorem add_item_appends
  (self : SyndicationFeed.t) (title : option str) (link : str)
  (description author_email author_name author_link : option str)
  (pubdate : option datetime) (comments unique_id : option str)
  (enclosure : option Enclosure.t) (categories : list (option str))
  (item_copyright ttl : option str) (kwargs : list (string * option str))
  (self' : SyndicationFeed.t) :
  SyndicationFeed.add_item self title link description author_email author_name
    author_link pubdate comments unique_id enclosure categories item_copyright
    ttl kwargs = Ok self' ->
  SyndicationFeed.feed self' = SyndicationFeed.feed self
  /\ SyndicationFeed.num_items self' = SyndicationFeed.num_items self + 1
  /\ exists link' author_link',
       quote_iri link = Ok link'
       /\ iri_to_uri author_link = Ok author_link'
       /\ SyndicationFeed.items self'
          = SyndicationFeed.items self
            ++ [mk_item title link' description author_email author_name
                  author_link' pubdate comments unique_id enclosure categories
                  item_copyright ttl kwargs].
Proof.
  unfold SyndicationFeed.add_item.
  rewrite map_result_to_unicode, force_ttl_ok, !to_unicode_ok. cbn [rbind].
  destruct (quote_iri link) as [l |]; cbn [rbind]; [| discriminate].
  destruct (iri_to_uri author_link) as [al |]; cbn [rbind]; [| discriminate].
  intros H; inversion H; subst; clear H. cbn.
  split; [reflexivity |]. split.
  - unfold SyndicationFeed.num_items. cbn. rewrite length_app. cbn. lia.
  - exists l, al. auto.
Qed.

Lemma add_item_appends_witness :
  exists self',
    SyndicationFeed.add_item scenario_stored (Some (lit "J")) (lit "http://x/j k")
      None None None (Some (lit "http://x/me?")) None (Some (lit "http://x/c d"))
      None None [None] None None [] = Ok self'
    /\ SyndicationFeed.num_items self' = 2
    /\ SyndicationFeed.feed self' = SyndicationFeed.feed scenario_stored.
Proof.
  eexists. split; [vm_compute; reflexivity |].
  destruct (add_item_appends scenario_stored (Some (lit "J")) (lit "http://x/j k")
              None None None (Some (lit "http://x/me?")) None
              (Some (lit "http://x/c d")) None None [None] None None [] _ eq_refl)
    as (Hf & Hn & _).
  split; [exact Hn | exact Hf].
Defined.






(** ** Latest post date *)

Lemma insort_Permutation (x : datetime) (sorted r : list datetime) :
  insort x sorted = Ok r -> Permutation (x :: sorted) r.
Proof.
  revert r. induction sorted as [| y rest IH]; cbn; intros r H.
  - inversion H. reflexivity.
  - destruct (datetime_lt x y) as [b |]; cbn in H; [| discriminate].
    destruct b; [inversion H; reflexivity |].
    destruct (insort x rest) as [r' |]; cbn in H; [| discriminate].
    inversion H; subst.
    eapply perm_trans; [apply perm_swap | apply perm_skip, IH; reflexivity].
Qed.

Lemma sort_into_Permutation (l acc r : list datetime) :
  sort_into acc l = Ok r -> Permutation (acc ++ l) r.
Proof.
  revert acc. induction l as [| x l IH]; cbn; intros acc H.
  - inversion H. now rewrite app_nil_r.
  - destruct (insort x acc) as [acc' |] eqn:E; cbn in H; [| discriminate].
    eapply perm_trans; [| apply IH, H].
    eapply perm_trans; [apply Permutation_sym, Permutation_middle |].
    change (x :: acc ++ l) with ((x :: acc) ++ l).
    apply Permutation_app_tail, insort_Permutation, E.
Qed.

Lemma last_default {A} (l : list A) (d d' : A) : l <> [] -> last l d = last l d'.
Proof.
  induction l as [| x l IH]; [congruence |]. intros _.
  destruct l as [| y l']; [reflexivity |].
  change (last (y :: l') d = last (y :: l') d'). apply IH. discriminate.
Qed.

(** X12.  [latest_post_date] falls back on the current time only when no
    item has a pubdate: with no pubdate it returns the current time, and
    as soon as an item has one its result, value or exception, does not
    depend on the current time. *)
Theorem latest_post_date_now (self : SyndicationFeed.t) :
  (pubdates (SyndicationFeed.items self) = [] ->
   forall now, SyndicationFeed.latest_post_date now self = Ok now)
  /\ (pubdates (SyndicationFeed.items self) <> [] ->
      forall now now',
        SyndicationFeed.latest_post_date now self
        = SyndicationFeed.latest_post_date now' self).
Proof.
  unfold SyndicationFeed.latest_post_date.
  fold (pubdates (SyndicationFeed.items self)).
  destruct (pubdates (SyndicationFeed.items self)) as [| u us] eqn:Eu.
  - split; [reflexivity | congruence].
  - split; [discriminate |]. intros _ now now'.
    replace (0 <? Z.of_nat (List.length (u :: us))) with true
      by (symmetry; apply Z.ltb_lt; cbn [List.length]; lia).
    destruct (list_sort (u :: us)) as [r |] eqn:Er; cbn [rbind]; [| reflexivity].
    f_equal. apply last_default.
    apply sort_into_Permutation in Er. cbn [app] in Er.
    intros ->. apply Permutation_sym, Permutation_nil in Er. discriminate.
Qed.

Lemma latest_post_date_now_witness :
  SyndicationFeed.latest_post_date noon_naive
    (SyndicationFeed.mk empty_feed_dict []) = Ok noon_naive
  /\ SyndicationFeed.latest_post_date noon_naive
       (SyndicationFeed.mk empty_feed_dict (three_items noon_pst noon_utc))
     = SyndicationFeed.latest_post_date noon_utc
         (SyndicationFeed.mk empty_feed_dict (three_items noon_pst noon_utc)).
Proof.
  split.
  - exact (proj1 (latest_post_date_now (SyndicationFeed.mk empty_feed_dict []))
             eq_refl noon_naive).
  - apply (proj2 (latest_post_date_now
                    (SyndicationFeed.mk empty_feed_dict
                       (three_items noon_pst noon_utc)))).
    discriminate.
Defined.

Lemma mixedb_mixed (l : list datetime) : mixedb l = true <-> mixed l.
Proof.
  unfold mixedb, mixed. rewrite andb_true_iff, !existsb_exists. split.
  - intros [(a & Ha & Ka) (b & Hb & Kb)]. exists a, b.
    unfold awareb in *. destruct (tzinfo a), (tzinfo b); cbn in *;
      try discriminate. repeat split; auto. discriminate.
  - intros (a & b & Ha & Hb & Ka & Kb). split; [exists a | exists b];
      (split; [assumption |]); unfold awareb.
    + now rewrite Ka.
    + destruct (tzinfo b); [reflexivity | congruence].
Qed.

Lemma not_mixedb_comparable (l : list datetime) :
  mixedb l = false -> comparable l.
Proof.
  intros H a b Ha Hb. unfold same_kind. fold (awareb a) (awareb b).
  destruct (awareb a) eqn:Ka, (awareb b) eqn:Kb; try reflexivity; exfalso.
  - assert (mixedb l = true); [| congruence].
    unfold mixedb. apply andb_true_intro. split; apply existsb_exists;
      [exists b | exists a]; split; auto. now rewrite Kb.
  - assert (mixedb l = true); [| congruence].
    unfold mixedb. apply andb_true_intro. split; apply existsb_exists;
      [exists a | exists b]; split; auto. now rewrite Ka.
Qed.

Lemma datetime_lt_other_kind (a b : datetime) :
  awareb a <> awareb b -> datetime_lt a b = Raise TypeError.
Proof.
  unfold awareb, datetime_lt. destruct (tzinfo a), (tzinfo b); cbn;
    congruence.
Qed.

Lemma datetime_lt_raise (a b : datetime) (e : exn) :
  datetime_lt a b = Raise e -> e = TypeError.
Proof.
  unfold datetime_lt. destruct (tzinfo a), (tzinfo b); intros H;
    inversion H; reflexivity.
Qed.

Lemma insort_raise (x : datetime) (sorted : list datetime) (e : exn) :
  insort x sorted = Raise e -> e = TypeError.
Proof.
  induction sorted as [| y rest IH]; cbn; [discriminate |].
  destruct (datetime_lt x y) as [b |] eqn:E; cbn.
  - destruct b; [discriminate |].
    destruct (insort x rest); cbn; [discriminate |].
    intros H; inversion H; subst. apply IH. reflexivity.
  - intros H; inversion H; subst. eapply datetime_lt_raise, E.
Qed.

Lemma sort_into_raise (l acc : list datetime) (e : exn) :
  sort_into acc l = Raise e -> e = TypeError.
Proof.
  revert acc. induction l as [| x l IH]; cbn; intros acc; [discriminate |].
  destruct (insort x acc) as [acc' |] eqn:E; cbn.
  - apply IH.
  - intros H; inversion H; subst. eapply insort_raise, E.
Qed.

Lemma insort_same_kind (x : datetime) (s : list datetime) :
  (forall a, In a s -> same_kind x a) -> exists r, insort x s = Ok r.
Proof.
  induction s as [| w s IH]; cbn; intros Hs; [eauto |].
  rewrite (datetime_lt_same_kind x w) by (apply Hs; left; reflexivity).
  cbn. destruct (utc_key x <? utc_key w); [eauto |].
  destruct IH as (r & ->); [intros a Ha; apply Hs; right; exact Ha |].
  cbn. eauto.
Qed.

(** Sorting raises as soon as an element is of another kind than the part
    already sorted. *)
Lemma sort_into_mixed (l : list datetime) (y : datetime) (acc : list datetime) :
  (forall a, In a (y :: acc) -> awareb a = awareb y) ->
  (exists z, In z l /\ awareb z <> awareb y) ->
  forall acc', Permutation (y :: acc) acc' ->
  sort_into acc' l = Raise TypeError.
Proof.
  revert acc. induction l as [| x l IH]; intros acc Hk (z & Hz & Kz) acc' Hp.
  - destruct Hz.
  - cbn. destruct (Bool.bool_dec (awareb x) (awareb y)) as [Kx | Kx].
    + assert (Hc : forall a, In a acc' -> same_kind x a).
      { intros a Ha. unfold same_kind. fold (awareb x) (awareb a).
        rewrite Kx. symmetry. apply Hk.
        eapply Permutation_in; [apply Permutation_sym, Hp | exact Ha]. }
      destruct (insort x acc') as [acc'' |] eqn:E; cbn.
      * destruct Hz as [-> | Hz]; [congruence |].
        apply (IH (x :: acc)).
        -- intros a [<- | Ha]; [reflexivity |]. destruct Ha as [<- | Ha];
             [exact Kx | apply Hk; right; exact Ha].
        -- exists z. auto.
        -- apply insort_Permutation in E.
           eapply perm_trans; [| exact E].
           eapply perm_trans; [apply perm_swap | apply perm_skip, Hp].
      * destruct (insort_same_kind x acc' Hc) as (r & Hr). congruence.
    + destruct acc' as [| w acc'']; [apply Permutation_sym, Permutation_nil in Hp;
                                       discriminate |].
      assert (Kw : awareb w = awareb y).
      { apply Hk. eapply Permutation_in; [apply Permutation_sym, Hp | left; reflexivity]. }
      cbn. rewrite datetime_lt_other_kind by congruence. reflexivity.
Qed.

Lemma list_sort_mixed (l : list datetime) :
  mixed l -> list_sort l = Raise TypeError.
Proof.
  intros Hm. apply mixedb_mixed in Hm.
  destruct l as [| y l]; [discriminate |].
  unfold list_sort. cbn [sort_into insort rbind].
  apply (sort_into_mixed l y []); [| | reflexivity].
  - intros a [<- | []]. reflexivity.
  - unfold mixedb in Hm. apply andb_prop in Hm as [Hn Ha].
    apply existsb_exists in Hn as (n & Hn & Kn).
    apply existsb_exists in Ha as (a & Ha & Ka).
    destruct (awareb y) eqn:Ky.
    + exists n. destruct Hn as [<- | Hn].
      * rewrite Ky in Kn. discriminate.
      * split; [exact Hn |]. destruct (awareb n); [discriminate | congruence].
    + exists a. destruct Ha as [<- | Ha]; [congruence |].
      split; [exact Ha | congruence].
Qed.

(** X13.  [latest_post_date] raises exactly when the pubdates of the items
    hold both a naive and an aware timestamp, and then with [TypeError]
    (the list cannot be sorted); in every other case it returns. *)
Theorem latest_post_date_raises_iff (now : datetime) (self : SyndicationFeed.t) :
  (SyndicationFeed.latest_post_date now self = Raise TypeError
   <-> mixed (pubdates (SyndicationFeed.items self)))
  /\ (forall e, SyndicationFeed.latest_post_date now self = Raise e ->
      e = TypeError)
  /\ (~ mixed (pubdates (SyndicationFeed.items self)) ->
      exists d, SyndicationFeed.latest_post_date now self = Ok d).
Proof.
  unfold SyndicationFeed.latest_post_date.
  fold (pubdates (SyndicationFeed.items self)).
  set (updates := pubdates (SyndicationFeed.items self)).
  destruct updates as [| u us] eqn:Eu.
  - cbn. split; [| split].
    + split; [discriminate |]. intros (a & _ & [] & _).
    + discriminate.
    + eauto.
  - replace (0 <? Z.of_nat (List.length (u :: us))) with true
      by (symmetry; apply Z.ltb_lt; cbn [List.length]; lia).
    destruct (mixedb (u :: us)) eqn:Em.
    + pose proof (proj1 (mixedb_mixed _) Em) as Hm.
      rewrite (list_sort_mixed _ Hm). cbn [rbind].
      split; [tauto |]. split; [intros e H; inversion H; reflexivity | tauto].
    + destruct (list_sort_sorted _ (not_mixedb_comparable _ Em)) as (r & -> & _).
      cbn [rbind]. split; [| split].
      * split; [discriminate |]. intros Hm. apply mixedb_mixed in Hm. congruence.
      * discriminate.
      * eauto.
Qed.

Lemma latest_post_date_raises_iff_witness :
  SyndicationFeed.latest_post_date noon_utc
    (SyndicationFeed.mk empty_feed_dict (three_items noon_naive noon_pst))
  = Raise TypeError.
Proof.
  apply (proj1 (latest_post_date_raises_iff noon_utc
                  (SyndicationFeed.mk empty_feed_dict
                     (three_items noon_naive noon_pst)))).
  exists noon_naive, noon_pst. cbn.
  repeat split; auto. discriminate.
Defined.

(** ** XML emission helper *)

Lemma escape_cons (c : Z) (s : str) :
  escape (c :: s) = escape_chr c ++ escape s.
Proof. reflexivity. Qed.

Lemma unescape_fuel_entity (entity : str) (c : Z) (f : nat) (rest : str) :
  (entity = lit "&amp;" /\ c = 38) \/ (entity = lit "&lt;" /\ c = 60)
  \/ (entity = lit "&gt;" /\ c = 62) ->
  unescape_fuel (S f) (entity ++ rest) = c :: unescape_fuel f rest.
Proof.
  intros [[-> ->] | [[-> ->] | [-> ->]]]; reflexivity.
Qed.

Lemma unescape_fuel_plain (c : Z) (f : nat) (rest : str) :
  (c =? 38) = false ->
  unescape_fuel (S f) (c :: rest) = c :: unescape_fuel f rest.
Proof.
  intros E. cbn [unescape_fuel strip_prefix lit map list_ascii_of_string].
  change (Z.of_N (N_of_ascii "&"%char)) with 38.
  now rewrite (Z.eqb_sym 38 c), E.
Qed.

Lemma unescape_fuel_escape (s : str) :
  forall fuel, (List.length (escape s) <= fuel)%nat ->
  unescape_fuel fuel (escape s) = s.
Proof.
  induction s as [| c s IH]; intros fuel Hf.
  - destruct fuel; reflexivity.
  - rewrite escape_cons in *. rewrite length_app in Hf.
    unfold escape_chr in *.
    destruct (c =? 38) eqn:E1.
    { apply Z.eqb_eq in E1; subst.
      change (List.length (lit "&amp;")) with 5%nat in Hf.
      destruct fuel as [| f]; [lia |].
      rewrite (unescape_fuel_entity _ 38) by tauto. f_equal. apply IH. lia. }
    destruct (c =? 62) eqn:E2.
    { apply Z.eqb_eq in E2; subst.
      change (List.length (lit "&gt;")) with 4%nat in Hf.
      destruct fuel as [| f]; [lia |].
      rewrite (unescape_fuel_entity _ 62) by tauto. f_equal. apply IH. lia. }
    destruct (c =? 60) eqn:E3.
    { apply Z.eqb_eq in E3; subst.
      change (List.length (lit "&lt;")) with 4%nat in Hf.
      destruct fuel as [| f]; [lia |].
      rewrite (unescape_fuel_entity _ 60) by tauto. f_equal. apply IH. lia. }
    change (List.length [c]) with 1%nat in Hf.
    destruct fuel as [| f]; [lia |].
    change ([c] ++ escape s) with (c :: escape s).
    rewrite unescape_fuel_plain by exact E1. f_equal. apply IH. lia.
Qed.

Lemma escape_no_markup (s : str) :
  mem_chr 60 (escape s) = false /\ mem_chr 62 (escape s) = false.
Proof.
  induction s as [| c s [IH1 IH2]]; [split; reflexivity |].
  rewrite escape_cons, !mem_chr_app, IH1, IH2.
  unfold escape_chr.
  destruct (c =? 38); [split; reflexivity |].
  destruct (c =? 62) eqn:E2; [split; reflexivity |].
  destruct (c =? 60) eqn:E3; [split; reflexivity |].
  unfold mem_chr. cbn [existsb].
  rewrite (Z.eqb_sym 60 c), (Z.eqb_sym 62 c), E2, E3.
  split; reflexivity.
Qed.

(** X14.  The character data of an element is written escaped: the text
    written holds neither [<] nor [>], and reading the entities [&amp;],
    [&lt;] and [&gt;] back gives the content again, so that two contents
    are written alike only when they are equal. *)
Theorem characters_escaped (content : str) :
  runs (characters content) tt (escape content) [Characters content]
  /\ mem_chr 60 (escape content) = false
  /\ mem_chr 62 (escape content) = false
  /\ unescape (escape content) = content
  /\ (forall other, escape other = escape content -> other = content).
Proof.
  split; [apply runs_characters |].
  destruct (escape_no_markup content) as [H1 H2].
  assert (Hu : forall s, unescape (escape s) = s)
    by (intros s; apply unescape_fuel_escape; lia).
  repeat split; auto.
  intros other H. rewrite <- (Hu other), H. apply Hu.
Qed.

Lemma characters_escaped_witness :
  escape (lit "a<b & c>d &lt;") = lit "a&lt;b &amp; c&gt;d &amp;lt;"
  /\ unescape (lit "a&lt;b &amp; c&gt;d &amp;lt;") = lit "a<b & c>d &lt;".
Proof.
  split; [reflexivity |].
  exact (proj1 (proj2 (proj2 (proj2 (characters_escaped (lit "a<b & c>d &lt;")))))).
Defined.

Lemma flat_map_no_chr (d : Z) (f : Z -> str) (s : str) :
  (forall c, In c s -> mem_chr d (f c) = false) ->
  mem_chr d (flat_map f s) = false.
Proof.
  induction s as [| c s IH]; intros H; [reflexivity |].
  cbn [flat_map]. rewrite mem_chr_app, (H c (or_introl eq_refl)), IH;
    [reflexivity |]. intros c' Hc'. apply H. right. exact Hc'.
Qed.

Lemma mem_chr_false_iff (d : Z) (s : str) :
  mem_chr d s = false <-> ~ In d s.
Proof.
  unfold mem_chr. split.
  - intros H Hin. assert (existsb (Z.eqb d) s = true); [| congruence].
    apply existsb_exists. exists d. split; [exact Hin | apply Z.eqb_refl].
  - intros H. destruct (existsb (Z.eqb d) s) eqn:E; [| reflexivity].
    apply existsb_exists in E as (x & Hx & Ex). apply Z.eqb_eq in Ex. subst.
    contradiction.
Qed.

Lemma quoteattr_chr_clean (d c : Z) :
  In d [60; 10; 13; 9] -> mem_chr d (quoteattr_chr c) = false.
Proof.
  intros Hd. unfold quoteattr_chr, escape_chr.
  destruct (c =? 10) eqn:E10;
    [cbn in Hd; intuition (subst; reflexivity) |].
  destruct (c =? 13) eqn:E13;
    [cbn in Hd; intuition (subst; reflexivity) |].
  destruct (c =? 9) eqn:E9;
    [cbn in Hd; intuition (subst; reflexivity) |].
  destruct (c =? 38) eqn:E38;
    [cbn in Hd; intuition (subst; reflexivity) |].
  destruct (c =? 62) eqn:E62;
    [cbn in Hd; intuition (subst; reflexivity) |].
  destruct (c =? 60) eqn:E60;
    [cbn in Hd; intuition (subst; reflexivity) |].
  unfold mem_chr. cbn [existsb]. rewrite orb_false_r. apply Z.eqb_neq.
  apply Z.eqb_neq in E10, E13, E9, E60.
  cbn in Hd. intuition congruence.
Qed.

(** X15.  An attribute value is written between two quotes of one kind,
    the double or the single quote, and the text between them holds
    neither that quote nor [<], newline, carriage return or tab: a value
    cannot end its attribute or open a tag. *)
Theorem quoteattr_delimited (value : str) :
  exists q body,
    quoteattr value = q :: body ++ [q]
    /\ (q = 34 \/ q = 39)
    /\ ~ In q body
    /\ (forall d, In d [60; 10; 13; 9] -> ~ In d body).
Proof.
  unfold quoteattr.
  set (data := flat_map quoteattr_chr value).
  assert (Hd : forall d, In d [60; 10; 13; 9] -> mem_chr d data = false).
  { intros d Hd. apply flat_map_no_chr. intros c _.
    apply quoteattr_chr_clean, Hd. }
  destruct (mem_chr 34 data) eqn:E34.
  - destruct (mem_chr 39 data) eqn:E39.
    + exists 34, (flat_map (fun c => if c =? 34 then lit "&quot;" else [c]) data).
      split; [reflexivity |]. split; [auto |].
      assert (Hr : forall d, d <> 38 -> ~ In d (lit "&quot;") ->
                   mem_chr d data = false \/ d = 34 ->
                   mem_chr d (flat_map (fun c => if c =? 34 then lit "&quot;" else [c])
                                       data) = false).
      { intros d _ Hq Hdd. clearbody data. clear - Hq Hdd.
        induction data as [| c data IH]; [reflexivity |].
        cbn [flat_map]. rewrite mem_chr_app.
        destruct (c =? 34) eqn:Ec.
        - rewrite (proj2 (mem_chr_false_iff d _) Hq). cbn [orb].
          apply IH. destruct Hdd as [Hdd | ->]; [| auto].
          left. unfold mem_chr in *. cbn [existsb] in Hdd.
          apply orb_false_elim in Hdd. tauto.
        - destruct Hdd as [Hdd | ->].
          + unfold mem_chr in Hdd |- *. cbn [existsb] in Hdd |- *.
            apply orb_false_elim in Hdd as [H1 H2]. rewrite H1. cbn [orb].
            apply IH. left. exact H2.
          + unfold mem_chr at 1. cbn [existsb]. rewrite (Z.eqb_sym 34 c), Ec.
            cbn [orb]. apply IH. auto. }
      split.
      * apply mem_chr_false_iff, Hr; [lia | cbn; intuition discriminate | auto].
      * intros d Hin. apply mem_chr_false_iff, Hr.
        -- cbn in Hin. intuition (subst; discriminate).
        -- cbn in Hin |- *. intuition (subst; discriminate).
        -- left. apply Hd, Hin.
    + exists 39, data. split; [reflexivity |]. split; [auto |].
      split; [apply mem_chr_false_iff, E39 |].
      intros d Hin. apply mem_chr_false_iff, Hd, Hin.
  - exists 34, data. split; [reflexivity |]. split; [auto |].
    split; [apply mem_chr_false_iff, E34 |].
    intros d Hin. apply mem_chr_false_iff, Hd, Hin.
Qed.

Lemma quoteattr_delimited_witness :
  exists q body,
    quoteattr (lit "it's <b>" ++ dq ++ lit "x" ++ dq) = q :: body ++ [q]
    /\ ~ In q body /\ ~ In 60 body.
Proof.
  destruct (quoteattr_delimited (lit "it's <b>" ++ dq ++ lit "x" ++ dq))
    as (q & body & E & _ & Hq & Hd).
  exists q, body. split; [exact E |]. split; [exact Hq |].
  apply Hd. left. reflexivity.
Defined.

Lemma write_attrs_fail (pre : list (str * str)) (n : str)
  (post : list (str * option str)) :
  fails_with (for_each (some_attrs pre ++ (n, None) :: post) write_attr)
             AttributeError (flat_map attr_text pre) [].
Proof.
  induction pre as [| a pre IH].
  - intros h. cbn. unfold mbind, lift. now rewrite push_nil.
  - cbn [some_attrs map app for_each flat_map]. fold (some_attrs pre).
    apply (fails_with_after _ _ tt _ (attr_text a) [] _ []); [| exact IH].
    destruct a as [k v]. cbn. apply runs_write.
Qed.

(** A leaf element with an attribute whose value is [None]. *)
Lemma addQuickElement_None_fails (name : str) (contents : option str)
  (pre : list (str * str)) (n : str) (post : list (str * option str)) :
  fails_with
    (addQuickElement name contents (some_attrs pre ++ (n, None) :: post))
    AttributeError
    (lit "<" ++ name ++ flat_map attr_text pre)
    [StartElement name (some_attrs pre ++ (n, None) :: post)].
Proof.
  unfold addQuickElement, startElement.
  apply fails_with_then. eapply fails_with_eq.
  - eapply fails_with_after; [apply runs_called |].
    eapply fails_with_after; [apply runs_write |].
    apply fails_with_then, write_attrs_fail.
  - reflexivity.
  - reflexivity.
Qed.

(** X16.  [addQuickElement] writes the whole leaf element,
    [<name attrs>text</name>], when every attribute value is a string.
    When an attribute value is [None] it raises [AttributeError] at the
    first such attribute: the start tag is written up to the attributes
    before it and the element is neither filled nor closed. *)
Theorem addQuickElement_attrs (name : str) (contents : option str)
  (pre : list (str * str)) :
  runs (addQuickElement name contents (some_attrs pre)) tt
       (quick_text name contents pre)
       (quick_calls name contents (some_attrs pre))
  /\ forall n post,
       fails_with
         (addQuickElement name contents (some_attrs pre ++ (n, None) :: post))
         AttributeError
         (lit "<" ++ name ++ flat_map attr_text pre)
         [StartElement name (some_attrs pre ++ (n, None) :: post)].
Proof.
  split; [apply runs_addQuickElement |].
  intros n post. apply addQuickElement_None_fails.
Qed.

Lemma uniform_ret {A} (a : A) : uniform (mret a).
Proof.
  intros enc. exists (Ok a), [], []. intros h _. unfold mret.
  now rewrite push_nil.
Qed.

Lemma uniform_lift {A} (r : result A) : uniform (lift r).
Proof.
  intros enc. exists r, [], []. intros h _. unfold lift. now rewrite push_nil.
Qed.

Lemma uniform_runs {A} (m : M A) a text cs : runs m a text cs -> uniform m.
Proof. intros R enc. exists (Ok a), text, cs. intros h _. apply R. Qed.

Lemma uniform_bind {A B} (m : M A) (k : A -> M B) :
  uniform m -> (forall a, uniform (k a)) -> uniform (mbind m k).
Proof.
  intros Hm Hk enc. destruct (Hm enc) as (r & t & c & E).
  destruct r as [a | e].
  - destruct (Hk a enc) as (r' & t' & c' & E').
    exists r', (t ++ t'), (c ++ c'). intros h Hh. unfold mbind.
    rewrite (E h Hh), (E' (push h t c) Hh). now rewrite push_push.
  - exists (Raise e), t, c. intros h Hh. unfold mbind. now rewrite (E h Hh).
Qed.

Lemma uniform_for_each {A} (l : list A) (body : A -> M unit) :
  (forall x, uniform (body x)) -> uniform (for_each l body).
Proof.
  intros H. induction l as [| x l IH]; cbn.
  - apply uniform_ret.
  - apply uniform_bind; [apply H | intros _; exact IH].
Qed.

Lemma uniform_write_attr (a : str * option str) : uniform (write_attr a).
Proof.
  destruct a as [n [v |]]; cbn;
    [eapply uniform_runs, runs_write | apply uniform_lift].
Qed.

Lemma uniform_startElement name attrs : uniform (startElement name attrs).
Proof.
  unfold startElement.
  apply uniform_bind; [eapply uniform_runs, runs_called | intros _].
  apply uniform_bind; [eapply uniform_runs, runs_write | intros _].
  apply uniform_bind; [| intros _; eapply uniform_runs, runs_write].
  apply uniform_for_each, uniform_write_attr.
Qed.

Lemma uniform_addQuickElement name contents attrs :
  uniform (addQuickElement name contents attrs).
Proof.
  unfold addQuickElement.
  apply uniform_bind; [apply uniform_startElement | intros _].
  apply uniform_bind; [| intros _; eapply uniform_runs, runs_endElement].
  destruct contents; [eapply uniform_runs, runs_characters | apply uniform_ret].
Qed.

Lemma uniform_startDocument : uniform startDocument.
Proof.
  intros enc. exists (Ok tt), (xml_declaration enc), [StartDocument].
  intros h <-. unfold startDocument, mbind, called, _write, push. cbn.
  reflexivity.
Qed.

(** Decomposes a computation of the feed classes into uniform steps. *)
Ltac uniform_step :=
  match goal with
  | |- uniform (mbind _ _) => apply uniform_bind; [| intros ?]
  | |- uniform (when _ _) => unfold when
  | |- uniform (for_each _ _) => apply uniform_for_each; intros ?
  | |- uniform (addQuickElement _ _ _) => apply uniform_addQuickElement
  | |- uniform (startElement _ _) => apply uniform_startElement
  | |- uniform (endElement _) => eapply uniform_runs, runs_endElement
  | |- uniform startDocument => apply uniform_startDocument
  | |- uniform (mret _) => apply uniform_ret
  | |- uniform (lift _) => apply uniform_lift
  | |- uniform (match ?o with Some _ => _ | None => _ end) => destruct o
  | |- uniform (if ?b then _ else _) => destruct b
  end.

Ltac uniform_tac := repeat uniform_step.


Lemma atom_write_uniform now self :
  uniform (startDocument ;;
           startElement (lit "feed") (Atom1Feed.root_attributes self) ;;
           Atom1Feed.add_root_elements now self ;;
           Atom1Feed.write_items self ;;
           endElement (lit "feed")).
Proof.
  unfold Atom1Feed.add_root_elements, Atom1Feed.write_items,
    Atom1Feed.add_item_elements.
  uniform_tac.
Qed.


(** X18.  [writeString] of an Atom feed returns the text that [write] adds
    to a file, and raises what [write] raises; [writeString] of an RSS
    feed never returns, as its [write] never does. *)
Theorem writeString_is_write (now : datetime) (self : SyndicationFeed.t)
  (enc : str) :
  (forall text,
     writeString (Atom1Feed.write now self) enc = Ok text ->
     forall outfile, exists cs,
       Atom1Feed.write now self outfile enc
       = (Ok tt, mk_handler (outfile ++ text) enc cs))
  /\ (forall e,
        writeString (Atom1Feed.write now self) enc = Raise e ->
        forall outfile, fst (Atom1Feed.write now self outfile enc) = Raise e)
  /\ (forall cls, exists e,
        writeString (RssFeed.write cls now self) enc = Raise e).
Proof.
  destruct (atom_write_uniform now self enc) as (r & t & c & E).
  assert (Ew : forall outfile,
             Atom1Feed.write now self outfile enc
             = (r, mk_handler (outfile ++ t) enc c))
    by (intros outfile; exact (E (SimplerXMLGenerator.new outfile enc) eq_refl)).
  split; [| split].
  - intros text H outfile. unfold writeString in H. rewrite (Ew []) in H.
    destruct r as [[] | e]; cbn in H; [| discriminate].
    inversion H; subst. exists c. apply Ew.
  - intros e H outfile. unfold writeString in H. rewrite (Ew []) in H.
    destruct r as [[] | e']; cbn in H; [discriminate |].
    inversion H; subst. rewrite Ew. reflexivity.
  - intros cls. destruct (rss_write_never_returns cls now self [] enc) as (e & He).
    exists e. unfold writeString.
    destruct (RssFeed.write cls now self [] enc) as [r' h]. cbn in He. subst.
    reflexivity.
Qed.

Lemma writeString_is_write_witness :
  exists cs,
    Atom1Feed.write noon_naive scenario_stored (lit "old") (lit "utf-8")
    = (Ok tt,
       mk_handler
         (lit "old" ++ xml_declaration (lit "utf-8")
          ++ lit "<feed xmlns=" ++ dq ++ lit "http://www.w3.org/2005/Atom" ++ dq
          ++ lit "><title>T</title><link rel=" ++ dq ++ lit "alternate" ++ dq
          ++ lit " href=" ++ dq ++ lit "http://x/" ++ dq
          ++ lit "></link><id>http://x/</id>"
          ++ lit "<updated>2009-01-01T12:00:00Z</updated>"
          ++ lit "<entry><title>I</title><link href=" ++ dq ++ lit "http://x/i"
          ++ dq ++ lit " rel=" ++ dq ++ lit "alternate" ++ dq
          ++ lit "></link><id>tag:x:/i/</id><summary type=" ++ dq ++ lit "html"
          ++ dq ++ lit ">ID</summary></entry></feed>")
         (lit "utf-8") cs).
Proof.
  refine (proj1 (writeString_is_write noon_naive scenario_stored (lit "utf-8"))
            _ _ (lit "old")).
  vm_compute. reflexivity.
Defined.

Lemma fails_without_first {A B} name (m : M A) (k : A -> M B) e :
  fails_without name m e -> fails_without name (mbind m k) e.
Proof.
  intros H h. destruct (H h) as (t & c & E & N). exists t, c.
  unfold mbind. rewrite E. auto.
Qed.

Lemma silent_addQuickElement_1 name n contents k v :
  str_eqb n name = false ->
  silent name (addQuickElement n contents [(k, Some v)]) tt.
Proof. exact (silent_addQuickElement name n contents [(k, v)]). Qed.

(** Decomposes the start of an RSS 2.0 item. *)
Ltac silent_rss :=
  repeat first
    [ silent_step
    | apply silent_addQuickElement_1; reflexivity
    | match goal with
      | |- silent _ (if ?b then _ else _) _ => destruct b
      end ].

(** X19.  An RSS 2.0 item that has a pubdate cannot be written:
    [add_item_elements] raises [AttributeError] when it decodes the
    formatted date, after the author and before it opens [pubDate]; none
    of [pubDate], [comments], [guid], [ttl], [enclosure] and [category] is
    written. *)
Theorem rss2_item_with_pubdate_raises (item : item) (pubdate : datetime) :
  i_pubdate item = Some pubdate ->
  forall name,
    In name (map lit ["pubDate"; "comments"; "guid"; "ttl"; "enclosure";
                      "category"]%string) ->
    fails_without name (Rss201rev2Feed.add_item_elements item) AttributeError.
Proof.
  intros Hp name Hname. unfold Rss201rev2Feed.add_item_elements.
  rewrite Hp. unfold str_decode.
  cbn in Hname.
  destruct Hname as [<- | [<- | [<- | [<- | [<- | [<- | []]]]]]];
    (eapply fails_without_after; [silent_rss |]);
    (eapply fails_without_after; [silent_rss |]);
    (eapply fails_without_after; [silent_rss |]);
    (eapply fails_without_after; [silent_rss |]);
    apply fails_without_first, fails_without_raise.
Qed.

Lemma rss2_item_with_pubdate_raises_witness :
  fails_without (lit "guid") (Rss201rev2Feed.add_item_elements item_with_id)
    AttributeError.
Proof.
  apply (rss2_item_with_pubdate_raises item_with_id noon_utc eq_refl).
  right. right. left. reflexivity.
Defined.

(** ** RSS items *)

Lemma writes_leaves_bind (m k : M unit) (l1 l2 : list leaf) :
  writes_leaves m l1 -> writes_leaves k l2 ->
  writes_leaves (mbind m (fun _ => k)) (l1 ++ l2).
Proof.
  unfold writes_leaves. intros H1 H2. rewrite !flat_map_app.
  exact (runs_bind m (fun _ => k) tt tt _ _ _ _ H1 H2).
Qed.

Lemma writes_leaves_nil : writes_leaves (mret tt) [].
Proof. apply runs_ret. Qed.

Lemma writes_leaves_quick name contents (attrs : list (str * str)) :
  writes_leaves (addQuickElement name contents (some_attrs attrs))
                [(name, contents, attrs)].
Proof.
  unfold writes_leaves. cbn [flat_map leaf_text leaf_calls].
  rewrite !app_nil_r. apply runs_addQuickElement.
Qed.

Lemma writes_leaves_opt name contents :
  writes_leaves (when (is_not_None contents) (addQuickElement name contents []))
                (opt_leaf name contents).
Proof.
  destruct contents as [c |]; cbn [is_not_None when opt_leaf].
  - apply (writes_leaves_quick name (Some c) []).
  - apply writes_leaves_nil.
Qed.

Lemma writes_leaves_for_each {A} (l : list A) (body : A -> M unit)
  (f : A -> leaf) :
  (forall x, writes_leaves (body x) [f x]) ->
  writes_leaves (for_each l body) (map f l).
Proof.
  intros H. induction l as [| x l IH]; cbn [for_each map].
  - apply writes_leaves_nil.
  - apply (writes_leaves_bind _ _ [f x] (map f l)); [apply H | exact IH].
Qed.

Lemma rss2_author_writes (item : item) :
  writes_leaves
    (if truthy_opt (i_author_name item) && truthy_opt (i_author_email item) then
       addQuickElement (lit "author")
         (Some (pct_s (i_author_email item) ++ lit " (" ++ pct_s (i_author_name item)
                ++ lit ")")) []
     else if truthy_opt (i_author_email item) then
       addQuickElement (lit "author") (i_author_email item) []
     else if truthy_opt (i_author_name item) then
       addQuickElement (lit "dc:creator") (i_author_name item)
         [(lit "xmlns:dc", Some (lit "http://purl.org/dc/elements/1.1/"))]
     else mret tt)
    (rss2_author_leaves item).
Proof.
  unfold rss2_author_leaves.
  destruct (truthy_opt (i_author_name item)), (truthy_opt (i_author_email item));
    cbn [andb].
  - apply (writes_leaves_quick _ _ []).
  - apply (writes_leaves_quick _ _
             [(lit "xmlns:dc", lit "http://purl.org/dc/elements/1.1/")]).
  - apply (writes_leaves_quick _ _ []).
  - apply writes_leaves_nil.
Qed.

(** X20.  An RSS 2.0 item without pubdate is always written, and as these
    leaf elements in this order: [title], [link], [description] when set,
    the author ([email (name)] in [author] when both are non-empty, the
    email alone in [author], the name alone in [dc:creator]), [comments],
    [guid] and [ttl] when set, [enclosure] with its [url], [length] and
    [type], and one [category] per category. *)
Theorem rss2_item_without_pubdate (item : item) :
  i_pubdate item = None ->
  writes_leaves (Rss201rev2Feed.add_item_elements item) (rss2_item_leaves item).
Proof.
  intros Hp. unfold Rss201rev2Feed.add_item_elements, rss2_item_leaves.
  rewrite Hp.
  apply (writes_leaves_bind _ _ [_]); [apply (writes_leaves_quick _ _ []) |].
  apply (writes_leaves_bind _ _ [_]); [apply (writes_leaves_quick _ _ []) |].
  apply writes_leaves_bind; [apply writes_leaves_opt |].
  apply writes_leaves_bind; [apply rss2_author_writes |].
  apply (writes_leaves_bind _ _ []); [apply writes_leaves_nil |].
  apply writes_leaves_bind; [apply writes_leaves_opt |].
  apply writes_leaves_bind; [apply writes_leaves_opt |].
  apply writes_leaves_bind; [apply writes_leaves_opt |].
  apply writes_leaves_bind.
  - destruct (i_enclosure item) as [e |]; cbn [enclosure_leaves app].
    + apply (writes_leaves_quick _ _
               [(lit "url", Enclosure.url e); (lit "length", Enclosure.length e);
                (lit "type", Enclosure.mime_type e)]).
    + apply writes_leaves_nil.
  - apply writes_leaves_for_each. intros cat.
    apply (writes_leaves_quick _ _ []).
Qed.

Lemma rss2_item_without_pubdate_witness :
  runs (Rss201rev2Feed.add_item_elements item_with_enclosure) tt
       (lit "<title>I</title><link>http://x/i</link>"
        ++ lit "<author>e@x (N)</author><guid>g&lt;1&gt;</guid>"
        ++ lit "<enclosure url=" ++ dq ++ lit "http://x/a.mp3" ++ dq
        ++ lit " length=" ++ dq ++ lit "123" ++ dq
        ++ lit " type=" ++ dq ++ lit "audio/mpeg" ++ dq ++ lit "></enclosure>"
        ++ lit "<category>c</category><category></category>")
       (flat_map leaf_calls (rss2_item_leaves item_with_enclosure)).
Proof.
  exact (rss2_item_without_pubdate item_with_enclosure eq_refl).
Defined.

(** X21.  RSS 2.0 writes a superset of RSS 0.91: whatever else an item
    holds, and whether or not the rest can be written, what the RSS 2.0
    class writes for it begins with exactly what the RSS 0.91 class
    writes. *)
Theorem rss2_begins_with_rss091 (item : item) :
  writes_leaves (RssUserland091Feed.add_item_elements item)
                (rss091_item_leaves item)
  /\ begins (Rss201rev2Feed.add_item_elements item)
       (flat_map leaf_text (rss091_item_leaves item))
       (flat_map leaf_calls (rss091_item_leaves item)).
Proof.
  split.
  - unfold RssUserland091Feed.add_item_elements, rss091_item_leaves.
    apply (writes_leaves_bind _ _ [_]); [apply (writes_leaves_quick _ _ []) |].
    apply (writes_leaves_bind _ _ [_]); [apply (writes_leaves_quick _ _ []) |].
    apply writes_leaves_opt.
  - unfold Rss201rev2Feed.add_item_elements, rss091_item_leaves.
    rewrite !flat_map_app. eapply begins_eq.
    + eapply begins_runs; [apply (writes_leaves_quick _ _ []) |].
      eapply begins_runs; [apply (writes_leaves_quick _ _ []) |].
      eapply begins_runs; [apply writes_leaves_opt |].
      apply begins_appends. unfold str_decode. appends_tac.
    + cbn [flat_map]. now rewrite !app_nil_r, <- !app_assoc.
    + cbn [flat_map]. now rewrite !app_nil_r, <- !app_assoc.
Qed.

(** ** Atom documents *)

Lemma nesting_app (a b : list sax_call) (stack : list str) :
  nesting stack (a ++ b)
  = match nesting stack a with
    | Some stack' => nesting stack' b
    | None => None
    end.
Proof.
  revert stack. induction a as [| c a IH]; intros stack; [reflexivity |].
  destruct c; cbn [app nesting]; auto.
  destruct stack as [| top rest]; [reflexivity |].
  destruct (str_eqb top name); auto.
Qed.

Lemma balanced_nil : balanced [].
Proof. intros stack. reflexivity. Qed.

Lemma balanced_app (a b : list sax_call) :
  balanced a -> balanced b -> balanced (a ++ b).
Proof. intros Ha Hb stack. now rewrite nesting_app, Ha, Hb. Qed.

Lemma balanced_element name attrs (cs : list sax_call) :
  balanced cs -> balanced (StartElement name attrs :: cs ++ [EndElement name]).
Proof.
  intros H stack. cbn [nesting]. rewrite nesting_app, H. cbn [nesting].
  now rewrite str_eqb_refl.
Qed.

Lemma balanced_quick name contents attrs :
  balanced (quick_calls name contents attrs).
Proof.
  unfold quick_calls. apply balanced_element.
  destruct contents; intros stack; reflexivity.
Qed.

Lemma renders_ret : renders (mret tt).
Proof. exists [], []. split; [apply runs_ret | apply balanced_nil]. Qed.

Lemma renders_bind (m k : M unit) :
  renders m -> renders k -> renders (mbind m (fun _ => k)).
Proof.
  intros (t1 & c1 & R1 & B1) (t2 & c2 & R2 & B2).
  exists (t1 ++ t2), (c1 ++ c2). split.
  - exact (runs_bind m (fun _ => k) tt tt _ _ _ _ R1 R2).
  - apply balanced_app; assumption.
Qed.

Lemma renders_bind_value {A} (m : M A) (k : A -> M unit) (a : A) :
  runs m a [] [] -> renders (k a) -> renders (mbind m k).
Proof.
  intros R (t & c & Rk & B). exists t, c. split; [| exact B].
  exact (runs_bind m k a tt [] t [] c R Rk).
Qed.

Lemma renders_quick name contents (attrs : list (str * str)) :
  renders (addQuickElement name contents (some_attrs attrs)).
Proof.
  eexists; eexists. split; [apply runs_addQuickElement | apply balanced_quick].
Qed.

Lemma renders_when (c : bool) (body : M unit) :
  renders body -> renders (when c body).
Proof. intros H. destruct c; [exact H | apply renders_ret]. Qed.

Lemma renders_for_each {A} (l : list A) (body : A -> M unit) :
  (forall x, In x l -> renders (body x)) -> renders (for_each l body).
Proof.
  induction l as [| x l IH]; intros H; cbn [for_each].
  - apply renders_ret.
  - apply renders_bind; [apply H; left; reflexivity |].
    apply IH. intros y Hy. apply H. right. exact Hy.
Qed.

(** An element with children: the start tag, the children, the end tag. *)
Lemma renders_element name (attrs : list (str * str)) (body : M unit) :
  renders body ->
  renders (startElement name (some_attrs attrs) ;; body ;; endElement name).
Proof.
  intros (t & c & R & B).
  exists ((lit "<" ++ name ++ flat_map attr_text attrs ++ lit ">")
          ++ t ++ lit "</" ++ name ++ lit ">"),
         ([StartElement name (some_attrs attrs)] ++ c ++ [EndElement name]).
  split.
  - apply (runs_bind _ _ tt); [apply runs_startElement |].
    apply (runs_bind _ _ tt); [exact R | apply runs_endElement].
  - apply (balanced_element name (some_attrs attrs) c B).
Qed.

(** An element with three children, as the [author] of a feed or entry. *)
Lemma renders_element_3 name (a b c : M unit) :
  renders a -> renders b -> renders c ->
  renders (startElement name [] ;; a ;; b ;; c ;; endElement name).
Proof.
  intros (ta & ca & Ra & Ba) (tb & cb & Rb & Bb) (tc & cc & Rc & Bc).
  exists ((lit "<" ++ name ++ flat_map attr_text [] ++ lit ">")
          ++ ta ++ tb ++ tc ++ lit "</" ++ name ++ lit ">"),
         ([StartElement name []] ++ ca ++ cb ++ cc ++ [EndElement name]).
  split.
  - apply (runs_bind _ _ tt); [apply (runs_startElement name []) |].
    apply (runs_bind _ _ tt); [exact Ra |].
    apply (runs_bind _ _ tt); [exact Rb |].
    apply (runs_bind _ _ tt); [exact Rc | apply runs_endElement].
  - cbn [app]. replace (ca ++ cb ++ cc ++ [EndElement name])
      with ((ca ++ cb ++ cc) ++ [EndElement name])
      by now rewrite <- !app_assoc.
    apply balanced_element. repeat apply balanced_app; assumption.
Qed.

(** Decomposes a computation of the Atom class that cannot raise. *)
Ltac renders_step :=
  match goal with
  | |- renders (startElement ?n [] ;; _ ;; _ ;; _ ;; endElement ?n) =>
      apply (renders_element_3 n)
  | |- renders (mbind _ (fun _ => _)) => apply renders_bind
  | |- renders (when (is_not_None ?o) _) =>
      destruct o; cbn [is_not_None when]
  | |- renders (when _ _) => apply renders_when
  | |- renders (addQuickElement _ _ []) => apply (renders_quick _ _ [])
  | |- renders (addQuickElement _ _ [(?k1, Some ?v1)]) =>
      apply (renders_quick _ _ [(k1, v1)])
  | |- renders (addQuickElement _ _ [(?k1, Some ?v1); (?k2, Some ?v2)]) =>
      apply (renders_quick _ _ [(k1, v1); (k2, v2)])
  | |- renders (addQuickElement _ _
                  [(?k1, Some ?v1); (?k2, Some ?v2); (?k3, Some ?v3);
                   (?k4, Some ?v4)]) =>
      apply (renders_quick _ _ [(k1, v1); (k2, v2); (k3, v3); (k4, v4)])
  | |- renders (mret tt) => apply renders_ret
  | |- renders (match ?o with Some _ => _ | None => _ end) => destruct o
  end.

Ltac renders_tac := repeat renders_step.

Lemma atom_categories_render (cats : list (option str)) :
  ~ In None cats ->
  renders (for_each cats (fun cat =>
             addQuickElement (lit "category") (Some []) [(lit "term", cat)])).
Proof.
  intros H. apply renders_for_each. intros [c |] Hc; [| contradiction].
  apply (renders_quick _ _ [(lit "term", c)]).
Qed.

Lemma atom_entry_renders (item : item) :
  atom_item_ok item -> renders (Atom1Feed.add_item_elements item).
Proof.
  intros [(uid & Hu) Hc]. unfold Atom1Feed.add_item_elements.
  apply renders_bind; [renders_tac |].
  apply renders_bind; [renders_tac |].
  apply renders_bind; [renders_tac |].
  apply renders_bind; [renders_tac |].
  apply (renders_bind_value _ _ uid).
  { unfold atom_entry_uid in Hu. destruct (i_unique_id item) as [u |].
    - inversion Hu; subst. apply runs_ret.
    - rewrite Hu. exact (runs_ret uid). }
  apply renders_bind; [renders_tac |].
  apply renders_bind; [renders_tac |].
  apply renders_bind; [renders_tac |].
  apply renders_bind; [apply atom_categories_render, Hc |].
  renders_tac.
Qed.

Lemma raises_after (m k : M unit) (e : exn) :
  renders m -> raises k e -> raises (mbind m (fun _ => k)) e.
Proof.
  intros (t1 & c1 & R & _) (t2 & c2 & F).
  exists (t1 ++ t2), (c1 ++ c2).
  exact (fails_with_after m (fun _ => k) tt e _ _ _ _ R F).
Qed.

Lemma raises_first {B} (m : M unit) (k : unit -> M B) (e : exn) :
  raises m e -> exists text cs, fails_with (mbind m k) e text cs.
Proof.
  intros (t & c & F). exists t, c. apply fails_with_then, F.
Qed.

Lemma first_None {A} (l : list (option A)) :
  In None l ->
  exists pre post, l = map Some pre ++ None :: post.
Proof.
  induction l as [| x l IH]; intros H; [destruct H |].
  destruct x as [a |].
  - destruct IH as (pre & post & ->); [destruct H; [discriminate | assumption] |].
    exists (a :: pre), post. reflexivity.
  - exists [], l. reflexivity.
Qed.

Lemma atom_categories_raise (cats : list (option str)) :
  In None cats ->
  raises (for_each cats (fun cat =>
            addQuickElement (lit "category") (Some []) [(lit "term", cat)]))
         AttributeError.
Proof.
  intros H. destruct (first_None cats H) as (pre & post & ->). clear H.
  induction pre as [| c pre IH]; cbn [map app for_each].
  - destruct (raises_first
                (addQuickElement (lit "category") (Some []) [(lit "term", None)])
                (fun _ => for_each post (fun cat =>
                   addQuickElement (lit "category") (Some []) [(lit "term", cat)]))
                AttributeError) as (t & cs & F).
    + eexists; eexists.
      apply (addQuickElement_None_fails (lit "category") (Some []) []
               (lit "term") []).
    + exists t, cs. exact F.
  - apply raises_after; [apply (renders_quick _ _ [(lit "term", c)]) | exact IH].
Qed.

Lemma latest_post_date_returns (now : datetime) (self : SyndicationFeed.t) :
  ~ mixed (pubdates (SyndicationFeed.items self)) ->
  exists d, SyndicationFeed.latest_post_date now self = Ok d.
Proof.
  intros Hm. unfold SyndicationFeed.latest_post_date.
  fold (pubdates (SyndicationFeed.items self)).
  destruct (pubdates (SyndicationFeed.items self)) as [| u us] eqn:Eu;
    [cbn; eauto |].
  replace (0 <? Z.of_nat (List.length (u :: us))) with true
    by (symmetry; apply Z.ltb_lt; cbn [List.length]; lia).
  destruct (mixedb (u :: us)) eqn:Em.
  - apply mixedb_mixed in Em. contradiction.
  - destruct (list_sort_sorted _ (not_mixedb_comparable _ Em)) as (r & -> & _).
    cbn [rbind]. eauto.
Qed.

(** X22.  The Atom class writes the entry of an item, with every element
    it opens closed again, when the item has a unique id or a link of
    which a tag URI can be made, and no category that is [None].  A
    category that is [None] makes the entry raise [AttributeError], at the
    [term] attribute of that category. *)
Theorem atom_entry_written (item : item) :
  (atom_item_ok item -> renders (Atom1Feed.add_item_elements item))
  /\ (forall uid,
        atom_entry_uid item = Ok uid -> In None (i_categories item) ->
        raises (Atom1Feed.add_item_elements item) AttributeError).
Proof.
  split; [apply atom_entry_renders |].
  intros uid Hu Hc. unfold Atom1Feed.add_item_elements.
  apply raises_after; [renders_tac |].
  apply raises_after; [renders_tac |].
  apply raises_after; [renders_tac |].
  apply raises_after; [renders_tac |].
  assert (Hu' : forall (k : str -> M unit),
             raises (k uid) AttributeError ->
             raises (mbind match i_unique_id item with
                           | Some unique_id => mret unique_id
                           | None => lift (get_tag_uri (i_link item) (i_pubdate item))
                           end k) AttributeError).
  { intros k (t & c & F). exists t, c. intros h.
    unfold atom_entry_uid in Hu. unfold mbind.
    destruct (i_unique_id item) as [u |].
    - inversion Hu; subst. apply F.
    - rewrite Hu. apply F. }
  apply Hu'.
  apply raises_after; [renders_tac |].
  apply raises_after; [renders_tac |].
  apply raises_after; [renders_tac |].
  destruct (atom_categories_raise (i_categories item) Hc) as (t & c & F).
  exists t, c. apply fails_with_then, F.
Qed.

Lemma atom_entry_written_witness :
  renders (Atom1Feed.add_item_elements item_two_categories)
  /\ raises (Atom1Feed.add_item_elements item_none_category) AttributeError.
Proof.
  split.
  - apply (proj1 (atom_entry_written item_two_categories)). split.
    + exists (lit "tag:x,2009-01-01:/i/"). reflexivity.
    + cbn. intros [H | [H | []]]; discriminate.
  - apply (proj2 (atom_entry_written item_none_category)
             (lit "tag:x,2009-01-01:/i/") eq_refl).
    right. left. reflexivity.
Defined.

Lemma atom_root_elements_render (now : datetime) (self : SyndicationFeed.t) :
  ~ mixed (pubdates (SyndicationFeed.items self)) ->
  ~ In None (f_categories (SyndicationFeed.feed self)) ->
  renders (Atom1Feed.add_root_elements now self).
Proof.
  intros Hm Hc. unfold Atom1Feed.add_root_elements. cbv zeta.
  destruct (latest_post_date_returns now self Hm) as (d & Hd).
  apply renders_bind; [renders_tac |].
  apply renders_bind; [renders_tac |].
  apply renders_bind; [renders_tac |].
  apply renders_bind; [renders_tac |].
  rewrite Hd. apply (renders_bind_value _ _ d); [exact (runs_ret d) |].
  apply renders_bind; [renders_tac |].
  apply renders_bind; [renders_tac |].
  apply renders_bind; [renders_tac |].
  apply renders_bind; [apply atom_categories_render, Hc |].
  renders_tac.
Qed.

Lemma atom_items_render (self : SyndicationFeed.t) :
  Forall atom_item_ok (SyndicationFeed.items self) ->
  renders (Atom1Feed.write_items self).
Proof.
  intros H. unfold Atom1Feed.write_items. apply renders_for_each.
  intros item Hi. rewrite Forall_forall in H.
  apply (renders_element (lit "entry") []).
  apply atom_entry_renders, H, Hi.
Qed.

Lemma atom_root_tag_runs (self : SyndicationFeed.t) :
  runs (startElement (lit "feed") (Atom1Feed.root_attributes self)) tt
       (atom_root_tag (SyndicationFeed.feed self))
       [StartElement (lit "feed") (Atom1Feed.root_attributes self)].
Proof.
  unfold Atom1Feed.root_attributes, atom_root_tag. cbv zeta.
  destruct (f_language (SyndicationFeed.feed self)) as [l |]; cbn [is_not_None].
  - eapply runs_eq.
    + apply (runs_startElement (lit "feed")
               [(lit "xmlns", Atom1Feed.ns); (lit "xml:lang", l)]).
    + unfold attr_text. cbn [flat_map fst snd].
      unfold quoteattr at 1. cbn. now rewrite <- !app_assoc.
    + reflexivity.
  - eapply runs_eq.
    + apply (runs_startElement (lit "feed") [(lit "xmlns", Atom1Feed.ns)]).
    + reflexivity.
    + reflexivity.
Qed.

(** X23.  [Atom1Feed.write] returns, with a complete document, for every
    feed whose pubdates are all naive or all aware, whose categories hold
    no [None], and whose items each have a unique id or a link of which a
    tag URI can be made and no [None] category.  The file then holds what
    it held, the XML declaration, the [feed] start tag, a body and
    [</feed>]; the calls made are well nested, every element being closed
    innermost first. *)
Theorem atom_write_complete (now : datetime) (self : SyndicationFeed.t)
  (enc : str) :
  atom_feed_ok self ->
  exists body cs,
    well_nested cs
    /\ forall outfile,
         Atom1Feed.write now self outfile enc
         = (Ok tt,
            mk_handler
              (outfile ++ xml_declaration enc
               ++ atom_root_tag (SyndicationFeed.feed self)
               ++ body ++ lit "</feed>")
              enc cs).
Proof.
  intros (Hm & Hc & Hi).
  destruct (atom_root_elements_render now self Hm Hc) as (t1 & c1 & R1 & B1).
  destruct (atom_items_render self Hi) as (t2 & c2 & R2 & B2).
  exists (t1 ++ t2),
         ([StartDocument]
          ++ [StartElement (lit "feed") (Atom1Feed.root_attributes self)]
          ++ (c1 ++ c2) ++ [EndElement (lit "feed")]).
  split.
  - unfold well_nested. cbn [app nesting].
    rewrite nesting_app, (balanced_app _ _ B1 B2). cbn [nesting].
    reflexivity.
  - intros outfile. unfold Atom1Feed.write.
    assert (R : runs (startElement (lit "feed") (Atom1Feed.root_attributes self) ;;
                      Atom1Feed.add_root_elements now self ;;
                      Atom1Feed.write_items self ;;
                      endElement (lit "feed")) tt
                  (atom_root_tag (SyndicationFeed.feed self)
                   ++ t1 ++ t2 ++ lit "</feed>")
                  ([StartElement (lit "feed") (Atom1Feed.root_attributes self)]
                   ++ c1 ++ c2 ++ [EndElement (lit "feed")])).
    { apply (runs_bind _ _ tt); [apply atom_root_tag_runs |].
      apply (runs_bind _ _ tt); [exact R1 |].
      apply (runs_bind _ _ tt); [exact R2 | apply runs_endElement]. }
    unfold mbind at 1. unfold startDocument. unfold mbind at 1.
    unfold called at 1, _write at 1.
    cbn [encoding out calls SimplerXMLGenerator.new].
    rewrite R. unfold push. cbn [out encoding calls].
    fold (xml_declaration enc).
    f_equal. f_equal.
    + now rewrite <- !app_assoc.
    + cbn [app]. now rewrite <- !app_assoc.
Qed.

Lemma atom_write_complete_witness :
  exists body cs,
    well_nested cs
    /\ forall outfile,
         Atom1Feed.write noon_naive
           (SyndicationFeed.mk (SyndicationFeed.feed scenario_stored)
              [item_two_categories; item_two_categories]) outfile (lit "utf-8")
         = (Ok tt,
            mk_handler
              (outfile ++ xml_declaration (lit "utf-8")
               ++ atom_root_tag (SyndicationFeed.feed scenario_stored)
               ++ body ++ lit "</feed>")
              (lit "utf-8") cs).
Proof.
  apply (atom_write_complete noon_naive
           (SyndicationFeed.mk (SyndicationFeed.feed scenario_stored)
              [item_two_categories; item_two_categories]) (lit "utf-8")).
  assert (Hi : atom_item_ok item_two_categories).
  { split.
    - exists (lit "tag:x,2009-01-01:/i/"). reflexivity.
    - cbn. intros [H | [H | []]]; discriminate. }
  split; [| split].
  - intros (a & b & Ha & Hb & Ka & Kb). cbn in Ha.
    destruct Ha as [<- | [<- | []]]; discriminate.
  - cbn. tauto.
  - cbn. repeat (apply Forall_cons; [exact Hi |]). apply Forall_nil.
Defined.

Lemma latest_post_date_mixed (now : datetime) (self : SyndicationFeed.t) :
  mixed (pubdates (SyndicationFeed.items self)) ->
  SyndicationFeed.latest_post_date now self = Raise TypeError.
Proof.
  intros Hm. unfold SyndicationFeed.latest_post_date.
  fold (pubdates (SyndicationFeed.items self)).
  destruct (pubdates (SyndicationFeed.items self)) as [| u us] eqn:Eu.
  - destruct Hm as (a & _ & [] & _).
  - replace (0 <? Z.of_nat (List.length (u :: us))) with true
      by (symmetry; apply Z.ltb_lt; cbn [List.length]; lia).
    now rewrite (list_sort_mixed _ Hm).
Qed.

Lemma atom_write_unfold now self outfile enc :
  Atom1Feed.write now self outfile enc
  = atom_document now self
      (push (SimplerXMLGenerator.new outfile enc) (xml_declaration enc)
            [StartDocument]).
Proof.
  unfold Atom1Feed.write, atom_document.
  unfold mbind at 1. unfold startDocument. unfold mbind at 1.
  unfold called at 1, _write at 1.
  cbn [encoding out calls SimplerXMLGenerator.new].
  reflexivity.
Qed.

Lemma atom_tail_appends (now : datetime) (self : SyndicationFeed.t) :
  appends any_name
    (do latest <- lift (SyndicationFeed.latest_post_date now self);
     addQuickElement (lit "updated") (Some (rfc3339_date latest)) [] ;;
     when (is_not_None (f_author_name (SyndicationFeed.feed self)))
       (startElement (lit "author") [] ;;
        addQuickElement (lit "name") (f_author_name (SyndicationFeed.feed self)) [] ;;
        when (is_not_None (f_author_email (SyndicationFeed.feed self)))
          (addQuickElement (lit "email")
             (f_author_email (SyndicationFeed.feed self)) []) ;;
        when (is_not_None (f_author_link (SyndicationFeed.feed self)))
          (addQuickElement (lit "uri")
             (f_author_link (SyndicationFeed.feed self)) []) ;;
        endElement (lit "author")) ;;
     when (is_not_None (f_subtitle (SyndicationFeed.feed self)))
       (addQuickElement (lit "subtitle") (f_subtitle (SyndicationFeed.feed self)) []) ;;
     for_each (f_categories (SyndicationFeed.feed self)) (fun cat =>
       addQuickElement (lit "category") (Some []) [(lit "term", cat)]) ;;
     when (is_not_None (f_feed_copyright (SyndicationFeed.feed self)))
       (addQuickElement (lit "rights")
          (f_feed_copyright (SyndicationFeed.feed self)) [])).
Proof. appends_tac. Qed.

Lemma atom_items_appends (self : SyndicationFeed.t) :
  appends any_name (Atom1Feed.write_items self ;; endElement (lit "feed")).
Proof.
  unfold Atom1Feed.write_items, Atom1Feed.add_item_elements. appends_tac.
Qed.

Lemma atom_add_root_begins (now : datetime) (self : SyndicationFeed.t) :
  begins (Atom1Feed.add_root_elements now self)
    (flat_map leaf_text (atom_head_leaves (SyndicationFeed.feed self)))
    (flat_map leaf_calls (atom_head_leaves (SyndicationFeed.feed self))).
Proof.
  unfold Atom1Feed.add_root_elements, atom_head_leaves. cbv zeta.
  destruct (f_feed_url (SyndicationFeed.feed self)) as [u |];
    cbn [is_not_None when]; (eapply begins_eq;
    [ eapply begins_runs; [apply (runs_addQuickElement _ _ []) |];
      eapply begins_runs;
        [apply (runs_addQuickElement _ _
                  [(lit "rel", lit "alternate");
                   (lit "href", f_link (SyndicationFeed.feed self))]) |];
      eapply begins_runs;
        [first [ apply (runs_addQuickElement _ _
                          [(lit "rel", lit "self"); (lit "href", u)])
               | apply runs_ret ] |];
      eapply begins_runs; [apply (runs_addQuickElement _ _ []) |];
      apply begins_appends, atom_tail_appends
    | cbn [flat_map app leaf_text]; now rewrite ?app_nil_r, <- ?app_assoc
    | cbn [flat_map app leaf_calls some_attrs map fst snd];
      now rewrite ?app_nil_r, <- ?app_assoc ]).
Qed.

Lemma atom_document_begins (now : datetime) (self : SyndicationFeed.t) :
  begins (atom_document now self)
    (atom_root_tag (SyndicationFeed.feed self)
     ++ flat_map leaf_text (atom_head_leaves (SyndicationFeed.feed self)))
    ([StartElement (lit "feed") (Atom1Feed.root_attributes self)]
     ++ flat_map leaf_calls (atom_head_leaves (SyndicationFeed.feed self))).
Proof.
  unfold atom_document.
  eapply begins_runs; [apply atom_root_tag_runs |].
  apply begins_then; [apply atom_add_root_begins |].
  intros _. apply atom_items_appends.
Qed.

(** X24.  Whatever the feed holds, [Atom1Feed.write] gets as far as the
    [id] of the feed: after the declaration and the [feed] start tag it
    writes the [title], the alternate [link], the self [link] only when
    the feed has a [feed_url] (the guard that the RSS classes lack), and
    the [id]. *)
Theorem atom_write_head (now : datetime) (self : SyndicationFeed.t)
  (outfile enc : str) :
  let feed := SyndicationFeed.feed self in
  exists r text cs,
    Atom1Feed.write now self outfile enc
    = (r,
       mk_handler
         (outfile ++ xml_declaration enc ++ atom_root_tag feed
          ++ flat_map leaf_text (atom_head_leaves feed) ++ text)
         enc
         ([StartDocument; StartElement (lit "feed") (Atom1Feed.root_attributes self)]
          ++ flat_map leaf_calls (atom_head_leaves feed) ++ cs)).
Proof.
  cbv zeta. rewrite atom_write_unfold.
  destruct (atom_document_begins now self
              (push (SimplerXMLGenerator.new outfile enc) (xml_declaration enc)
                    [StartDocument])) as (t & c & E).
  destruct (atom_document now self _) as [r h] eqn:Ed. cbn [snd] in E. subst h.
  exists r, t, c. f_equal. rewrite push_push. unfold push.
  cbn [out encoding calls SimplerXMLGenerator.new app].
  now rewrite <- !app_assoc.
Qed.

Lemma fails_with_lift {A B} (k : A -> M B) (e : exn) :
  fails_with (mbind (lift (Raise e)) k) e [] [].
Proof. intros h. unfold mbind, lift. now rewrite push_nil. Qed.

Lemma atom_add_root_mixed (now : datetime) (self : SyndicationFeed.t) :
  mixed (pubdates (SyndicationFeed.items self)) ->
  fails_with (Atom1Feed.add_root_elements now self) TypeError
    (flat_map leaf_text (atom_head_leaves (SyndicationFeed.feed self)))
    (flat_map leaf_calls (atom_head_leaves (SyndicationFeed.feed self))).
Proof.
  intros Hm. unfold Atom1Feed.add_root_elements, atom_head_leaves. cbv zeta.
  rewrite (latest_post_date_mixed now self Hm).
  destruct (f_feed_url (SyndicationFeed.feed self)) as [u |];
    cbn [is_not_None when]; (eapply fails_with_eq;
    [ eapply fails_with_after; [apply (runs_addQuickElement _ _ []) |];
      eapply fails_with_after;
        [apply (runs_addQuickElement _ _
                  [(lit "rel", lit "alternate");
                   (lit "href", f_link (SyndicationFeed.feed self))]) |];
      eapply fails_with_after;
        [first [ apply (runs_addQuickElement _ _
                          [(lit "rel", lit "self"); (lit "href", u)])
               | apply runs_ret ] |];
      eapply fails_with_after; [apply (runs_addQuickElement _ _ []) |];
      apply fails_with_lift
    | cbn [flat_map app leaf_text]; now rewrite ?app_nil_r, <- ?app_assoc
    | cbn [flat_map app leaf_calls some_attrs map fst snd];
      now rewrite ?app_nil_r, <- ?app_assoc ]).
Qed.

(** X25.  When the pubdates of the items hold both a naive and an aware
    timestamp, [Atom1Feed.write] raises [TypeError] where it computes the
    [updated] date of the feed: the file is left with the declaration, the
    [feed] start tag and the elements up to the [id] of the feed; no
    [updated] element and no entry is written, and [feed] is not closed. *)
Theorem atom_write_mixed_pubdates (now : datetime) (self : SyndicationFeed.t)
  (outfile enc : str) :
  mixed (pubdates (SyndicationFeed.items self)) ->
  let feed := SyndicationFeed.feed self in
  Atom1Feed.write now self outfile enc
  = (Raise TypeError,
     mk_handler
       (outfile ++ xml_declaration enc ++ atom_root_tag feed
        ++ flat_map leaf_text (atom_head_leaves feed))
       enc
       ([StartDocument; StartElement (lit "feed") (Atom1Feed.root_attributes self)]
        ++ flat_map leaf_calls (atom_head_leaves feed))).
Proof.
  intros Hm. cbv zeta. rewrite atom_write_unfold.
  assert (F : fails_with (atom_document now self) TypeError
                (atom_root_tag (SyndicationFeed.feed self)
                 ++ flat_map leaf_text (atom_head_leaves (SyndicationFeed.feed self)))
                ([StartElement (lit "feed") (Atom1Feed.root_attributes self)]
                 ++ flat_map leaf_calls
                      (atom_head_leaves (SyndicationFeed.feed self)))).
  { unfold atom_document.
    eapply fails_with_after; [apply atom_root_tag_runs |].
    apply fails_with_then, atom_add_root_mixed, Hm. }
  rewrite F, push_push. unfold push.
  cbn [out encoding calls SimplerXMLGenerator.new app].
  now rewrite <- ?app_assoc.
Qed.

Lemma atom_write_mixed_pubdates_witness :
  fst (Atom1Feed.write noon_utc
         (SyndicationFeed.mk (SyndicationFeed.feed scenario_stored)
            (three_items noon_naive noon_pst)) [] (lit "utf-8"))
  = Raise TypeError.
Proof.
  rewrite (atom_write_mixed_pubdates noon_utc
             (SyndicationFeed.mk (SyndicationFeed.feed scenario_stored)
                (three_items noon_naive noon_pst)) [] (lit "utf-8")).
  - reflexivity.
  - exists noon_naive, noon_pst. cbn. repeat split; auto. discriminate.
Defined.
